(** * Overseas entities: name normaliser, registry resolver, BO classifier

    A shallow embedding of the core of the [data_creator] pipeline:

    - [roe_common_functions.py]: [load_tokens], [normalise_text];
    - [roe_2_find_BOs.py]: the registry client ([get_company_details],
      [get_company_profile], [get_BO_list]), its two caches,
      [find_BOs_for_company], [format_address], [pick_company_address],
      [is_ceased_beneficial_owner], the row loop of
      [process_all_records] and [commit_with_retry];
    - [roe_5_categorise_BOs.py]: the loaders of the reference lists,
      [is_uk_a_fuzzy_match], the reference-list tests,
      [process_bo_status], [_row_to_minimal_dict], [worker_process_rows],
      the two paths of [main] ([_chunk_generator], [flush_pending]) and
      [update_record_with_retry].

    Python text is a list of Unicode code points.  What Python takes from
    libraries (Unicode tables, JSON and literal parsers, rapidfuzz, the
    geometry test) and from files that are not part of the sources (the
    word list, the reference lists) enters through type classes. *)

From Stdlib Require Import ZArith NArith List Bool String Ascii QArith Lia Sorted.
From stdpp Require Import base option list gmap strings.

Set Default Proof Using "Type".

(* ===================================================================== *)
(** * Part I: definitions                                                  *)
(* ===================================================================== *)

(** ** Python [str] *)

Abbreviation str := (list N) (only parsing).

(** An ASCII literal as Python text. *)
Definition py (s : string) : str := map N_of_ascii (list_ascii_of_string s).

Definition chr (a : ascii) : N := N_of_ascii a.

Module Char.

Definition in_range (lo hi c : N) : bool := ((lo <=? c) && (c <=? hi))%N.

Definition is_ascii (c : N) : bool := (c <? 128)%N.
Definition is_lower_az (c : N) : bool := in_range 97 122 c.
Definition is_upper_AZ (c : N) : bool := in_range 65 90 c.
Definition is_digit (c : N) : bool := in_range 48 57 c.

(** [str.isspace] on one character; also what [\s] matches in a [str]
    pattern and what [strip] and [split] treat as blank. *)
Definition isspace (c : N) : bool :=
  in_range 9 13 c || in_range 28 32 c || (c =? 133)%N || (c =? 160)%N
  || (c =? 5760)%N || in_range 8192 8202 c || (c =? 8232)%N
  || (c =? 8233)%N || (c =? 8239)%N || (c =? 8287)%N || (c =? 12288)%N.

Definition ascii_lower (c : N) : N := if is_upper_AZ c then (c + 32)%N else c.

(** The class [[a-z0-9]]. *)
Definition is_az09 (c : N) : bool := is_lower_az c || is_digit c.

End Char.
Import Char.

(** The Unicode database, consulted only for text that is not pure ASCII. *)
Class Unicode := {
  uni_lower : str -> str;      (* [str.lower] *)
  uni_nfkd : str -> str;       (* [unicodedata.normalize('NFKD', _)] *)
  uni_combining : N -> bool;   (* [unicodedata.combining(ch)] is non-zero *)
  uni_alnum : N -> bool        (* [str.isalnum] on one character *)
}.

Module PyStr.
Section WithUnicode.
Context `{Unicode}.

Definition lower (s : str) : str :=
  if forallb is_ascii s then map ascii_lower s else uni_lower s.

Definition nfkd (s : str) : str :=
  if forallb is_ascii s then s else uni_nfkd s.

Definition combining (c : N) : bool :=
  if is_ascii c then false else uni_combining c.

(** [\w] in a [str] pattern: alphanumeric or underscore. *)
Definition is_word (c : N) : bool :=
  if is_ascii c
  then is_lower_az c || is_upper_AZ c || is_digit c || (c =? 95)%N
  else uni_alnum c.

End WithUnicode.

Fixpoint drop_while (p : N -> bool) (s : str) : str :=
  match s with
  | c :: s' => if p c then drop_while p s' else s
  | [] => []
  end.

Definition lstrip (s : str) : str := drop_while isspace s.
Definition rstrip (s : str) : str := rev (drop_while isspace (rev s)).
Definition strip (s : str) : str := rstrip (lstrip s).

(** [s.strip(chars)] *)
Definition strip_chars (chars : str) (s : str) : str :=
  let p c := existsb (N.eqb c) chars in
  rev (drop_while p (rev (drop_while p s))).

Fixpoint startswith (s t : str) : bool :=
  match t, s with
  | [], _ => true
  | a :: t', b :: s' => (a =? b)%N && startswith s' t'
  | _ :: _, [] => false
  end.

Definition endswith (s t : str) : bool := startswith (rev s) (rev t).

(** [needle in s] *)
Fixpoint contains (s needle : str) : bool :=
  startswith s needle ||
  match s with
  | [] => false
  | _ :: s' => contains s' needle
  end.

Definition str_eqb (a b : str) : bool := bool_decide (a = b).

(** [s.split()]: the maximal runs of non-blank characters. *)
Fixpoint split (s : str) : list str :=
  match s with
  | [] => []
  | c :: s' =>
      if isspace c then split s'
      else match s' with
           | [] => [[c]]
           | d :: _ =>
               if isspace d then [c] :: split s'
               else match split s' with
                    | w :: ws => (c :: w) :: ws
                    | [] => [[c]]
                    end
           end
  end.

(** [s.split(sep)] for a one-character separator. *)
Fixpoint split_on (sep : N) (s : str) : list str :=
  match s with
  | [] => [[]]
  | c :: s' =>
      if (c =? sep)%N then [] :: split_on sep s'
      else match split_on sep s' with
           | w :: ws => (c :: w) :: ws
           | [] => [[c]]
           end
  end.

(** [s.replace(old, new)] for a non-empty [old]; [skip] counts the
    characters of a replaced occurrence still to be dropped. *)
Fixpoint replace_from (old new : str) (skip : nat) (s : str) : str :=
  match s with
  | [] => []
  | c :: s' =>
      match skip with
      | S k => replace_from old new k s'
      | O => if startswith s old
             then new ++ replace_from old new (length old - 1) s'
             else c :: replace_from old new O s'
      end
  end.

Definition replace (old new s : str) : str := replace_from old new 0 s.

(** [sep.join(parts)] *)
Fixpoint join (sep : str) (parts : list str) : str :=
  match parts with
  | [] => []
  | [p] => p
  | p :: ps => p ++ sep ++ join sep ps
  end.

End PyStr.
Import PyStr.

(** ** The fragment of [re] the normaliser uses

    Patterns are sequences of atoms; matching is backtracking with
    Python's priorities (greedy repetition, alternatives left to right). *)

Inductive re_atom :=
| Chr (c : N)               (* a literal character *)
| Star (p : N -> bool)      (* [C*] for a character class *)
| Plus (p : N -> bool)      (* [C+] *)
| Opt (c : N)               (* [c?] *)
| WordB                     (* [\b] *)
| AnyOf (ts : list str).    (* [(?:t1|t2|...)], escaped literals *)

Abbreviation regex := (list re_atom) (only parsing).

Module Re.
Section WithUnicode.
Context `{Unicode}.

(** [\b] between the character before the position and the one after. *)
Definition at_boundary (prev : option N) (s : str) : bool :=
  xorb (from_option is_word false prev) (from_option is_word false (head s)).

(** The rest of a pattern as a continuation [k adv prev s]: [adv] says
    that the whole match must still consume a character, [prev] is the
    character before the position; the result is the length matched. *)
Fixpoint star_then (p : N -> bool)
    (k : bool -> option N -> str -> option nat)
    (adv : bool) (prev : option N) (s : str) : option nat :=
  match s with
  | c :: s' =>
      if p c then
        match star_then p k false (Some c) s' with
        | Some n => Some (S n)
        | None => k adv prev s
        end
      else k adv prev s
  | [] => k adv prev s
  end.

Fixpoint alt_then (ts : list str)
    (k : bool -> option N -> str -> option nat)
    (adv : bool) (prev : option N) (s : str) : option nat :=
  match ts with
  | [] => None
  | t :: ts' =>
      let here :=
        if startswith s t
        then k (adv && bool_decide (t = [])) (from_option Some prev (last t))
               (drop (length t) s)
        else None in
      match here with
      | Some n => Some (length t + n)
      | None => alt_then ts' k adv prev s
      end
  end.

(** The length of the match of [r] at this position, if there is one;
    with [adv] an empty match is refused (the engine's must-advance
    flag after an empty match). *)
Fixpoint re_match (r : regex) (adv : bool) (prev : option N) (s : str)
    {struct r} : option nat :=
  match r with
  | [] => if adv then None else Some 0
  | Chr c :: r' =>
      match s with
      | x :: s' => if (x =? c)%N then S <$> re_match r' false (Some x) s' else None
      | [] => None
      end
  | Star p :: r' => star_then p (re_match r') adv prev s
  | Plus p :: r' =>
      match s with
      | x :: s' =>
          if p x then S <$> star_then p (re_match r') false (Some x) s' else None
      | [] => None
      end
  | Opt c :: r' =>
      match s with
      | x :: s' =>
          if (x =? c)%N then
            match re_match r' false (Some x) s' with
            | Some n => Some (S n)
            | None => re_match r' adv prev s
            end
          else re_match r' adv prev s
      | [] => re_match r' adv prev s
      end
  | WordB :: r' => if at_boundary prev s then re_match r' adv prev s else None
  | AnyOf ts :: r' => alt_then ts (re_match r') adv prev s
  end.

(** [re.sub(r, repl, s)] for a literal [repl], scanning from the left.
    [skip = Some k]: a match has been replaced and [k] of its characters
    are still to be dropped. *)
Fixpoint re_sub_from (r : regex) (repl : str) (skip : option nat)
    (prev : option N) (s : str) : str :=
  match s with
  | [] =>
      match skip with
      | Some _ => []
      | None =>
          match re_match r false prev [] with
          | Some _ => repl
          | None => []
          end
      end
  | c :: s' =>
      match skip with
      | Some (S k) => re_sub_from r repl (Some k) (Some c) s'
      | _ =>
          match re_match r false prev s with
          | Some (S k) => repl ++ re_sub_from r repl (Some k) (Some c) s'
          | Some O =>
              repl ++
              match re_match r true prev s with
              | Some (S k) => repl ++ re_sub_from r repl (Some k) (Some c) s'
              | _ => c :: re_sub_from r repl None (Some c) s'
              end
          | None => c :: re_sub_from r repl None (Some c) s'
          end
      end
  end.

Definition re_sub (r : regex) (repl : str) (s : str) : str :=
  re_sub_from r repl None None s.

(** What keeps a pattern, started before a blank, from reaching what
    follows the blank (one of [s1] and [s2]): its characters are not
    blanks, and none of its tails that begin with a starred class
    matches where [s1] or [s2] begins. *)
Fixpoint stops_before (s1 s2 : list N) (r : list re_atom) : Prop :=
  match r with
  | [] => True
  | a :: r' =>
      match a with
      | Chr c | Opt c => c <> 32%N
      | Star p =>
          forall adv prev,
            re_match (Star p :: r') adv prev s1 = None
            /\ re_match (Star p :: r') adv prev s2 = None
      | WordB => True
      | _ => False
      end
      /\ stops_before s1 s2 r'
  end.

End WithUnicode.
End Re.
Import Re.

(** ** [roe_common_functions.py] *)

(** The lines of [data_creator/words_to_ignore_in_names.txt]; the file is
    read at import time and is not part of the sources. *)
Class WordList := words_to_ignore_in_names : list str.

Section Normaliser.
Context `{Unicode}.

(** [tokens.sort(key=len, reverse=True)]: stable, longest first. *)
Fixpoint insert_by_len (x : str) (l : list str) : list str :=
  match l with
  | [] => [x]
  | y :: l' =>
      if (length x <? length y)%nat then y :: insert_by_len x l'
      else x :: l
  end.

Definition sort_by_len_desc (l : list str) : list str :=
  foldr insert_by_len [] l.

Definition load_tokens (lines : list str) : list str :=
  let keep line :=
    negb (str_eqb (strip line) []) && negb (startswith (lstrip line) (py "#")) in
  sort_by_len_desc (map (fun line => lower (strip line)) (List.filter keep lines)).

Context `{WordList}.

Definition TOKENS_TO_REMOVE : list str := load_tokens words_to_ignore_in_names.

(** [\b(?:t1|...|tn)\b]; with no token the joined alternation is the
    empty pattern. *)
Definition NORMALIZATION_PATTERN : regex :=
  [WordB;
   AnyOf (match TOKENS_TO_REMOVE with [] => [[]] | _ => TOKENS_TO_REMOVE end);
   WordB].

(** [[^a-z0-9\s]+] *)
Definition PUNCTUATION : regex :=
  [Plus (fun c => negb (is_az09 c || isspace c))].

(** [\s+] *)
Definition WHITESPACE_PATTERN : regex := [Plus isspace].

(** [\s*\.?\s*] between the letters of an acronym. *)
Definition dots_and_blanks : regex := [Star isspace; Opt (chr "."); Star isspace].

(** [\bs\s*\.?\s*a\s*\.?\s*r\s*\.?\s*l\b] *)
Definition RE_SARL : regex :=
  [WordB; Chr (chr "s")] ++ dots_and_blanks ++ [Chr (chr "a")] ++ dots_and_blanks
  ++ [Chr (chr "r")] ++ dots_and_blanks ++ [Chr (chr "l"); WordB].

(** [\bs\s*\.?\s*p\s*\.?\s*a\b] *)
Definition RE_SPA : regex :=
  [WordB; Chr (chr "s")] ++ dots_and_blanks ++ [Chr (chr "p")] ++ dots_and_blanks
  ++ [Chr (chr "a"); WordB].

(** [\bb\s*\.?\s*v\b] *)
Definition RE_BV : regex :=
  [WordB; Chr (chr "b")] ++ dots_and_blanks ++ [Chr (chr "v"); WordB].

(** [\bg\s*\.?\s*m\s*\.?\s*b\s*\.?\s*h\b] *)
Definition RE_GMBH : regex :=
  [WordB; Chr (chr "g")] ++ dots_and_blanks ++ [Chr (chr "m")] ++ dots_and_blanks
  ++ [Chr (chr "b")] ++ dots_and_blanks ++ [Chr (chr "h"); WordB].

(** The shape the four acronym patterns share: a first letter at a
    word boundary, then each further letter after [\s*\.?\s*], then a
    word boundary. *)
Definition acronym_tail (letters : str) : regex :=
  foldr (fun x r => dots_and_blanks ++ Chr x :: r) [WordB] letters.

Definition acronym_re (x : N) (letters : str) : regex :=
  WordB :: Chr x :: acronym_tail letters.

(** [_fold]: NFKD, then drop the combining marks. *)
Definition _fold (text : str) : str :=
  List.filter (fun ch => negb (combining ch)) (nfkd text).

(** The text before the token list is applied: folding, the four
    acronyms, punctuation. *)
Definition collapse_acronyms (text : str) : str :=
  let text := re_sub RE_SARL (py " sarl") text in
  let text := re_sub RE_SPA (py " spa") text in
  let text := re_sub RE_BV (py " bv") text in
  re_sub RE_GMBH (py " gmbh") text.

Definition normalise_text (text : str) : str :=
  let text := _fold (lower text) in
  let text := collapse_acronyms text in
  let text := re_sub PUNCTUATION [] text in
  let text := re_sub NORMALIZATION_PATTERN [] text in
  let text := re_sub WHITESPACE_PATTERN [] text in
  strip text.

End Normaliser.

(** A Unicode database with nothing in it, for running the definitions on
    ASCII text. *)
Definition ascii_only : Unicode :=
  {| uni_lower := fun s => s; uni_nfkd := fun s => s;
     uni_combining := fun _ => false; uni_alnum := fun _ => false |}.

(** ** JSON values, as [json.loads] and [r.json()] produce them *)

Inductive json :=
| JNull
| JBool (b : bool)
| JInt (n : Z)
| JFloat (q : Q)
| JStr (s : str)
| JList (l : list json)
| JObj (kv : list (str * json)).

Abbreviation jdict := (list (str * json)) (only parsing).

Module Json.

Fixpoint lookup_key (k : str) (d : jdict) : option json :=
  match d with
  | [] => None
  | (k', v) :: d' => if str_eqb k' k then Some v else lookup_key k d'
  end.

(** [d.get(k, default)] and [d.get(k)] *)
Definition get_default (k : string) (default : json) (d : jdict) : json :=
  from_option id default (lookup_key (py k) d).

Definition get (k : string) (d : jdict) : json := get_default k JNull d.

(** [bool(v)] *)
Definition truthy (v : json) : bool :=
  match v with
  | JNull => false
  | JBool b => b
  | JInt n => negb (n =? 0)%Z
  | JFloat q => negb (Qeq_bool q 0)
  | JStr s => negb (str_eqb s [])
  | JList l => negb (bool_decide (length l = 0%nat))
  | JObj kv => negb (bool_decide (length kv = 0%nat))
  end.

(** [a or b] *)
Definition py_or (a b : json) : json := if truthy a then a else b.

(** [v == s] for a string literal [s] *)
Definition is_str (v : json) (s : string) : bool :=
  match v with
  | JStr t => str_eqb t (py s)
  | _ => false
  end.

(** The JSON objects of a list; the registry's lists hold objects. *)
Definition objects (v : json) : list jdict :=
  match v with
  | JList l => omap (fun x => match x with JObj d => Some d | _ => None end) l
  | _ => []
  end.

End Json.
Import Json.

(** What Python takes from [json] and [str]; [ast], [rapidfuzz] and the
    geometry test follow with the classifier. *)
Class Serialisers := {
  json_dumps : json -> str;    (* [json.dumps(v)] *)
  py_str : json -> str         (* [str(v)] of a value that is not a [str] *)
}.

(** ** The columns of the [entities] table *)

Inductive bo_field :=
| f_name | f_legal_form | f_ceased | f_kind | f_address | f_is_sanctioned
| f_natures_of_control | f_latlon | f_reg_status.

(** [proprietor{i}_BO{j}_{field}] is [BO i j field], and so on. *)
Inductive col :=
| property_title_number
| row_status                               (* the column [status] *)
| proprietor_name (i : nat)
| proprietor_address (i : nat)
| proprietor_number (i : nat)
| proprietor_BO_failure (i : nat)
| BO (i j : nat) (f : bo_field).

Module Col.

Definition field_code (f : bo_field) : nat :=
  match f with
  | f_name => 0 | f_legal_form => 1 | f_ceased => 2 | f_kind => 3
  | f_address => 4 | f_is_sanctioned => 5 | f_natures_of_control => 6
  | f_latlon => 7 | f_reg_status => 8
  end.

Definition field_of_code (n : nat) : bo_field :=
  match n with
  | 0 => f_name | 1 => f_legal_form | 2 => f_ceased | 3 => f_kind
  | 4 => f_address | 5 => f_is_sanctioned | 6 => f_natures_of_control
  | 7 => f_latlon | _ => f_reg_status
  end.

Definition encode_col (c : col) : nat * (nat * (nat * nat)) :=
  match c with
  | property_title_number => (0, (0, (0, 0)))
  | row_status => (1, (0, (0, 0)))
  | proprietor_name i => (2, (i, (0, 0)))
  | proprietor_address i => (3, (i, (0, 0)))
  | proprietor_number i => (4, (i, (0, 0)))
  | proprietor_BO_failure i => (5, (i, (0, 0)))
  | BO i j f => (6, (i, (j, field_code f)))
  end%nat.

Definition decode_col (x : nat * (nat * (nat * nat))) : col :=
  match x with
  | (0, _) => property_title_number
  | (1, _) => row_status
  | (2, (i, _)) => proprietor_name i
  | (3, (i, _)) => proprietor_address i
  | (4, (i, _)) => proprietor_number i
  | (5, (i, _)) => proprietor_BO_failure i
  | (_, (i, (j, f))) => BO i j (field_of_code f)
  end%nat.

Definition field_text (f : bo_field) : string :=
  match f with
  | f_name => "name" | f_legal_form => "legal_form" | f_ceased => "ceased"
  | f_kind => "kind" | f_address => "address"
  | f_is_sanctioned => "is_sanctioned"
  | f_natures_of_control => "natures_of_control"
  | f_latlon => "latlon" | f_reg_status => "reg_status"
  end.

End Col.

#[global] Instance bo_field_eq_dec : EqDecision bo_field.
Proof. solve_decision. Defined.

#[global] Instance col_eq_dec : EqDecision col.
Proof. solve_decision. Defined.

#[global] Instance col_countable : Countable col.
Proof.
  apply (inj_countable' Col.encode_col Col.decode_col).
  intros [| | i | i | i | i | i j []]; reflexivity.
Defined.

(** ** [roe_2_find_BOs.py]: the registry client *)

Inductive request :=
| Search (q : str) (items_per_page start_index : Z)   (* [BASIC_SEARCH_URL] *)
| ProfileOf (company_number : json)                   (* [/company/{number}] *)
| ControllersOf (company_number : json).              (* [PSC_URL_TEMPLATE] *)

(** What [requests.get] does: raise, or answer with a status, the
    [Retry-After] header as a number when there is one, and a JSON
    object.  The header is read with [int] and slept on with
    [time.sleep]: the loops below are the code's for a header that is a
    delay [time.sleep] takes ([accepted_delay]); on any other the call
    raises, which ends the search and is one more failed try of the
    profile and controllers requests. *)
Inductive response :=
| NetworkError
| Http (status_code : Z) (retry_after : option Z) (body : list (str * json)).

(** What the run does to the outside: requests (each one takes a slot of
    the rate limiter) and sleeps, in seconds. *)
Inductive event :=
| Request (r : request)
| Sleep (seconds : Z).

(** [(title, company_number, address_snippet, company_status)] *)
Abbreviation details := (json * json * json * json)%type (only parsing).

Inductive find_status := OK | No_BO | No_company_found.

Definition status_text (s : find_status) : str :=
  match s with
  | OK => py "OK"
  | No_BO => py "No BO"
  | No_company_found => py "No company found"
  end.

(** [(status, bos, chosen_addr, num)] *)
Abbreviation bo_result :=
  (find_status * list (list (str * json)) * json * json)%type (only parsing).

(** The state of a run: the answers the registry will give, in order, to
    the requests still to come; what has been done so far; the two
    module-level caches. *)
Record world := {
  registry : list response;
  trace : list event;
  proprietor_cache : gmap (list N) (json * json * json * json);
  BO_cache : gmap (list N) (find_status * list (list (str * json)) * json * json)
}.

Definition requests_of (t : list event) : list request :=
  omap (fun e => match e with Request r => Some r | Sleep _ => None end) t.

Section Resolver.
Context `{Unicode} `{WordList}.

(** [normalise_text] on any value: text that is not a [str] gives ['']. *)
Definition normalise_value (v : json) : str :=
  match v with
  | JStr s => normalise_text s
  | _ => []
  end.

Definition _token_set (text : json) : gset (list N) :=
  list_to_set (split (normalise_value text)).

(** The ceased test. *)
Definition is_ceased_beneficial_owner (bo : jdict) : bool :=
  let value := get "ceased" bo in
  let value :=
    match value with
    | JNull => py_or (get "ceased_on" bo) (get "ceased_date" bo)
    | _ => value
    end in
  match value with
  | JNull => false
  | JBool b => b
  | JInt n => negb (n =? 0)%Z
  | JFloat q => negb (Qeq_bool q 0)
  | JStr s =>
      let v := lower (strip s) in
      negb (bool_decide
              (v ∈ [py ""; py "0"; py "false"; py "no"; py "none"; py "null"]))
  | _ => truthy value
  end.

Definition items_per_page : Z := 100.

Definition is_strong_oversea (item : jdict) (norm_query : str) : bool * str :=
  if negb (is_str (get "company_type" item) "oversea-company") then (false, py "")
  else
    let title := py_or (get_default "title" (JStr []) item) (JStr []) in
    let norm_title := normalise_value title in
    if str_eqb norm_title norm_query
    then (true, py "exact name + oversea-company")
    else if bool_decide (_token_set title = list_to_set (split norm_query))
            && negb (str_eqb norm_query [])
    then (true, py "token-set equal + oversea-company")
    else (false, py "").

Definition is_strong_roe (item : jdict) (norm_query : str) : bool * str :=
  if negb (is_str (get "company_type" item) "registered-overseas-entity")
  then (false, py "")
  else
    let title := py_or (get_default "title" (JStr []) item) (JStr []) in
    let norm_title := normalise_value title in
    if str_eqb norm_title norm_query
    then (true, py "exact name + ROE")
    else if bool_decide (_token_set title = list_to_set (split norm_query))
            && negb (str_eqb norm_query [])
    then (true, py "token-set equal + ROE")
    else (false, py "").

Definition details_of (it : jdict) : json * json * json * json :=
  (get "title" it, get "company_number" it, get "address_snippet" it,
   get "company_status" it).

Definition not_found : json * json * json * json := (JNull, JNull, JNull, JNull).

(** The local variables of the search loop. *)
Record search_state := {
  start_index : Z;
  strong_oversea : option (list (str * json));
  strong_oversea_reason : str;
  first_page_items : list (list (str * json))
}.

Definition initial_search : search_state :=
  {| start_index := 0; strong_oversea := None; strong_oversea_reason := py "";
     first_page_items := [] |}.

(** The second [for] over a page: remember the best oversea-company. *)
Definition track_oversea (norm_query : str)
    (acc : option jdict * str) (it : jdict) : option jdict * str :=
  let '(ok, reason) := is_strong_oversea it norm_query in
  if ok then
    let exact_bonus := contains reason (py "exact name") in
    let current_bonus := startswith (snd acc) (py "exact") in
    if bool_decide (fst acc = None) || (exact_bonus && negb current_bonus)
    then (Some it, reason)
    else acc
  else acc.

(** What holds of the oversea-company remembered so far: its reason
    begins with "exact", so that no later item takes its place, and it is
    not an empty object. *)
Definition settled (acc : option (list (str * json)) * str) : Prop :=
  match fst acc with
  | Some it => startswith (snd acc) (py "exact") = true /\ truthy (JObj it) = true
  | None => True
  end.

(** [data.get('items', []) or []] *)
Definition page_items (body : jdict) : list (list (str * json)) :=
  objects (py_or (get_default "items" (JList []) body) (JList [])).

(** How the [while True] of [get_company_details] ends. *)
Inductive search_exit :=
| Returned (result : json * json * json * json)
| Broke (ls : search_state).

(** One iteration per request; the loop is still turning when the
    answers run out. *)
Fixpoint search_loop (company_name norm_query : str) (ls : search_state)
    (answers : list response) (t : list event)
    : option (search_exit * list response * list event) :=
  match answers with
  | [] => None
  | r :: answers' =>
      let t := t ++ [Request (Search company_name items_per_page (start_index ls))] in
      match r with
      | NetworkError =>
          search_loop company_name norm_query ls answers' (t ++ [Sleep 10])
      | Http status retry body =>
          if (status =? 200)%Z then
            let page_items := page_items body in
            let first :=
              if (start_index ls =? 0)%Z then page_items else first_page_items ls in
            match List.find (fun it => fst (is_strong_roe it norm_query)) page_items with
            | Some it => Some (Returned (details_of it), answers', t)
            | None =>
                let best :=
                  fold_left (track_oversea norm_query) page_items
                            (strong_oversea ls, strong_oversea_reason ls) in
                let next idx :=
                  {| start_index := idx; strong_oversea := fst best;
                     strong_oversea_reason := snd best;
                     first_page_items := first |} in
                if (Z.of_nat (length page_items) <? items_per_page)%Z
                then Some (Broke (next (start_index ls)), answers', t)
                else search_loop company_name norm_query
                       (next (start_index ls + items_per_page)%Z) answers' t
            end
          else if (status =? 416)%Z then Some (Broke ls, answers', t)
          else if (status =? 404)%Z then Some (Returned not_found, answers', t)
          else if (status =? 502)%Z then
            search_loop company_name norm_query ls answers' (t ++ [Sleep 30])
          else if (status =? 429)%Z then
            search_loop company_name norm_query ls answers'
                        (t ++ [Sleep (default 10%Z retry)])
          else search_loop company_name norm_query ls answers' (t ++ [Sleep 10])
      end
  end.

(** The scan of the first page's snippets for a previous name. *)
Definition snippet_match (norm_query : str) (item : jdict) : bool :=
  match py_or (get_default "snippet" (JStr []) item) (JStr []) with
  | JStr snippet =>
      negb (str_eqb snippet [])
      && existsb (fun prev_name => str_eqb norm_query (normalise_text (strip prev_name)))
                 (split_on 183 snippet)
      && (is_str (get "company_type" item) "registered-overseas-entity"
          || is_str (get "company_type" item) "oversea-company")
  | _ => false
  end.

(** What follows the loop. *)
Definition after_search (norm_query : str) (ls : search_state)
    : json * json * json * json :=
  match strong_oversea ls with
  | Some it =>
      if truthy (JObj it) then details_of it
      else match List.find (snippet_match norm_query) (first_page_items ls) with
           | Some item => details_of item
           | None => not_found
           end
  | None =>
      match List.find (snippet_match norm_query) (first_page_items ls) with
      | Some item => details_of item
      | None => not_found
      end
  end.

Definition get_company_details (company_name : str) (w : world)
    : option ((json * json * json * json) * world) :=
  let norm_query := normalise_text company_name in
  match proprietor_cache w !! norm_query with
  | Some cached => Some (cached, w)
  | None =>
      match search_loop company_name norm_query initial_search (registry w) (trace w) with
      | None => None
      | Some (exit, answers, t) =>
          let result :=
            match exit with
            | Returned result => result
            | Broke ls => after_search norm_query ls
            end in
          Some (result,
                {| registry := answers; trace := t;
                   proprietor_cache := <[norm_query := result]> (proprietor_cache w);
                   BO_cache := BO_cache w |})
      end
  end.

(** The requests for [n] pages in a row, from [start]. *)
Fixpoint page_requests (company_name : str) (start : Z) (n : nat) : list request :=
  match n with
  | O => []
  | S n' =>
      Search company_name items_per_page start
      :: page_requests company_name (start + items_per_page)%Z n'
  end.

(** An answer that the search pages past: a full page without a strong
    match of the primary category. *)
Definition full_page_without_match (norm_query : str) (r : response) : Prop :=
  match r with
  | Http status _ body =>
      status = 200%Z
      /\ length (page_items body) = 100%nat
      /\ Forall (fun it => fst (is_strong_roe it norm_query) = false) (page_items body)
  | NetworkError => False
  end.

(** The requests of a search that goes on after each of [answers]: the
    next page after a 200, the same page again after anything else. *)
Fixpoint search_requests (company_name : str) (start : Z) (answers : list response)
    : list request :=
  match answers with
  | [] => []
  | r :: answers' =>
      Search company_name items_per_page start
      :: search_requests company_name
           (match r with
            | Http status _ _ =>
                if (status =? 200)%Z then start + items_per_page else start
            | NetworkError => start
            end)%Z answers'
  end.

End Resolver.

Section Controllers.
Context `{Unicode} `{WordList} `{Serialisers}.

(** The retry loop shared in shape by [get_company_profile] and
    [get_BO_list]: [None] is the answer for 404 and 403. *)
Fixpoint fetch_loop (req : request) (answers : list response) (t : list event)
    : option (option (list (str * json)) * list response * list event) :=
  match answers with
  | [] => None
  | r :: answers' =>
      let t := t ++ [Request req] in
      match r with
      | NetworkError => fetch_loop req answers' (t ++ [Sleep 10])
      | Http status retry body =>
          if (status =? 200)%Z then Some (Some body, answers', t)
          else if (status =? 404)%Z || (status =? 403)%Z then Some (None, answers', t)
          else if (status =? 502)%Z then fetch_loop req answers' (t ++ [Sleep 30])
          else if (status =? 429)%Z then
            fetch_loop req answers' (t ++ [Sleep (default 10%Z retry)])
          else fetch_loop req answers' (t ++ [Sleep 10])
      end
  end.

(** The delays [time.sleep] takes: it raises [ValueError] on a negative
    one and [OverflowError] on one too large for the clock; a day is
    within reach of every platform. *)
Definition accepted_delay (retry : option Z) : bool :=
  match retry with
  | Some seconds => (0 <=? seconds)%Z && (seconds <=? 86400)%Z
  | None => true
  end.

(** The answers [fetch_loop] tries again after, the answers the search
    loop tries again after, and the pause taken before the next try:
    30 s after 502, [Retry-After] (10 s without the header) after 429,
    10 s after an exception or any other status.  A 429 counts when its
    [Retry-After] is absent or a delay that [time.sleep] takes. *)
Definition fetch_retries (r : response) : bool :=
  match r with
  | NetworkError => true
  | Http status retry _ =>
      negb (bool_decide (status ∈ [200; 404; 403]%Z))
      && implb (status =? 429)%Z (accepted_delay retry)
  end.

Definition search_retries (r : response) : bool :=
  match r with
  | NetworkError => true
  | Http status retry _ =>
      negb (bool_decide (status ∈ [200; 416; 404]%Z))
      && implb (status =? 429)%Z (accepted_delay retry)
  end.

Definition pause_after (r : response) : Z :=
  match r with
  | NetworkError => 10
  | Http status retry _ =>
      if (status =? 502)%Z then 30
      else if (status =? 429)%Z then default 10%Z retry
      else 10
  end.

(** [get_company_profile]: the profile, or [None]. *)
Definition get_company_profile (company_number : json)
    (answers : list response) (t : list event)
    : option (option (list (str * json)) * list response * list event) :=
  fetch_loop (ProfileOf company_number) answers t.

(** [get_BO_list]: the body, or [{"items": []}]. *)
Definition get_BO_list (company_number : json)
    (answers : list response) (t : list event)
    : option (list (str * json) * list response * list event) :=
  match fetch_loop (ControllersOf company_number) answers t with
  | Some (Some body, answers', t') => Some (body, answers', t')
  | Some (None, answers', t') => Some ([(py "items", JList [])], answers', t')
  | None => None
  end.

Definition string_fields (keys : list string) (addr : jdict) : list str :=
  omap (fun k => match get k addr with JStr s => Some s | _ => None end) keys.

Definition format_address (addr : json) : option str :=
  match addr with
  | JObj addr =>
      let parts :=
        string_fields ["premises"; "address_line_1"; "address_line_2"; "locality";
                       "region"; "postal_code"; "country"]%string addr in
      let joined := join (py ", ") (List.filter (fun p => negb (str_eqb p [])) parts) in
      if str_eqb joined [] then None else Some joined
  | _ => None
  end.

Definition or_else (a : option str) (b : json) : json :=
  match a with
  | Some s => JStr s
  | None => b
  end.

Definition pick_company_address (profile : option jdict) (company_type : json)
    (snippet : json) : json :=
  match profile with
  | None => snippet
  | Some p =>
      if negb (truthy (JObj p)) then snippet
      else if is_str company_type "registered-overseas-entity"
              || is_str (get "type" p) "registered-overseas-entity"
      then or_else (format_address (get "principal_office_address" p))
             (or_else (format_address (get "registered_office_address" p)) snippet)
      else or_else (format_address (get "registered_office_address" p)) snippet
  end.

Definition find_BOs_for_company (raw_company_name : str) (w : world)
    : option ((find_status * list (list (str * json)) * json * json) * world) :=
  let norm_key := normalise_text raw_company_name in
  match BO_cache w !! norm_key with
  | Some cached => Some (cached, w)
  | None =>
      match get_company_details raw_company_name w with
      | None => None
      | Some ((_, num, snippet, _), w1) =>
          let finish result answers t :=
            Some (result,
                  {| registry := answers; trace := t;
                     proprietor_cache := proprietor_cache w1;
                     BO_cache := <[norm_key := result]> (BO_cache w1) |}) in
          if negb (truthy num)
          then finish (No_company_found, [], JNull, JNull) (registry w1) (trace w1)
          else
            match get_company_profile num (registry w1) (trace w1) with
            | None => None
            | Some (profile, answers2, t2) =>
                let company_type :=
                  py_or (match profile with
                         | Some p => if truthy (JObj p) then get "type" p else JStr []
                         | None => JStr []
                         end) (JStr []) in
                let chosen_addr := pick_company_address profile company_type snippet in
                match get_BO_list num answers2 t2 with
                | None => None
                | Some (bo_json, answers3, t3) =>
                    let items := objects (py_or (get "items" bo_json) (JList [])) in
                    match items with
                    | _ :: _ => finish (OK, items, chosen_addr, num) answers3 t3
                    | [] => finish (No_BO, [], chosen_addr, num) answers3 t3
                    end
                end
            end
      end
  end.

(** What the three kinds of answer of [find_BOs_for_company] carry:
    controllers exactly with "OK", a company number unless no company was
    found, and then nothing at all. *)
Definition well_formed_result
    (r : find_status * list (list (str * json)) * json * json) : Prop :=
  let '(status, bos, chosen_addr, num) := r in
  match status with
  | OK => bos <> [] /\ truthy num = true
  | No_BO => bos = [] /\ truthy num = true
  | No_company_found => bos = [] /\ chosen_addr = JNull /\ num = JNull
  end.

(** ** [process_all_records]: what one row of the table gets *)

Definition str_of (v : json) : str :=
  match v with
  | JStr s => s
  | _ => py_str v
  end.

Definition slots : list nat := [1; 2; 3; 4]%nat.

(** The seven columns of one BO slot, as the loop assigns them. *)
Definition stored_fields : list bo_field :=
  [f_name; f_legal_form; f_ceased; f_kind; f_address; f_is_sanctioned;
   f_natures_of_control].

Definition clear_slot (i j : nat) (update : gmap col json) : gmap col json :=
  fold_left (fun u f => <[BO i j f := JNull]> u) stored_fields update.

Definition clear_fields (i : nat) (update : gmap col json) : gmap col json :=
  let update := fold_left (fun u j => clear_slot i j u) slots update in
  let update := <[proprietor_BO_failure i := JNull]> update in
  <[proprietor_number i := JNull]> update.

(** [bo.get('address') or {}], then the parts that are text.  The
    registry gives an address as an object; on a non-empty value of
    another kind [addr.get] raises and the row is not written, which is
    here the row with no address. *)
Definition bo_address (bo : jdict) : json :=
  let addr := match py_or (get "address" bo) (JObj []) with
              | JObj d => d
              | _ => []
              end in
  let parts :=
    string_fields ["premises"; "address_line_1"; "address_line_2"; "address_line_3";
                   "locality"; "postal_code"; "country"]%string addr in
  match parts with
  | [] => JNull
  | _ => JStr (join (py ", ") parts)
  end.

(** The value each column of a slot gets from a controller. *)
Definition slot_value (bo : jdict) (f : bo_field) : json :=
  match f with
  | f_name => get "name" bo
  | f_legal_form =>
      let ident := get "identification" bo in
      if truthy ident then JStr (json_dumps ident) else JNull
  | f_ceased => get "ceased" bo
  | f_kind => get "kind" bo
  | f_address => bo_address bo
  | f_is_sanctioned => get "is_sanctioned" bo
  | f_natures_of_control =>
      JStr (str_of (get_default "natures_of_control" (JStr []) bo))
  | _ => JNull
  end.

Definition store_bo (i : nat) (update : gmap col json) (jbo : nat * jdict)
    : gmap col json :=
  fold_left (fun u f => <[BO i (fst jbo) f := slot_value (snd jbo) f]> u)
            stored_fields update.

(** [active_bos], then [enumerate(active_bos[:4], start=1)]. *)
Definition active_bos (bos : list jdict) : list jdict :=
  List.filter (fun bo => negb (is_ceased_beneficial_owner bo)) bos.

Definition enumerate_from_1 (l : list jdict) : list (nat * jdict) :=
  zip (seq 1 (length l)) l.

(** What the loop body does with the answer of [find_BOs_for_company]. *)
Definition record_result (i : nat)
    (result : find_status * list (list (str * json)) * json * json)
    (update : gmap col json) : gmap col json :=
  let '(status, bos, reg_address, comp_number) := result in
  let update :=
    if truthy reg_address then <[proprietor_address i := reg_address]> update
    else update in
  let update :=
    if truthy comp_number
    then <[proprietor_number i := JStr (str_of comp_number)]> update
    else update in
  match status with
  | OK => fold_left (store_bo i) (enumerate_from_1 (take 4 (active_bos bos))) update
  | _ => <[proprietor_BO_failure i := JStr (status_text status)]> update
  end.

(** The body of [for i in range(1, 5)]. *)
Definition process_proprietor (record : col -> option str) (i : nat)
    (st : gmap col json * world) : option (gmap col json * world) :=
  let '(update, w) := st in
  let update := clear_fields i update in
  match record (proprietor_name i) with
  | Some prop =>
      if negb (str_eqb prop []) && negb (str_eqb (strip prop) []) then
        match find_BOs_for_company prop w with
        | None => None
        | Some (result, w') => Some (record_result i result update, w')
        end
      else Some (update, w)
  | None => Some (update, w)
  end.

Fixpoint for_proprietors (record : col -> option str) (idx : list nat)
    (st : gmap col json * world) : option (gmap col json * world) :=
  match idx with
  | [] => Some st
  | i :: idx' =>
      match process_proprietor record i st with
      | None => None
      | Some st' => for_proprietors record idx' st'
      end
  end.

(** The [update] written for one row, and the state of the run after. *)
Definition process_row (record : col -> option str) (w : world)
    : option (gmap col json * world) :=
  match for_proprietors record slots (∅, w) with
  | None => None
  | Some (update, w') => Some (<[row_status := JStr (py "BOs added")]> update, w')
  end.

(** The columns the [UPDATE] of a row names: the seven fields of every
    slot, the failure, the number and (when an address was found) the
    address of every proprietor, and the status of the row. *)
Definition assigned_column (k : col) : bool :=
  match k with
  | row_status => true
  | BO i j f =>
      bool_decide (i ∈ slots) && bool_decide (j ∈ slots)
      && bool_decide (f ∈ stored_fields)
  | proprietor_BO_failure i | proprietor_number i | proprietor_address i =>
      bool_decide (i ∈ slots)
  | _ => false
  end.

(** ** A run

      What a run does to its state is a sequence of these operations. *)
Inductive operation :=
| Resolve (company_name : str)                 (* [get_company_details] *)
| FindBOs (raw_company_name : str)             (* [find_BOs_for_company] *)
| ProcessRow (record : col -> option (list N)). (* one row of the main loop *)

Definition run_operation (o : operation) (w : world) : option world :=
  match o with
  | Resolve name => snd <$> get_company_details name w
  | FindBOs name => snd <$> find_BOs_for_company name w
  | ProcessRow record => snd <$> process_row record w
  end.

Fixpoint run (ops : list operation) (w : world) : option world :=
  match ops with
  | [] => Some w
  | o :: ops' =>
      match run_operation o w with
      | None => None
      | Some w' => run ops' w'
      end
  end.

End Controllers.

(** ** [roe_5_categorise_BOs.py]: the classification of a row *)

(** What [ast.literal_eval] does with a string. *)
Inductive literal :=
| Parsed (v : json)
| BadLiteral       (* it raises [ValueError] or [SyntaxError] *)
| OtherFailure.    (* it raises something else *)

Class Parsers := {
  json_loads : str -> option json;    (* [None]: [JSONDecodeError] *)
  literal_eval : str -> literal
}.

(** [rapidfuzz]: [fuzz.ratio(a, b)], and whether
    [process.extractOne(q, choices, scorer=fuzz.ratio, score_cutoff=c)]
    finds a choice. *)
Class Fuzzy := {
  fuzz_ratio : str -> str -> Q;
  extract_one : str -> list str -> Q -> bool
}.

(** [float(s)] and the containment test of [is_within_uk]. *)
Class Geometry := {
  coordinate : Type;
  py_float : str -> option coordinate;
  is_within_uk : coordinate -> coordinate -> bool
}.

(** The reference lists that [init_reference_data] loads. *)
Class ReferenceData := {
  all_listed_companies : list str;
  normalised_government_companies : list str;
  manual_exclusions : list str
}.

(** The loaders of the reference lists; a file is its lines, or [None]
    when it is not found. *)
Section ReferenceLists.
Context `{Unicode} `{WordList}.

Definition load_and_normalise_text_file (file : option (list str)) : list str :=
  match file with
  | Some lines =>
      map normalise_text
          (List.filter (fun line => negb (str_eqb (strip line) [])) lines)
  | None => []
  end.

Definition load_listing_names (file : option (list str)) (delimiter : N)
    (company_name_col : nat) (skip_header : bool) : list str :=
  match file with
  | Some lines =>
      omap (fun line =>
              let parts := split_on delimiter (strip line) in
              if (company_name_col <? length parts)%nat
              then normalise_text <$> parts !! company_name_col
              else None)
           (if skip_header then drop 1 lines else lines)
  | None => []
  end.

End ReferenceLists.

Inductive reg_status :=
| individual | super_secure | UK | listed | government_owned
| manually_checked | trustee | suspect.

#[global] Instance reg_status_eq_dec : EqDecision reg_status.
Proof. solve_decision. Defined.

Definition reg_status_text (s : reg_status) : str :=
  match s with
  | individual => py "individual"
  | super_secure => py "super-secure"
  | UK => py "UK"
  | listed => py "listed"
  | government_owned => py "government-owned"
  | manually_checked => py "manually checked"
  | trustee => py "trustee"
  | suspect => py "suspect"
  end.

(** The exceptions that leave [process_bo_status].  The first is the
    [RuntimeError] whose message names the title, the proprietor, the BO
    and the raw value. *)
Inductive exn :=
| Invalid_natures_of_control (title : option str) (i j : nat) (raw : str)
| AttributeError
| TypeError
| OtherError.

Inductive result (A : Type) :=
| Done (a : A)
| Raise (e : exn).
Arguments Done {A} a.
Arguments Raise {A} e.

Definition bind {A B} (r : result A) (k : A -> result B) : result B :=
  match r with
  | Done a => k a
  | Raise e => Raise e
  end.

Notation "x <- r ;; k" := (bind r (fun x => k))
  (at level 100, r at next level, right associativity).

Definition raised {A} (r : result A) : Prop :=
  match r with
  | Done _ => False
  | Raise _ => True
  end.

Section Classification.
Context `{Unicode} `{WordList} `{Parsers} `{Fuzzy} `{Geometry} `{ReferenceData}.

Definition controls_as_trust_string : str := py "-as-trust-".

Definition excluded_terms : list str :=
  [py "jersey"; py "isle of man"; py "guernsey"; py "netherlands"].

Definition uk_terms : list str :=
  map py
    ["uk"; "england"; "english"; "scotland"; "wales"; "northern ireland";
     "united kingdom"; "england and wales"; "england & wales";
     "united kingdom (england and wales)"; "uk and wales";
     "united kingdom england"; "u.k"; "england, uk";
     "scotland united kingdom"; "gbeng"; "gbsct"; "great britain";
     "united kingdom (scotland)"; "london"; "gbr"; "cardiff"; "e&w";
     "england, united kingdom"; "britain"; "uk/england"; "cardiff, wales";
     "uk/scotland"; "gb"; "companies house"; "n. ireland"; "edinburgh";
     "uk, yorkshire"; "companies house - registrar of companies";
     "northern ireland, united kingdom"; "london, england"; "belfast"; "eng";
     "u k"; "england and wales, england"; "west yorkshire"; "english law"
    ]%string.

Definition is_uk_a_fuzzy_match (country : str) : bool :=
  let normalised := strip (replace (py "registered in") (py "") (lower country)) in
  existsb (fun term => Qle_bool 85 (fuzz_ratio normalised term)) uk_terms.

Definition is_listed_company (company_name : option str) : bool :=
  match company_name with
  | None | Some [] => false
  | Some name => extract_one (normalise_text name) all_listed_companies 95
  end.

Definition is_it_excluded (company_name : option str) : bool :=
  let normalised_name :=
    match company_name with
    | Some name => normalise_text name
    | None => []
    end in
  bool_decide (normalised_name ∈ manual_exclusions).

Definition is_government_owned (company_name : option str) : bool :=
  match company_name with
  | None | Some [] => false
  | Some name =>
      if contains (lower name) (py "government")
         || contains (lower name) (py "central bank")
         || contains (lower name) (py "investment authority")
      then true
      else extract_one (normalise_text name) normalised_government_companies 95
  end.

Definition corporate_kinds : list str :=
  [py "corporate-entity-person-with-significant-control";
   py "corporate-entity-beneficial-owner";
   py "legal-person-beneficial-owner"].

(** [any(bo_address.lower().strip().endswith(term) for term in excluded_terms)] *)
Definition address_excluded (address : option str) : bool :=
  let bo_address := default [] address in
  existsb (fun term => endswith (strip (lower bo_address)) term) excluded_terms.

(** [v and is_uk_a_fuzzy_match(v)] for a field of the legal form. *)
Definition field_is_uk (v : json) : result bool :=
  if negb (truthy v) then Done false
  else match v with
       | JStr s => Done (is_uk_a_fuzzy_match s)
       | _ => Raise AttributeError
       end.

(** Step 1: the legal registration information. *)
Definition legal_form_in_uk (legal_form_str : option str) : result bool :=
  match legal_form_str with
  | None | Some [] => Done false
  | Some s =>
      match json_loads s with
      | None => Done false
      | Some (JObj legal_form) =>
          a <- field_is_uk (get_default "legal_authority" (JStr []) legal_form) ;;
          if a then Done true else
          c <- field_is_uk (get_default "country_registered" (JStr []) legal_form) ;;
          if c then Done true else
          field_is_uk (get_default "place_registered" (JStr []) legal_form)
      | Some _ => Raise AttributeError
      end
  end.

(** Step 2: the coordinates. *)
Definition latlon_in_uk (latlon_str : option str) : bool :=
  match latlon_str with
  | None | Some [] => false
  | Some s =>
      match split_on (chr ",") (strip_chars (py "()") (strip s)) with
      | [a; b] =>
          match py_float a, py_float b with
          | Some lat, Some lon => is_within_uk lat lon
          | _, _ => false
          end
      | _ => false
      end
  end.

(** The UK checks, both skipped for an excluded address. *)
Definition uk_checks (address legal_form_str latlon_str : option str) : result bool :=
  if address_excluded address then Done false
  else
    in_uk <- legal_form_in_uk legal_form_str ;;
    if in_uk then Done true else Done (latlon_in_uk latlon_str).

(** [for item in v] *)
Definition iterate (v : json) : result (list json) :=
  match v with
  | JList l => Done l
  | JStr s => Done (map (fun c => JStr [c]) s)
  | JObj kv => Done (map (fun p => JStr (fst p)) kv)
  | _ => Raise TypeError
  end.

(** [controls_as_trust_string in s] *)
Definition has_as_trust (s : json) : result bool :=
  match s with
  | JStr t => Done (contains t controls_as_trust_string)
  | JList l =>
      Done (existsb (fun e => match e with
                              | JStr t => str_eqb t controls_as_trust_string
                              | _ => false
                              end) l)
  | JObj kv => Done (existsb (fun p => str_eqb (fst p) controls_as_trust_string) kv)
  | _ => Raise TypeError
  end.

Fixpoint any_as_trust (l : list json) : result bool :=
  match l with
  | [] => Done false
  | s :: l' =>
      b <- has_as_trust s ;;
      if b then Done true else any_as_trust l'
  end.

Definition is_none (v : json) : bool :=
  match v with
  | JNull => true
  | _ => false
  end.

(** The parse of the stored natures of control and the trustee test. *)
Definition trustee_control (title : option str) (i j : nat)
    (natures_of_control_string : option str) : result bool :=
  match natures_of_control_string with
  | None | Some [] => any_as_trust []
  | Some raw =>
      match literal_eval raw with
      | BadLiteral => Raise (Invalid_natures_of_control title i j raw)
      | OtherFailure => Raise OtherError
      | Parsed v =>
          items <- iterate v ;;
          any_as_trust (List.filter (fun item => negb (is_none item)) items)
      end
  end.

(** The counters [listed_exclusions], [government_exclusions],
    [manual_exclusions], [trustees]. *)
Record counters := {
  listed_exclusions : nat;
  government_exclusions : nat;
  manual_exclusion_count : nat;
  trustees : nat
}.

Definition no_counts : counters :=
  {| listed_exclusions := 0; government_exclusions := 0;
     manual_exclusion_count := 0; trustees := 0 |}.

Definition count (s : reg_status) (c : counters) : counters :=
  match s with
  | listed =>
      {| listed_exclusions := S (listed_exclusions c);
         government_exclusions := government_exclusions c;
         manual_exclusion_count := manual_exclusion_count c;
         trustees := trustees c |}
  | government_owned =>
      {| listed_exclusions := listed_exclusions c;
         government_exclusions := S (government_exclusions c);
         manual_exclusion_count := manual_exclusion_count c;
         trustees := trustees c |}
  | manually_checked =>
      {| listed_exclusions := listed_exclusions c;
         government_exclusions := government_exclusions c;
         manual_exclusion_count := S (manual_exclusion_count c);
         trustees := trustees c |}
  | trustee =>
      {| listed_exclusions := listed_exclusions c;
         government_exclusions := government_exclusions c;
         manual_exclusion_count := manual_exclusion_count c;
         trustees := S (trustees c) |}
  | _ => c
  end.

(** The counters after one more BO: [None] is a slot passed over. *)
Definition tally (c : counters) (o : option reg_status) : counters :=
  match o with
  | Some s => count s c
  | None => c
  end.

(** The branch for the corporate and legal-person kinds. *)
Definition classify_corporate (row : col -> option str) (i j : nat)
    : result reg_status :=
  in_uk <- uk_checks (row (BO i j f_address)) (row (BO i j f_legal_form))
                     (row (BO i j f_latlon)) ;;
  trustee_control <- trustee_control (row property_title_number) i j
                       (row (BO i j f_natures_of_control)) ;;
  let bo_name := row (BO i j f_name) in
  Done (if in_uk then UK
        else if is_listed_company bo_name then listed
        else if is_government_owned bo_name then government_owned
        else if is_it_excluded bo_name then manually_checked
        else if trustee_control then trustee
        else suspect).

(** The status of the BO in slot [j] of proprietor [i]; [None] when the
    slot has no kind and is passed over. *)
Definition bo_status (row : col -> option str) (i j : nat)
    : result (option reg_status) :=
  match row (BO i j f_kind) with
  | None | Some [] => Done None
  | Some bo_kind =>
      let bo_kind := strip bo_kind in
      if str_eqb bo_kind (py "individual-beneficial-owner") then Done (Some individual)
      else if str_eqb bo_kind (py "super-secure-beneficial-owner")
      then Done (Some super_secure)
      else if bool_decide (bo_kind ∈ corporate_kinds)
      then s <- classify_corporate row i j ;; Done (Some s)
      else Done (Some suspect)
  end.

(** The re-examination of a proprietor recorded with "No BO". *)
Definition reexamine_no_bo (row : col -> option str) (i : nat)
    (update_dict : gmap col (option (list N))) : gmap col (option (list N)) :=
  if bool_decide (row (proprietor_BO_failure i) = Some (py "No BO")) then
    let prop_name := row (proprietor_name i) in
    if is_listed_company prop_name || is_government_owned prop_name
       || is_it_excluded prop_name
    then <[proprietor_BO_failure i := None]> update_dict
    else update_dict
  else update_dict.

(** The body of [for j in range(1, 5)]. *)
Definition bo_step (row : col -> option str) (i : nat)
    (acc : gmap col (option (list N)) * counters) (j : nat)
    : result (gmap col (option (list N)) * counters) :=
  s <- bo_status row i j ;;
  match s with
  | None => Done acc
  | Some status =>
      Done (<[BO i j f_reg_status := Some (reg_status_text status)]> (fst acc),
            count status (snd acc))
  end.

Fixpoint for_each {A} (step : A -> nat -> result A) (acc : A) (idx : list nat)
    : result A :=
  match idx with
  | [] => Done acc
  | i :: idx' => acc' <- step acc i ;; for_each step acc' idx'
  end.

(** The body of [for i in range(1, 5)]. *)
Definition proprietor_step (row : col -> option str)
    (acc : gmap col (option (list N)) * counters) (i : nat)
    : result (gmap col (option (list N)) * counters) :=
  for_each (bo_step row i) (reexamine_no_bo row i (fst acc), snd acc) slots.

Definition process_bo_status (row : col -> option str)
    : result (gmap col (option (list N)) * counters) :=
  for_each (proprietor_step row) (∅, no_counts) slots.

End Classification.

(** ** [roe_5_categorise_BOs.py]: workers and the single writer *)

Section Dispatcher.
Context `{Unicode} `{WordList} `{Parsers} `{Fuzzy} `{Geometry} `{ReferenceData}.

(** The columns that [_row_to_minimal_dict] copies, beside [rowid]. *)
Definition minimal_columns : list col :=
  property_title_number
  :: flat_map
       (fun i =>
          proprietor_BO_failure i :: proprietor_name i
          :: flat_map
               (fun j =>
                  map (BO i j)
                      [f_kind; f_address; f_legal_form; f_latlon;
                       f_natures_of_control; f_name])
               slots)
       slots.

Definition _row_to_minimal_dict (row : col -> option str) (c : col) : option str :=
  if bool_decide (c ∈ minimal_columns) then row c else None.

Definition add_counters (a b : counters) : counters :=
  {| listed_exclusions := listed_exclusions a + listed_exclusions b;
     government_exclusions := government_exclusions a + government_exclusions b;
     manual_exclusion_count := manual_exclusion_count a + manual_exclusion_count b;
     trustees := trustees a + trustees b |}.

(** The body of the loop of [worker_process_rows], which is also the
    body of the sequential loop of [main]: classify the row, add its
    counts, keep its update when it is not empty. *)
Definition classify_row
    (acc : list (Z * gmap col (option (list N))) * counters)
    (r : Z * (col -> option (list N)))
    : result (list (Z * gmap col (option (list N))) * counters) :=
  match process_bo_status (snd r) with
  | Done (update_dict, c) =>
      Done (if bool_decide (update_dict = ∅) then fst acc
            else fst acc ++ [(fst r, update_dict)],
            add_counters (snd acc) c)
  | Raise e => Raise e
  end.

Fixpoint classify_rows
    (acc : list (Z * gmap col (option (list N))) * counters)
    (rows : list (Z * (col -> option (list N))))
    : result (list (Z * gmap col (option (list N))) * counters) :=
  match rows with
  | [] => Done acc
  | r :: rows' =>
      match classify_row acc r with
      | Done acc' => classify_rows acc' rows'
      | Raise e => Raise e
      end
  end.

Definition worker_process_rows (rows : list (Z * (col -> option (list N))))
    : result (list (Z * gmap col (option (list N))) * counters) :=
  classify_rows ([], no_counts) rows.

(** [LIMIT n] on the query, when [limit] is set and not zero. *)
Definition limited {A} (limit : option nat) (rows : list A) : list A :=
  match limit with
  | None | Some O => rows
  | Some n => take n rows
  end.

(** The sequential path of [main]. *)
Definition main_sequential (limit : option nat)
    (rows : list (Z * (col -> option (list N))))
    : result (list (Z * gmap col (option (list N))) * counters) :=
  classify_rows ([], no_counts) (limited limit rows).

(** [_chunk_generator]: [batch] is the batch being filled. *)
Fixpoint chunk_rows {A} (chunk_size : nat) (batch : list A) (rows : list A)
    : list (list A) :=
  match rows with
  | [] =>
      match batch with
      | [] => []
      | _ => [batch]
      end
  | row :: rows' =>
      let batch := batch ++ [row] in
      if (chunk_size <=? length batch)%nat
      then batch :: chunk_rows chunk_size [] rows'
      else chunk_rows chunk_size batch rows'
  end.

Definition _chunk_generator (rows : list (Z * (col -> option (list N))))
    (chunk_size : nat) (limit : option nat)
    : list (list (Z * (col -> option (list N)))) :=
  chunk_rows chunk_size []
    (map (fun r => (fst r, _row_to_minimal_dict (snd r))) (limited limit rows)).

(** The state of the parent in the parallel path: the buffer, the count
    of applied updates, the totals, and the transactions committed so
    far, each the list of the updates it applied. *)
Record writer := {
  pending_updates : list (Z * gmap col (option (list N)));
  applied : nat;
  totals : counters;
  processed : nat;
  committed : list (list (Z * gmap col (option (list N))))
}.

Definition writer_start : writer :=
  {| pending_updates := []; applied := 0; totals := no_counts; processed := 0;
     committed := [] |}.

Definition flush_pending (s : writer) : writer :=
  match pending_updates s with
  | [] => s
  | _ =>
      {| pending_updates := [];
         applied := applied s + length (pending_updates s);
         totals := totals s; processed := processed s;
         committed := committed s ++ [pending_updates s] |}
  end.

(** The books of the writer are in order for the updates received and
    the counters added so far: what is committed and what is pending are
    those updates, the count of applied rows is the number committed, and
    no transaction is empty. *)
Definition accounted (s : writer)
    (updates : list (Z * gmap col (option (list N)))) (c : counters) : Prop :=
  concat (committed s) ++ pending_updates s = updates
  /\ applied s = length (concat (committed s))
  /\ totals s = c
  /\ Forall (fun tx => tx <> []) (committed s).

(** The body of the loop over the results of the workers. *)
Definition receive (use_wal : bool) (flush_batch : nat) (s : writer)
    (res : list (Z * gmap col (option (list N))) * counters) : writer :=
  let s1 :=
    {| pending_updates := pending_updates s ++ fst res;
       applied := applied s; totals := totals s; processed := processed s;
       committed := committed s |} in
  let s2 :=
    if use_wal && negb (flush_batch =? 0)%nat
       && (flush_batch <=? length (pending_updates s1))%nat
    then flush_pending s1 else s1 in
  {| pending_updates := pending_updates s2;
     applied := applied s2;
     totals := add_counters (totals s2) (snd res);
     processed := processed s2 + length (fst res);
     committed := committed s2 |}.

(** The loop over the results as they arrive, then the last flush; an
    exception of a worker leaves the loop, and the last flush is not
    reached. *)
Fixpoint drain (use_wal : bool) (flush_batch : nat) (s : writer)
    (results : list (result (list (Z * gmap col (option (list N))) * counters)))
    : writer * option exn :=
  match results with
  | [] => (flush_pending s, None)
  | Done res :: results' => drain use_wal flush_batch (receive use_wal flush_batch s res) results'
  | Raise e :: _ => (s, Some e)
  end.

Definition CHUNK_SIZE : nat := 500.
Definition FLUSH_BATCH : nat := 100 * 100.
Definition USE_WAL : bool := true.

(** The parallel path of [main], with the batches answered in the order
    in which they were sent. *)
Definition main_parallel (chunk_size flush_batch : nat) (limit : option nat)
    (rows : list (Z * (col -> option (list N)))) : writer * option exn :=
  drain USE_WAL flush_batch writer_start
        (map worker_process_rows (_chunk_generator rows chunk_size limit)).

End Dispatcher.

(** ** Writing to the database: the two retry loops *)

(** What the database answers to an attempt: success, or
    [sqlite3.OperationalError] with its message. *)
Inductive db_answer :=
| DbOk
| DbOperationalError (msg : list N).

Section DatabaseRetries.
Context `{Unicode}.

Definition MAX_DB_RETRIES : nat := 10.
Definition INITIAL_DB_RETRY_SLEEP : Q := 1 # 2.

(** Python's [min] on two numbers: the first unless the second is less. *)
Definition py_min (a b : Q) : Q := if Qle_bool a b then a else b.

(** How [commit_with_retry] ends, with the sleeps it took, in seconds. *)
Inductive commit_result :=
| Committed (slept : list Q)
| Reraised (msg : list N) (slept : list Q).

(** [answers k] is the answer to the attempt after [k] retries; [left] is
    [MAX_DB_RETRIES - attempt], so that [attempt < MAX_DB_RETRIES] reads
    [left] is not zero. *)
Fixpoint commit_loop (answers : nat -> db_answer) (attempt : nat) (delay : Q)
    (left : nat) (slept : list Q) : commit_result :=
  match answers attempt with
  | DbOk => Committed slept
  | DbOperationalError msg =>
      if contains (lower msg) (py "database is locked") then
        match left with
        | S left' =>
            commit_loop answers (S attempt) (py_min (delay * 2) 10) left'
                        (slept ++ [delay])
        | O => Reraised msg slept
        end
      else Reraised msg slept
  end.

(** The first [n] delays of the back-off that starts at [delay]. *)
Fixpoint backoff_from (delay : Q) (n : nat) : list Q :=
  match n with
  | O => []
  | S n' => delay :: backoff_from (py_min (delay * 2) 10) n'
  end.

Definition commit_with_retry (answers : nat -> db_answer) : commit_result :=
  commit_loop answers 0 INITIAL_DB_RETRY_SLEEP MAX_DB_RETRIES [].

(** [update_record_with_retry]: whether the update was executed, and the
    waits in seconds; [left] is [max_retries - retries]. *)
Fixpoint update_loop (answers : nat -> db_answer) (retries left : nat)
    (slept : list Z) : bool * list Z :=
  match left with
  | O => (false, slept)
  | S left' =>
      match answers retries with
      | DbOk => (true, slept)
      | DbOperationalError msg =>
          if contains (lower msg) (py "locked")
          then update_loop answers (S retries) left' (slept ++ [2 ^ Z.of_nat retries]%Z)
          else (false, slept)
      end
  end.

Definition update_record_with_retry (answers : nat -> db_answer) (max_retries : nat)
    : bool * list Z :=
  update_loop answers 0 max_retries [].

End DatabaseRetries.

(** ** Sample data, for running the definitions *)

Module Sample.

Definition words : WordList := [py "limited"; py "ltd"; py "# legal forms"; py "sa"].

Definition quoted (q : N) (s : str) : str := q :: s ++ [q].

(** [str] and [json.dumps] on the values the samples hold: text, lists
    of text and objects of text. *)
Definition sample_str (v : json) : str :=
  match v with
  | JNull => py "None"
  | JBool true => py "True"
  | JBool false => py "False"
  | JStr s => s
  | JList l =>
      py "[" ++ join (py ", ")
                  (map (fun x => match x with
                                 | JStr s => quoted 39 s
                                 | _ => py "None"
                                 end) l) ++ py "]"
  | _ => py "?"
  end.

Definition sample_dumps (v : json) : str :=
  match v with
  | JStr s => quoted 34 s
  | JObj kv =>
      py "{" ++ join (py ", ")
                  (map (fun p => quoted 34 (fst p) ++ py ": "
                                 ++ match snd p with
                                    | JStr s => quoted 34 s
                                    | _ => py "null"
                                    end) kv) ++ py "}"
  | _ => py "null"
  end.

Definition serialisers : Serialisers :=
  {| json_dumps := sample_dumps; py_str := sample_str |}.

Definition gable : str := py "Gable Enterprises Limited".

(** A search item. *)
Definition item (company_type title company_number : string) : list (str * json) :=
  [(py "company_type", JStr (py company_type));
   (py "title", JStr (py title));
   (py "company_number", JStr (py company_number));
   (py "address_snippet", JStr (py "1 High Street, Road Town, Tortola"));
   (py "company_status", JStr (py "registered"))].

(** An answer with status 200 and these items. *)
Definition page (items : list (list (str * json))) : response :=
  Http 200 None [(py "items", JList (map JObj items))].

Definition status_only (status_code : Z) : response := Http status_code None [].

(** A controller. *)
Definition controller (name kind : string) (more : list (str * json))
    : list (str * json) :=
  (py "name", JStr (py name)) :: (py "kind", JStr (py kind)) :: more.

Definition ceased_flag : list (str * json) := [(py "ceased", JBool true)].
Definition ceased_on (date : string) : list (str * json) :=
  [(py "ceased_on", JStr (py date))].

(** Seven controllers; the second and the fourth have ceased. *)
Definition controllers : list (list (str * json)) :=
  [controller "Ann Archer" "individual-beneficial-owner" [];
   controller "Old Nominees Ltd" "corporate-entity-beneficial-owner" ceased_flag;
   controller "Beta Holdings Ltd" "corporate-entity-beneficial-owner"
     [(py "ceased_on", JNull);
      (py "natures_of_control",
       JList [JStr (py "ownership-of-shares-more-than-25-percent-registered-overseas-entity")])];
   controller "Carl Cole" "individual-beneficial-owner" (ceased_on "2023-01-01");
   controller "Dora Dale" "individual-beneficial-owner" [(py "ceased", JBool false)];
   controller "Epsilon Trustees Ltd" "corporate-entity-beneficial-owner" [];
   controller "Fay Finch" "individual-beneficial-owner" []].

(** The answers to the three requests for one company: the search, the
    profile (not available) and the controllers. *)
Definition answers_for (bos : list (list (str * json))) : list response :=
  [page [item "registered-overseas-entity" "GABLE ENTERPRISES LTD" "OE000001"];
   status_only 404;
   page bos].

(** The start of a run. *)
Definition fresh (answers : list response) : world :=
  {| registry := answers; trace := []; proprietor_cache := ∅; BO_cache := ∅ |}.

(** The parsers on the texts the samples store: [json.loads] undoes
    [sample_dumps] and [ast.literal_eval] undoes [sample_str] on the
    values of the two tables; any other text does not parse. *)
Definition legal_forms : list json :=
  [JObj [(py "legal_authority", JStr (py "Companies Act 2006"));
         (py "country_registered", JStr (py "England and Wales"))];
   JObj [(py "legal_authority", JStr (py "BVI Business Companies Act"));
         (py "place_registered", JStr (py "Tortola"))]].

Definition natures : list json :=
  [JList [JStr (py "ownership-of-shares-more-than-25-percent-registered-overseas-entity")];
   JList [JStr (py "right-to-appoint-and-remove-directors-as-trust-registered-overseas-entity")]].

Definition parsers : Parsers :=
  {| json_loads := fun s =>
       List.find (fun v => str_eqb (sample_dumps v) s) legal_forms;
     literal_eval := fun s =>
       match List.find (fun v => str_eqb (sample_str v) s) natures with
       | Some v => Parsed v
       | None => BadLiteral
       end |}.

(** A scorer that knows equal strings only. *)
Definition fuzzy : Fuzzy :=
  {| fuzz_ratio := fun a b => if str_eqb a b then 100%Q else 0%Q;
     extract_one := fun q choices cutoff =>
       existsb (fun c => Qle_bool cutoff (if str_eqb q c then 100%Q else 0%Q)) choices |}.

(** No coordinate parses. *)
Definition geometry : Geometry :=
  {| coordinate := Z; py_float := fun _ => None; is_within_uk := fun _ _ => false |}.

Definition reference_data : ReferenceData :=
  {| all_listed_companies := [py "epsilontrustees"];
     normalised_government_companies := [];
     manual_exclusions := [] |}.

(** A row of the table with the BO in slot 1 of proprietor 1. *)
Definition bo_row (kind address : string) (legal_form natures_text : option (list N))
    (c : col) : option (list N) :=
  match c with
  | property_title_number => Some (py "NGL107005")
  | proprietor_name 1 => Some gable
  | BO 1 1 f_name => Some (py "Beta Holdings Ltd")
  | BO 1 1 f_kind => Some (py kind)
  | BO 1 1 f_address => Some (py address)
  | BO 1 1 f_legal_form => legal_form
  | BO 1 1 f_natures_of_control => natures_text
  | _ => None
  end.

(** A row with one proprietor. *)
Definition one_proprietor (name : str) (c : col) : option (list N) :=
  match c with
  | proprietor_name 1 => Some name
  | property_title_number => Some (py "NGL107005")
  | _ => None
  end.

End Sample.

(* ===================================================================== *)
(** * Part II: properties                                                  *)
(* ===================================================================== *)

(** ** Characters and text *)

Lemma az09_not_space c : is_az09 c = true -> isspace c = false.
Proof.
  unfold is_az09, isspace, is_lower_az, is_digit, in_range.
  rewrite !orb_true_iff, !andb_true_iff, !N.leb_le.
  intros Hc.
  repeat (apply orb_false_intro);
    rewrite ?andb_false_iff, ?N.leb_gt, ?N.eqb_neq; lia.
Qed.

Lemma az09_ascii c : is_az09 c = true -> is_ascii c = true.
Proof.
  unfold is_az09, is_ascii, is_lower_az, is_digit, in_range.
  rewrite !orb_true_iff, !andb_true_iff, !N.leb_le, N.ltb_lt. lia.
Qed.

Lemma az09_not_upper c : is_az09 c = true -> is_upper_AZ c = false.
Proof.
  unfold is_az09, is_upper_AZ, is_lower_az, is_digit, in_range.
  rewrite !orb_true_iff, !andb_true_iff, !N.leb_le, andb_false_iff, !N.leb_gt. lia.
Qed.

Lemma az09_not_dot c : is_az09 c = true -> (c =? chr ".")%N = false.
Proof.
  unfold is_az09, is_lower_az, is_digit, in_range.
  rewrite !orb_true_iff, !andb_true_iff, !N.leb_le, N.eqb_neq.
  change (chr ".") with 46%N. lia.
Qed.

Lemma az09_word `{Unicode} c : is_az09 c = true -> is_word c = true.
Proof.
  intros Hc. unfold is_word. rewrite (az09_ascii c Hc).
  unfold is_az09 in Hc. apply orb_true_iff in Hc as [-> | ->]; 
  rewrite ?orb_true_r; reflexivity.
Qed.

Lemma space_not_word `{Unicode} : is_word 32 = false.
Proof. reflexivity. Qed.

Lemma drop_while_none p s : Forall (fun c => p c = false) s -> drop_while p s = s.
Proof. destruct 1 as [|c s Hc _]; simpl; [done|]. by rewrite Hc. Qed.

Lemma strip_no_space s : Forall (fun c => isspace c = false) s -> strip s = s.
Proof.
  intros Hs. unfold strip, rstrip, lstrip.
  rewrite (drop_while_none _ s Hs), drop_while_none, rev_involutive; [done|].
  by apply Forall_rev.
Qed.

Lemma split_no_space s :
  Forall (fun c => isspace c = false) s ->
  split s = match s with [] => [] | _ => [s] end.
Proof.
  induction 1 as [|c s Hc Hs IH]; [done|].
  simpl. rewrite Hc. destruct s as [|d s']; [done|].
  inversion Hs as [|? ? Hd _]; subst. rewrite Hd, IH. done.
Qed.

(** ** The pattern fragment *)

Section RegexFacts.
Context `{Unicode}.

(** The continuation of a pattern that ends. *)
Lemma star_then_run p adv prev s :
  Forall (fun c => p c = false) (take 1 s) ->
  star_then p (re_match []) adv prev s = re_match [] adv prev s.
Proof.
  destruct s as [|c s]; [done|]. simpl. intros Hc.
  inversion Hc as [|? ? Hpc _]; subst. by rewrite Hpc.
Qed.

(** A greedy [C*] that ends the pattern takes the whole run. *)
Lemma star_then_end p prev s :
  star_then p (re_match []) false prev s
  = Some (length s - length (drop_while (fun c => p c) s)).
Proof.
  revert prev. induction s as [|c s IH]; intros prev; [done|].
  simpl. destruct (p c) eqn:Hpc.
  - rewrite IH. simpl.
    assert (length (drop_while (fun c => p c) s) <= length s).
    { clear. induction s as [|d s IH]; simpl; [lia|]. destruct (p d); simpl; lia. }
    f_equal. lia.
  - simpl. f_equal. lia.
Qed.

(** Dropping what is left of a replaced match. *)
Lemma re_sub_skip_all r repl prev s :
  re_sub_from r repl (Some (length s)) prev s = [].
Proof. revert prev. induction s as [|c s IH]; intros prev; simpl; [done|apply IH]. Qed.

(** [re.sub(r'C+', '', s)] deletes the characters of the class. *)
Lemma re_sub_plus_from p s :
  (forall prev, re_sub_from [Plus p] [] None prev s
                = List.filter (fun c => negb (p c)) s)
  /\ (forall prev k,
        k = (length s - length (drop_while (fun c => p c) s))%nat ->
        re_sub_from [Plus p] [] (Some k) prev s
        = List.filter (fun c => negb (p c)) s).
Proof.
  induction s as [|c s [IHn IHs]]; [done|].
  assert (Hnone : forall prev, re_sub_from [Plus p] [] None prev (c :: s)
                       = List.filter (fun c => negb (p c)) (c :: s)).
  { intros prev. simpl. destruct (p c) eqn:Hpc; simpl.
    - rewrite star_then_end. simpl. by apply IHs.
    - by rewrite IHn. }
  split; [exact Hnone|].
  intros prev k ->. simpl. destruct (p c) eqn:Hpc; simpl.
  - assert (Hle : length (drop_while (fun c => p c) s) <= length s).
    { clear. induction s as [|d s IH]; simpl; [lia|]. destruct (p d); simpl; lia. }
    destruct (length s - length (drop_while (fun c => p c) s))%nat eqn:Hk.
    + replace (S (length s) - length (drop_while (fun c0 => p c0) s))%nat with 1%nat by lia.
      rewrite <- Hk. by apply IHs.
    + replace (S (length s) - length (drop_while (fun c0 => p c0) s))%nat
        with (S (S n)) by lia.
      rewrite <- Hk. by apply IHs.
  - rewrite Nat.sub_diag.
    specialize (Hnone prev). simpl in Hnone. rewrite Hpc in Hnone. simpl in Hnone.
    exact Hnone.
Qed.

Lemma re_sub_plus p s :
  re_sub [Plus p] [] s = List.filter (fun c => negb (p c)) s.
Proof. apply re_sub_plus_from. Qed.

(** With an empty replacement nothing is added. *)
Lemma re_sub_from_Forall (P : N -> Prop) r skip prev s :
  Forall P s -> Forall P (re_sub_from r [] skip prev s).
Proof.
  intros Hs. revert skip prev.
  induction Hs as [|c s Hc Hs IH]; intros skip prev; simpl.
  - destruct skip; [constructor|]. destruct (re_match r false prev []); constructor.
  - assert (Hgo : Forall P
      match re_match r false prev (c :: s) with
      | Some 0%nat =>
          [] ++ match re_match r true prev (c :: s) with
                | Some (S k) => [] ++ re_sub_from r [] (Some k) (Some c) s
                | _ => c :: re_sub_from r [] None (Some c) s
                end
      | Some (S k) => [] ++ re_sub_from r [] (Some k) (Some c) s
      | None => c :: re_sub_from r [] None (Some c) s
      end).
    { destruct (re_match r false prev (c :: s)) as [[|k]|]; simpl; auto.
      destruct (re_match r true prev (c :: s)) as [[|k]|]; simpl; auto. }
    destruct skip as [[|k]|]; auto.
Qed.

End RegexFacts.

(** ** The normaliser: what its result looks like *)

Section NormaliserFacts.
Context `{Unicode} `{WordList}.

Lemma filter_Forall_true (f : N -> bool) (l : list N) :
  Forall (fun c => f c = true) (List.filter f l).
Proof.
  induction l as [|c l IH]; simpl; [constructor|].
  destruct (f c) eqn:Hc; [by constructor|done].
Qed.

Lemma filter_Forall_keep (P : N -> Prop) (f : N -> bool) (l : list N) :
  Forall P l -> Forall P (List.filter f l).
Proof.
  induction 1 as [|c l Hc Hl IH]; simpl; [constructor|].
  destruct (f c); [by constructor|done].
Qed.

Lemma filter_all_true (f : N -> bool) (l : list N) :
  Forall (fun c => f c = true) l -> List.filter f l = l.
Proof.
  induction 1 as [|c l Hc Hl IH]; simpl; [done|]. by rewrite Hc, IH.
Qed.

(** The last substitution deletes every blank. *)
Lemma normalise_text_no_space s :
  Forall (fun c => isspace c = false) (normalise_text s).
Proof.
  unfold normalise_text, WHITESPACE_PATTERN.
  rewrite re_sub_plus.
  set (t := List.filter _ _).
  assert (Ht : Forall (fun c => isspace c = false) t).
  { subst t. eapply Forall_impl; [apply filter_Forall_true|].
    intros c Hc. simpl in Hc. by apply negb_true_iff in Hc. }
  by rewrite strip_no_space.
Qed.

(** What remains is lower-case letters and digits. *)
Lemma normalise_text_az09 s :
  Forall (fun c => is_az09 c = true) (normalise_text s).
Proof.
  unfold normalise_text, WHITESPACE_PATTERN, PUNCTUATION.
  rewrite !re_sub_plus.
  set (t := List.filter (fun c => negb (isspace c)) _).
  assert (Ht : Forall (fun c => is_az09 c = true) t).
  { subst t.
    set (u := re_sub NORMALIZATION_PATTERN [] _).
    assert (Hu : Forall (fun c => is_az09 c || isspace c = true) u).
    { subst u. apply re_sub_from_Forall.
      eapply Forall_impl; [apply filter_Forall_true|].
      intros c Hc. simpl in Hc. by rewrite negb_involutive in Hc. }
    induction Hu as [|c u Hc Hu IH]; simpl; [constructor|].
    destruct (isspace c) eqn:Hsp; simpl; [done|].
    constructor; [|done]. by rewrite orb_false_r in Hc. }
  rewrite strip_no_space; [done|].
  eapply Forall_impl; [exact Ht|]. intros c. apply az09_not_space.
Qed.

Lemma split_normalised s :
  split (normalise_text s)
  = match normalise_text s with [] => [] | _ => [normalise_text s] end.
Proof. apply split_no_space, normalise_text_no_space. Qed.

Lemma normalise_value_no_space v :
  Forall (fun c => isspace c = false) (normalise_value v).
Proof. destruct v; simpl; try constructor. apply normalise_text_no_space. Qed.

Lemma token_set_value v :
  _token_set v
  = match normalise_value v with [] => ∅ | _ => {[ normalise_value v ]} end.
Proof.
  unfold _token_set. rewrite split_no_space by apply normalise_value_no_space.
  destruct (normalise_value v); simpl; [done|]. by rewrite union_empty_r_L.
Qed.

(** For a query that is not empty, the token-set test of the strong
    match is the exact test. *)
Lemma token_set_test_is_exact (title : json) (company_name : str) :
  normalise_text company_name <> [] ->
  bool_decide (_token_set title = list_to_set (split (normalise_text company_name)))
  = str_eqb (normalise_value title) (normalise_text company_name).
Proof.
  intros Hq. rewrite token_set_value, split_normalised.
  unfold str_eqb.
  destruct (normalise_text company_name) as [|c q] eqn:Eq; [done|].
  simpl. rewrite union_empty_r_L.
  destruct (normalise_value title) as [|d t] eqn:Et.
  - rewrite !bool_decide_eq_false_2; [done|done|].
    intros Hs. assert (Hin : (c :: q) ∈ (∅ : gset (list N))) by (rewrite Hs; set_solver).
    set_solver.
  - destruct (decide (d :: t = c :: q)) as [->|Hne].
    + by rewrite !bool_decide_eq_true_2.
    + rewrite !bool_decide_eq_false_2; [done|done|].
      intros Hs. apply Hne.
      assert (Hin : (d :: t) ∈ ({[ c :: q ]} : gset (list N))) by (rewrite <- Hs; set_solver).
      set_solver.
Qed.

End NormaliserFacts.

(** C10: the result of [normalise_text] has no blank in it, so a token
    set has at most one element, and for a normalised query that is not
    empty the token-set test of the strong match gives the answer of the
    exact-name test. *)
Theorem normalised_text_is_one_token `{Unicode} `{WordList}
    (text : str) (title : json) (company_name : str) :
  normalise_text company_name <> [] ->
  Forall (fun c => isspace c = false) (normalise_text text)
  /\ size (_token_set (JStr text)) <= 1
  /\ size (_token_set title) <= 1
  /\ (bool_decide (_token_set title = list_to_set (split (normalise_text company_name)))
      && negb (str_eqb (normalise_text company_name) []))
     = str_eqb (normalise_value title) (normalise_text company_name).
Proof.
  intros Hq.
  assert (Hsize : forall v, size (_token_set v) <= 1).
  { intros v. rewrite token_set_value. destruct (normalise_value v).
    - rewrite size_empty. lia.
    - rewrite size_singleton. lia. }
  split; [apply normalise_text_no_space|].
  split; [apply Hsize|]. split; [apply Hsize|].
  rewrite token_set_test_is_exact by done.
  unfold str_eqb at 2. rewrite bool_decide_eq_false_2 by done.
  apply andb_true_r.
Qed.

(** ** The normaliser on text that is already normalised *)

Section SecondPass.
Context `{Unicode}.

Lemma acronym_patterns :
  RE_SARL = acronym_re (chr "s") (py "arl")
  /\ RE_SPA = acronym_re (chr "s") (py "pa")
  /\ RE_BV = acronym_re (chr "b") (py "v")
  /\ RE_GMBH = acronym_re (chr "g") (py "mbh").
Proof. repeat split. Qed.

(** Inside a word no pattern that starts with [\b] matches. *)
Lemma re_sub_inside_word r repl pc w :
  Forall (fun c => is_word c = true) w ->
  is_word pc = true ->
  (forall prev, match re_match (WordB :: r) false prev [] with
                | Some _ => repl
                | None => []
                end = []) ->
  re_sub_from (WordB :: r) repl None (Some pc) w = w.
Proof.
  intros Hw. revert pc. induction Hw as [|c w Hc Hw IH]; intros pc Hpc Hend.
  - apply Hend.
  - cbn [re_sub_from re_match]. unfold at_boundary. simpl.
    rewrite Hpc, Hc. simpl. f_equal. by apply IH.
Qed.

Lemma re_match_star_stop p r adv prev c s :
  p c = false ->
  re_match (Star p :: r) adv prev (c :: s) = re_match r adv prev (c :: s).
Proof. intros Hp. simpl. by rewrite Hp. Qed.

Lemma re_match_opt_stop d r adv prev c s :
  (c =? d)%N = false ->
  re_match (Opt d :: r) adv prev (c :: s) = re_match r adv prev (c :: s).
Proof. intros Hd. simpl. by rewrite Hd. Qed.

Lemma acronym_tail_cons x l :
  acronym_tail (x :: l)
  = Star isspace :: Opt (chr ".") :: Star isspace :: Chr x :: acronym_tail l.
Proof. reflexivity. Qed.

Lemma acronym_tail_match l : forall w pc,
  Forall (fun c => is_az09 c = true) w ->
  is_word pc = true ->
  re_match (acronym_tail l) false (Some pc) w
  = if bool_decide (w = l) then Some (length l) else None.
Proof.
  induction l as [|x l IH]; intros w pc Hw Hpc.
  - simpl. unfold at_boundary. simpl. rewrite Hpc.
    destruct Hw as [|c w Hc _]; simpl; [done|].
    by rewrite (az09_word c Hc).
  - destruct Hw as [|c w Hc Hw]; [reflexivity|].
    rewrite acronym_tail_cons.
    rewrite re_match_star_stop by (by apply az09_not_space).
    rewrite re_match_opt_stop by (by apply az09_not_dot).
    rewrite re_match_star_stop by (by apply az09_not_space).
    cbn [re_match].
    destruct (c =? x)%N eqn:Hcx.
    + apply N.eqb_eq in Hcx as ->.
      rewrite (IH w x Hw (az09_word x Hc)).
      destruct (decide (w = l)) as [->|Hne].
      * by rewrite !bool_decide_eq_true_2.
      * rewrite !bool_decide_eq_false_2; [done|congruence|done].
    + apply N.eqb_neq in Hcx. rewrite bool_decide_eq_false_2; [done|congruence].
Qed.

(** On one word an acronym pattern matches the whole word or nothing. *)
Lemma re_sub_acronym x l repl w :
  Forall (fun c => is_az09 c = true) w ->
  re_sub (acronym_re x l) repl w = if bool_decide (w = x :: l) then repl else w.
Proof.
  intros Hw. unfold re_sub, acronym_re.
  destruct Hw as [|c w Hc Hw].
  - by rewrite bool_decide_eq_false_2.
  - cbn [re_sub_from re_match]. unfold at_boundary at 1. simpl from_option.
    rewrite (az09_word c Hc). simpl xorb. cbv iota.
    assert (Hin : re_sub_from (WordB :: Chr x :: acronym_tail l) repl None (Some c) w = w).
    { apply re_sub_inside_word; [|by apply az09_word|].
      - eapply Forall_impl; [exact Hw|]. intros d. apply az09_word.
      - intros prev. simpl. by destruct (at_boundary prev []). }
    destruct (c =? x)%N eqn:Hcx.
    + apply N.eqb_eq in Hcx as ->.
      rewrite (acronym_tail_match l w x Hw (az09_word x Hc)).
      destruct (decide (w = l)) as [->|Hne].
      * rewrite !bool_decide_eq_true_2 by done. simpl.
        by rewrite re_sub_skip_all, app_nil_r.
      * rewrite !bool_decide_eq_false_2; [|congruence|done]. simpl. by rewrite Hin.
    + apply N.eqb_neq in Hcx.
      rewrite bool_decide_eq_false_2 by congruence. by rewrite Hin.
Qed.

(** The four acronym substitutions put at most a blank before a word. *)
Lemma collapse_acronyms_word w :
  Forall (fun c => is_az09 c = true) w ->
  collapse_acronyms w = w \/ collapse_acronyms w = 32%N :: w.
Proof.
  intros Hw. unfold collapse_acronyms.
  destruct acronym_patterns as (-> & -> & -> & ->).
  rewrite (re_sub_acronym _ _ _ w Hw).
  case_bool_decide as H1; [subst w; right; vm_compute; reflexivity|].
  rewrite (re_sub_acronym _ _ _ w Hw).
  case_bool_decide as H2; [subst w; right; vm_compute; reflexivity|].
  rewrite (re_sub_acronym _ _ _ w Hw).
  case_bool_decide as H3; [subst w; right; vm_compute; reflexivity|].
  rewrite (re_sub_acronym _ _ _ w Hw).
  case_bool_decide as H4; [subst w; right; vm_compute; reflexivity|].
  by left.
Qed.

End SecondPass.

Section TokenPass.
Context `{Unicode}.

Lemma startswith_refl s : startswith s s = true.
Proof. induction s as [|c s IH]; simpl; [done|]. by rewrite N.eqb_refl. Qed.

Lemma startswith_split s t :
  startswith s t = true -> s = t ++ drop (length t) s.
Proof.
  revert s. induction t as [|a t IH]; intros [|b s]; simpl; try done.
  intros [Hab Hst]%andb_true_iff. apply N.eqb_eq in Hab as ->.
  f_equal. by apply IH.
Qed.

(** One alternative of the token pattern tried at the start of a word:
    with the word boundary that follows, it matches when it is empty or
    the whole word. *)
Lemma token_alternative adv prev t w :
  Forall (fun c => is_az09 c = true) w -> w <> [] ->
  from_option is_word false prev = false ->
  (if startswith w t
   then re_match [WordB] (adv && bool_decide (t = []))
          (from_option Some prev (last t)) (drop (length t) w)
   else None)
  = if bool_decide (t = []) then (if adv then None else Some 0%nat)
    else if bool_decide (t = w) then Some 0%nat else None.
Proof.
  intros Hw Hne Hprev. destruct t as [|a t].
  - destruct w as [|c w]; [done|]. inversion Hw as [|? ? Hc _]; subst.
    simpl. unfold at_boundary. simpl. rewrite Hprev, (az09_word c Hc). simpl.
    rewrite andb_true_r. by destruct adv.
  - rewrite (bool_decide_eq_false_2 (a :: t = [])) by done.
    destruct (startswith w (a :: t)) eqn:Hst.
    + pose proof (startswith_split _ _ Hst) as Hsplit.
      set (rest := drop (length (a :: t)) w) in *.
      destruct (last (a :: t)) as [z|] eqn:Hlast;
        [|by apply last_None in Hlast].
      assert (Hz : is_word z = true).
      { apply az09_word. apply last_Some in Hlast as [t' Ht'].
        rewrite Forall_forall in Hw. apply Hw. rewrite Hsplit, Ht'.
        set_solver. }
      simpl from_option. rewrite andb_false_r.
      cbn [re_match]. unfold at_boundary. simpl from_option. rewrite Hz.
      destruct rest as [|d rest'] eqn:Hrest.
      * simpl. rewrite app_nil_r in Hsplit. by rewrite bool_decide_eq_true_2.
      * assert (Hd : is_word d = true).
        { apply az09_word. rewrite Forall_forall in Hw. apply Hw.
          rewrite Hsplit. set_solver. }
        simpl. rewrite Hd. simpl.
        rewrite bool_decide_eq_false_2; [done|].
        intros Heq. rewrite <- Heq in Hsplit at 1.
        apply (f_equal length) in Hsplit. rewrite length_app in Hsplit.
        simpl in Hsplit. lia.
    + rewrite bool_decide_eq_false_2; [done|].
      intros <-. by rewrite startswith_refl in Hst.
Qed.

(** After an empty match the engine must advance: only the whole word
    will do. *)
Lemma token_match_advancing ts prev w :
  Forall (fun c => is_az09 c = true) w -> w <> [] ->
  from_option is_word false prev = false ->
  alt_then ts (re_match [WordB]) true prev w
  = if bool_decide (w ∈ ts) then Some (length w) else None.
Proof.
  intros Hw Hne Hprev. induction ts as [|t ts IH].
  - cbn [alt_then]. rewrite bool_decide_eq_false_2; [done|set_solver].
  - cbn [alt_then]. cbv zeta.
    rewrite (token_alternative true prev t w Hw Hne Hprev), IH.
    destruct (decide (t = [])) as [->|Ht].
    + rewrite (bool_decide_eq_true_2 ([] = [])) by done.
      destruct (decide (w ∈ ts)).
      * by rewrite !bool_decide_eq_true_2 by set_solver.
      * rewrite !bool_decide_eq_false_2; [done|set_solver|done].
    + rewrite (bool_decide_eq_false_2 (t = [])) by done.
      destruct (decide (t = w)) as [->|Htw].
      * rewrite (bool_decide_eq_true_2 (w = w)) by done.
        rewrite bool_decide_eq_true_2 by set_solver. f_equal. lia.
      * rewrite (bool_decide_eq_false_2 (t = w)) by done.
        destruct (decide (w ∈ ts)).
        -- by rewrite !bool_decide_eq_true_2 by set_solver.
        -- rewrite !bool_decide_eq_false_2; [done|set_solver|done].
Qed.

Lemma token_match_first ts prev w :
  Forall (fun c => is_az09 c = true) w -> w <> [] ->
  from_option is_word false prev = false ->
  (alt_then ts (re_match [WordB]) false prev w = None /\ w ∉ ts)
  \/ alt_then ts (re_match [WordB]) false prev w = Some 0%nat
  \/ (alt_then ts (re_match [WordB]) false prev w = Some (length w) /\ w ∈ ts).
Proof.
  intros Hw Hne Hprev. induction ts as [|t ts IH].
  - left. split; [done|set_solver].
  - cbn [alt_then]. cbv zeta.
    rewrite (token_alternative false prev t w Hw Hne Hprev).
    destruct (decide (t = [])) as [->|Ht].
    + rewrite (bool_decide_eq_true_2 ([] = [])) by done. by right; left.
    + rewrite (bool_decide_eq_false_2 (t = [])) by done.
      destruct (decide (t = w)) as [->|Htw].
      * rewrite (bool_decide_eq_true_2 (w = w)) by done.
        right; right. split; [f_equal; lia|set_solver].
      * rewrite (bool_decide_eq_false_2 (t = w)) by done.
        destruct IH as [[-> Hn]|[->|[-> Hin]]].
        -- left. split; [done|set_solver].
        -- by right; left.
        -- right; right. split; [done|set_solver].
Qed.

Lemma re_match_tokens ts adv prev s :
  re_match [WordB; AnyOf ts; WordB] adv prev s
  = if at_boundary prev s then alt_then ts (re_match [WordB]) adv prev s else None.
Proof. reflexivity. Qed.

Lemma re_sub_from_scan r repl prev c s :
  re_sub_from r repl None prev (c :: s)
  = match re_match r false prev (c :: s) with
    | Some (S k) => repl ++ re_sub_from r repl (Some k) (Some c) s
    | Some O =>
        repl ++
        match re_match r true prev (c :: s) with
        | Some (S k) => repl ++ re_sub_from r repl (Some k) (Some c) s
        | _ => c :: re_sub_from r repl None (Some c) s
        end
    | None => c :: re_sub_from r repl None (Some c) s
    end.
Proof. reflexivity. Qed.

(** The token substitution at the start of a word. *)
Lemma re_sub_tokens_word ts prev w :
  Forall (fun c => is_az09 c = true) w -> w <> [] ->
  from_option is_word false prev = false ->
  re_sub_from [WordB; AnyOf ts; WordB] [] None prev w
  = if bool_decide (w ∈ ts) then [] else w.
Proof.
  intros Hw Hne Hprev.
  pose proof (token_match_first ts prev w Hw Hne Hprev) as Hfirst.
  pose proof (token_match_advancing ts prev w Hw Hne Hprev) as Hadv.
  destruct w as [|c w]; [done|]. inversion Hw as [|? ? Hc Hw']; subst.
  assert (Hin : re_sub_from [WordB; AnyOf ts; WordB] [] None (Some c) w = w).
  { apply re_sub_inside_word; [|by apply az09_word|].
    - eapply Forall_impl; [exact Hw'|]. intros d. apply az09_word.
    - intros p. by destruct (re_match _ _ _ _). }
  assert (Hb : at_boundary prev (c :: w) = true).
  { unfold at_boundary. simpl. by rewrite Hprev, (az09_word c Hc). }
  rewrite re_sub_from_scan, !re_match_tokens, Hb, Hadv.
  destruct Hfirst as [[-> Hn]|[->|[-> Hi]]].
  - rewrite bool_decide_eq_false_2 by done. by rewrite Hin.
  - simpl. destruct (decide (c :: w ∈ ts)).
    + rewrite !bool_decide_eq_true_2 by done. apply re_sub_skip_all.
    + rewrite !bool_decide_eq_false_2 by done. by rewrite Hin.
  - rewrite bool_decide_eq_true_2 by done. simpl. apply re_sub_skip_all.
Qed.

(** The same after at most one blank. *)
Lemma re_sub_tokens ts w :
  Forall (fun c => is_az09 c = true) w ->
  re_sub [WordB; AnyOf ts; WordB] [] w
  = (if bool_decide (w ∈ ts) then [] else w)
  /\ re_sub [WordB; AnyOf ts; WordB] [] (32%N :: w)
     = 32%N :: (if bool_decide (w ∈ ts) then [] else w).
Proof.
  intros Hw. unfold re_sub.
  assert (Hsp : at_boundary None (32%N :: w) = false) by done.
  destruct (decide (w = [])) as [->|Hne].
  - split.
    + simpl. by destruct (bool_decide _).
    + rewrite re_sub_from_scan, !re_match_tokens, Hsp. simpl.
      by destruct (bool_decide _).
  - split.
    + by apply re_sub_tokens_word.
    + rewrite re_sub_from_scan, !re_match_tokens, Hsp. f_equal.
      by apply re_sub_tokens_word.
Qed.

End TokenPass.

Section Idempotence.
Context `{Unicode} `{WordList}.

Lemma forallb_ascii_az09 w :
  Forall (fun c => is_az09 c = true) w -> forallb is_ascii w = true.
Proof.
  induction 1 as [|c w Hc _ IH]; simpl; [done|].
  by rewrite (az09_ascii c Hc), IH.
Qed.

Lemma lower_az09 w : Forall (fun c => is_az09 c = true) w -> lower w = w.
Proof.
  intros Hw. unfold lower. rewrite (forallb_ascii_az09 w Hw).
  induction Hw as [|c w Hc _ IH]; simpl; [done|].
  unfold ascii_lower at 1. by rewrite (az09_not_upper c Hc), IH.
Qed.

Lemma fold_az09 w : Forall (fun c => is_az09 c = true) w -> _fold w = w.
Proof.
  intros Hw. unfold _fold, nfkd. rewrite (forallb_ascii_az09 w Hw).
  apply filter_all_true. eapply Forall_impl; [exact Hw|].
  intros c Hc. simpl. unfold combining. by rewrite (az09_ascii c Hc).
Qed.

Lemma keep_az09_or_space w :
  Forall (fun c => is_az09 c = true) w ->
  re_sub PUNCTUATION [] w = w /\ re_sub PUNCTUATION [] (32%N :: w) = 32%N :: w.
Proof.
  intros Hw. unfold PUNCTUATION. rewrite !re_sub_plus.
  assert (Hk : List.filter (fun c => negb (negb (is_az09 c || isspace c))) w = w).
  { apply filter_all_true. eapply Forall_impl; [exact Hw|].
    intros c Hc. simpl. by rewrite Hc. }
  split; [exact Hk|]. simpl. by rewrite Hk.
Qed.

Lemma delete_blanks_az09 w :
  Forall (fun c => is_az09 c = true) w ->
  strip (re_sub WHITESPACE_PATTERN [] w) = w
  /\ strip (re_sub WHITESPACE_PATTERN [] (32%N :: w)) = w.
Proof.
  intros Hw. unfold WHITESPACE_PATTERN. rewrite !re_sub_plus.
  assert (Hsp : Forall (fun c => isspace c = false) w).
  { eapply Forall_impl; [exact Hw|]. intros c. apply az09_not_space. }
  assert (Hk : List.filter (fun c => negb (isspace c)) w = w).
  { apply filter_all_true. eapply Forall_impl; [exact Hsp|].
    intros c Hc. simpl. by rewrite Hc. }
  simpl. rewrite Hk. split; by apply strip_no_space.
Qed.

(** The normaliser on a word of lower-case letters and digits: the
    word is dropped when it is one of the tokens and kept otherwise. *)
Lemma normalise_text_of_word w :
  Forall (fun c => is_az09 c = true) w ->
  normalise_text w = if bool_decide (w ∈ TOKENS_TO_REMOVE) then [] else w.
Proof.
  intros Hw.
  assert (Hres : Forall (fun c => is_az09 c = true)
                   (if bool_decide (w ∈ TOKENS_TO_REMOVE) then [] else w)).
  { by destruct (bool_decide _). }
  assert (Htok : forall ts, ts = match TOKENS_TO_REMOVE with
                                 | [] => [[]]
                                 | _ => TOKENS_TO_REMOVE
                                 end ->
            (if bool_decide (w ∈ ts) then [] else w)
            = if bool_decide (w ∈ TOKENS_TO_REMOVE) then [] else w).
  { intros ts ->. destruct TOKENS_TO_REMOVE as [|t ts'] eqn:Et; [|done].
    rewrite (bool_decide_eq_false_2 (w ∈ [])) by set_solver.
    destruct (decide (w = [])) as [->|Hne].
    - by destruct (bool_decide _).
    - rewrite bool_decide_eq_false_2; [done|set_solver]. }
  unfold normalise_text.
  rewrite (lower_az09 w Hw), (fold_az09 w Hw).
  unfold NORMALIZATION_PATTERN.
  destruct (collapse_acronyms_word w Hw) as [-> | ->].
  - rewrite (proj1 (keep_az09_or_space w Hw)).
    rewrite (proj1 (re_sub_tokens _ w Hw)), (Htok _ eq_refl).
    by rewrite (proj1 (delete_blanks_az09 _ Hres)).
  - rewrite (proj2 (keep_az09_or_space w Hw)).
    rewrite (proj2 (re_sub_tokens _ w Hw)), (Htok _ eq_refl).
    by rewrite (proj2 (delete_blanks_az09 _ Hres)).
Qed.

End Idempotence.

(** C6, as the code has it: a second pass of [normalise_text] keeps the
    result of the first, unless that result is itself one of the
    configured tokens, in which case the second pass returns the empty
    string. *)
Theorem normalise_text_twice `{Unicode} `{WordList} (s : str) :
  normalise_text (normalise_text s)
  = if bool_decide (normalise_text s ∈ TOKENS_TO_REMOVE) then []
    else normalise_text s.
Proof. apply normalise_text_of_word, normalise_text_az09. Qed.

(** C6, the claim as stated: with a word list that holds the token "sa",
    normalising "s a" gives "sa", and normalising that again gives the
    empty string. *)
Lemma normalise_text_not_idempotent :
  @normalise_text ascii_only [py "sa"]
    (@normalise_text ascii_only [py "sa"] (py "s a"))
  <> @normalise_text ascii_only [py "sa"] (py "s a").
Proof. vm_compute. discriminate. Qed.

(** ** Spellings of a legal suffix *)

Section Spellings.
Context `{Unicode} `{WordList}.

(** The word list sees the text only after folding, the acronyms and
    the punctuation. *)
Lemma normalise_text_ext a b :
  re_sub PUNCTUATION [] (collapse_acronyms (_fold (lower a)))
  = re_sub PUNCTUATION [] (collapse_acronyms (_fold (lower b))) ->
  normalise_text a = normalise_text b.
Proof. unfold normalise_text. by intros ->. Qed.

End Spellings.

Ltac same_before_tokens := apply normalise_text_ext; vm_compute; reflexivity.

Section Locality.
Context `{Unicode}.

(** The match of a pattern that stops before the blank is the same
    whatever follows the blank, and ends before it. *)
Lemma star_then_before (s1 s2 : list N) p (k : bool -> option N -> list N -> option nat) :
  (forall adv prev, star_then p k adv prev s1 = None /\ star_then p k adv prev s2 = None) ->
  (forall u adv prev,
     k adv prev (u ++ 32%N :: s1) = k adv prev (u ++ 32%N :: s2)
     /\ forall n, k adv prev (u ++ 32%N :: s1) = Some n -> n <= length u) ->
  forall u adv prev,
    star_then p k adv prev (u ++ 32%N :: s1) = star_then p k adv prev (u ++ 32%N :: s2)
    /\ forall n, star_then p k adv prev (u ++ 32%N :: s1) = Some n -> n <= length u.
Proof.
  intros Hdead Hk. induction u as [|x u IH]; intros adv prev.
  - cbn [app star_then]. destruct (Hk [] adv prev) as [Heq Hle]. cbn [app] in Heq, Hle.
    destruct (p 32%N); [|done].
    destruct (Hdead false (Some 32%N)) as [-> ->]. done.
  - cbn [app star_then]. destruct (Hk (x :: u) adv prev) as [Heq Hle].
    cbn [app] in Heq, Hle.
    destruct (p x); [|done].
    destruct (IH false (Some x)) as [<- Hle'].
    destruct (star_then p k false (Some x) (u ++ 32%N :: s1)) as [n|] eqn:E; [|done].
    split; [done|]. intros n' [= <-]. cbn [length]. specialize (Hle' n eq_refl). lia.
Qed.

Lemma re_match_before (s1 s2 : list N) (r : list re_atom) :
  stops_before s1 s2 r ->
  forall u adv prev,
    re_match r adv prev (u ++ 32%N :: s1) = re_match r adv prev (u ++ 32%N :: s2)
    /\ forall n, re_match r adv prev (u ++ 32%N :: s1) = Some n -> n <= length u.
Proof.
  induction r as [|a r IH]; intros Hr u adv prev.
  - cbn [re_match]. split; [done|]. destruct adv; [done|]. intros n [= <-]. lia.
  - destruct Hr as [Ha Hr]. specialize (IH Hr).
    destruct a as [c|p|p|c| |ts]; try done.
    + (* Chr *) destruct u as [|x u]; cbn [app re_match].
      * assert ((32 =? c)%N = false) as -> by (apply N.eqb_neq; congruence). done.
      * destruct (x =? c)%N; [|done].
        destruct (IH u false (Some x)) as [<- Hle].
        destruct (re_match r false (Some x) (u ++ 32%N :: s1)) as [n|]; [|done].
        split; [done|]. intros n' [= <-]. cbn [length]. specialize (Hle n eq_refl). lia.
    + (* Star *) cbn [re_match]. apply star_then_before; [exact Ha|exact IH].
    + (* Opt *) destruct u as [|x u]; cbn [app re_match].
      * assert ((32 =? c)%N = false) as -> by (apply N.eqb_neq; congruence).
        apply (IH [] adv prev).
      * destruct (x =? c)%N; [|apply (IH (x :: u) adv prev)].
        destruct (IH u false (Some x)) as [<- Hle].
        destruct (re_match r false (Some x) (u ++ 32%N :: s1)) as [n|].
        -- split; [done|]. intros n' [= <-]. cbn [length]. specialize (Hle n eq_refl). lia.
        -- apply (IH (x :: u) adv prev).
    + (* WordB *) cbn [re_match].
      assert (at_boundary prev (u ++ 32%N :: s1) = at_boundary prev (u ++ 32%N :: s2)) as <-.
      { unfold at_boundary. by destruct u. }
      destruct (at_boundary prev (u ++ 32%N :: s1)); [apply IH|done].
Qed.

Lemma re_sub_before (s1 s2 : list N) (r : list re_atom) (repl : list N) :
  stops_before s1 s2 r ->
  (forall adv prev s, re_match r adv prev (32%N :: s) = None) ->
  forall u skip prev,
    match skip with Some k => k <= length u | None => True end ->
    exists X,
      re_sub_from r repl skip prev (u ++ 32%N :: s1)
      = X ++ 32%N :: re_sub_from r repl None (Some 32%N) s1
      /\ re_sub_from r repl skip prev (u ++ 32%N :: s2)
         = X ++ 32%N :: re_sub_from r repl None (Some 32%N) s2.
Proof.
  intros Hr Hblank. induction u as [|c u IH]; intros skip prev Hskip.
  - exists []. cbn [app re_sub_from].
    destruct skip as [[|k]|]; [| cbn [length] in Hskip; lia |];
      by rewrite !Hblank.
  - cbn [app re_sub_from].
    destruct skip as [[|k]|].
    2:{ apply IH. cbn [length] in Hskip. lia. }
    all: destruct (re_match_before s1 s2 r Hr (c :: u) false prev) as [Heq Hle];
      cbn [app] in Heq, Hle; rewrite <- Heq;
      destruct (re_match_before s1 s2 r Hr (c :: u) true prev) as [Heq' Hle'];
      cbn [app] in Heq', Hle'; rewrite <- Heq';
      destruct (re_match r false prev (c :: u ++ 32%N :: s1)) as [[|k]|] eqn:E.
    all: try (specialize (Hle _ eq_refl); cbn [length] in Hle).
    all: try (destruct (IH (Some k) (Some c)) as (X & -> & ->); [lia|];
              exists (repl ++ X); by rewrite <- !app_assoc).
    all: try (destruct (IH None (Some c)) as (X & -> & ->); [done|];
              by exists (c :: X)).
    all: destruct (re_match r true prev (c :: u ++ 32%N :: s1)) as [[|k']|] eqn:E'.
    all: try (specialize (Hle' _ eq_refl); cbn [length] in Hle').
    all: try (destruct (IH (Some k') (Some c)) as (X & -> & ->); [lia|];
              exists (repl ++ repl ++ X); by rewrite <- !app_assoc).
    all: destruct (IH None (Some c)) as (X & -> & ->); [done|];
      exists (repl ++ c :: X); by rewrite <- !app_assoc.
Qed.

End Locality.

Section PrefixedSpellings.
Context `{Unicode} `{WordList}.

Lemma acronym_not_at_blank x (r : list re_atom) adv prev (s : list N) :
  x <> 32%N -> re_match (WordB :: Chr x :: r) adv prev (32%N :: s) = None.
Proof.
  intros Hx. cbn [re_match]. destruct (at_boundary _ _); [|done].
  assert ((32 =? x)%N = false) as -> by (apply N.eqb_neq; congruence). done.
Qed.

Lemma re_sub_stage (r : list re_atom) (repl s1 s2 : list N) :
  stops_before s1 s2 r ->
  (forall adv prev s, re_match r adv prev (32%N :: s) = None) ->
  forall u, exists X,
    re_sub r repl (u ++ 32%N :: s1)
    = X ++ 32%N :: re_sub_from r repl None (Some 32%N) s1
    /\ re_sub r repl (u ++ 32%N :: s2)
       = X ++ 32%N :: re_sub_from r repl None (Some 32%N) s2.
Proof. intros Hr Hblank u. by apply re_sub_before. Qed.

Lemma collapse_acronyms_before (s1 s2 : list N) :
  let a1 := re_sub_from RE_SARL (py " sarl") None (Some 32%N) in
  let a2 := re_sub_from RE_SPA (py " spa") None (Some 32%N) in
  let a3 := re_sub_from RE_BV (py " bv") None (Some 32%N) in
  let a4 := re_sub_from RE_GMBH (py " gmbh") None (Some 32%N) in
  stops_before s1 s2 RE_SARL ->
  stops_before (a1 s1) (a1 s2) RE_SPA ->
  stops_before (a2 (a1 s1)) (a2 (a1 s2)) RE_BV ->
  stops_before (a3 (a2 (a1 s1))) (a3 (a2 (a1 s2))) RE_GMBH ->
  forall u, exists X,
    collapse_acronyms (u ++ 32%N :: s1) = X ++ 32%N :: a4 (a3 (a2 (a1 s1)))
    /\ collapse_acronyms (u ++ 32%N :: s2) = X ++ 32%N :: a4 (a3 (a2 (a1 s2))).
Proof.
  intros a1 a2 a3 a4. subst a1 a2 a3 a4. cbv beta. intros H1 H2 H3 H4 u.
  unfold collapse_acronyms.
  destruct (re_sub_stage RE_SARL (py " sarl") s1 s2 H1) with (u := u) as (X1 & -> & ->).
  { intros. by apply acronym_not_at_blank. }
  destruct (re_sub_stage RE_SPA (py " spa") _ _ H2) with (u := X1) as (X2 & -> & ->).
  { intros. by apply acronym_not_at_blank. }
  destruct (re_sub_stage RE_BV (py " bv") _ _ H3) with (u := X2) as (X3 & -> & ->).
  { intros. by apply acronym_not_at_blank. }
  destruct (re_sub_stage RE_GMBH (py " gmbh") _ _ H4) with (u := X3) as (X4 & -> & ->).
  { intros. by apply acronym_not_at_blank. }
  by exists X4.
Qed.

Lemma is_ascii_lower c : is_ascii c = true -> is_ascii (ascii_lower c) = true.
Proof.
  unfold ascii_lower, is_upper_AZ, in_range, is_ascii. intros Hc.
  destruct ((65 <=? c)%N && (c <=? 90)%N) eqn:E; [|done].
  apply andb_true_iff in E as [_ E]. apply N.leb_le in E. apply N.ltb_lt. lia.
Qed.

Lemma lower_ascii (t : list N) :
  forallb is_ascii t = true ->
  lower t = map ascii_lower t /\ forallb is_ascii (lower t) = true.
Proof.
  intros Ht. unfold lower. rewrite Ht. split; [done|].
  induction t as [|c t IH]; [done|]. cbn [forallb map] in *.
  apply andb_true_iff in Ht as [Hc Ht]. by rewrite is_ascii_lower, IH.
Qed.

Lemma fold_ascii (t : list N) : forallb is_ascii t = true -> _fold t = t.
Proof.
  intros Ht. unfold _fold, nfkd. rewrite Ht.
  induction t as [|c t IH]; [done|]. cbn [forallb List.filter] in *.
  apply andb_true_iff in Ht as [Hc Ht]. unfold combining at 1. rewrite Hc.
  cbn [negb]. by rewrite IH.
Qed.

(** Two names that differ only in the case of what precedes the blank,
    and whose endings the acronym patterns cannot reach from the left,
    are the same text once the punctuation is removed. *)
Lemma normalise_text_prefixed (p1 p2 a b : list N) :
  let a1 := re_sub_from RE_SARL (py " sarl") None (Some 32%N) in
  let a2 := re_sub_from RE_SPA (py " spa") None (Some 32%N) in
  let a3 := re_sub_from RE_BV (py " bv") None (Some 32%N) in
  let a4 := re_sub_from RE_GMBH (py " gmbh") None (Some 32%N) in
  let keep := fun c => negb (negb (is_az09 c || isspace c)) in
  forallb is_ascii a = true -> forallb is_ascii b = true ->
  stops_before (lower a) (lower b) RE_SARL ->
  stops_before (a1 (lower a)) (a1 (lower b)) RE_SPA ->
  stops_before (a2 (a1 (lower a))) (a2 (a1 (lower b))) RE_BV ->
  stops_before (a3 (a2 (a1 (lower a)))) (a3 (a2 (a1 (lower b)))) RE_GMBH ->
  List.filter keep (a4 (a3 (a2 (a1 (lower a)))))
  = List.filter keep (a4 (a3 (a2 (a1 (lower b))))) ->
  forallb is_ascii p1 = true -> forallb is_ascii p2 = true ->
  lower p1 = lower p2 ->
  normalise_text (p1 ++ 32%N :: a) = normalise_text (p2 ++ 32%N :: b).
Proof.
  intros a1 a2 a3 a4 keep. subst a1 a2 a3 a4. cbv beta.
  intros Ha Hb H1 H2 H3 H4 Hkeep Hp1 Hp2 Hp.
  apply normalise_text_ext.
  assert (forall p x, forallb is_ascii p = true -> forallb is_ascii x = true ->
            _fold (lower (p ++ 32%N :: x)) = lower p ++ 32%N :: lower x) as Hlow.
  { intros p x Hpa Hxa.
    assert (forallb is_ascii (p ++ 32%N :: x) = true) as Hall.
    { rewrite forallb_app. cbn [forallb]. by rewrite Hpa, Hxa. }
    rewrite fold_ascii by by apply lower_ascii.
    rewrite (proj1 (lower_ascii _ Hall)), map_app. cbn [map].
    by rewrite (proj1 (lower_ascii _ Hpa)), (proj1 (lower_ascii _ Hxa)). }
  rewrite !Hlow by done. rewrite Hp.
  destruct (collapse_acronyms_before (lower a) (lower b) H1 H2 H3 H4 (lower p2))
    as (X & -> & ->).
  unfold PUNCTUATION. rewrite !re_sub_plus, !List.filter_app. cbn [List.filter].
  fold keep. by rewrite Hkeep.
Qed.

End PrefixedSpellings.

(** The two cases of the prefixed spellings: the locality conditions are
    computed on the two endings, the remaining ones are the hypotheses on
    the prefixes. *)
Ltac out_of_reach :=
  vm_compute; repeat split; try discriminate; intros; split; reflexivity.

Ltac same_after_prefix :=
  match goal with
  | |- normalise_text (_ ++ ?x) = normalise_text (_ ++ ?y) =>
      let x' := eval vm_compute in x in
      let y' := eval vm_compute in y in
      change x with x'; change y with y'
  end;
  apply normalise_text_prefixed;
  [reflexivity|reflexivity|out_of_reach|out_of_reach|out_of_reach|out_of_reach
  |vm_compute; reflexivity|assumption|assumption|assumption].

(** C7, as the code has it: whatever the word list, the spellings "S.A."
    and "s.a" are normalised as "SA" is, and the dotted and the spaced
    spellings of the four acronyms that the normaliser collapses (sarl,
    spa, bv, gmbh) as the plain one; this holds of the suffix alone and
    of the suffix after any ASCII text and a blank, the two texts
    differing at most in case. *)
Theorem suffix_spellings_agree `{Unicode} `{WordList} (p1 p2 : str) :
  forallb is_ascii p1 = true -> forallb is_ascii p2 = true ->
  lower p1 = lower p2 ->
  (normalise_text (py "S.A.") = normalise_text (py "SA")
   /\ normalise_text (py "s.a") = normalise_text (py "SA")
   /\ normalise_text (py "Gable Enterprises S.A.")
      = normalise_text (py "GABLE ENTERPRISES SA")
   /\ normalise_text (py "S.A.R.L.") = normalise_text (py "SARL")
   /\ normalise_text (py "s a r l") = normalise_text (py "SARL")
   /\ normalise_text (py "Gable S. a r.l") = normalise_text (py "gable sarl")
   /\ normalise_text (py "S.p.A.") = normalise_text (py "SPA")
   /\ normalise_text (py "s p a") = normalise_text (py "SPA")
   /\ normalise_text (py "B.V.") = normalise_text (py "BV")
   /\ normalise_text (py "b v") = normalise_text (py "BV")
   /\ normalise_text (py "G.m.b.H.") = normalise_text (py "GMBH")
   /\ normalise_text (py "g m b h") = normalise_text (py "GMBH"))
  /\ (normalise_text (p1 ++ py " S.A.") = normalise_text (p2 ++ py " SA")
      /\ normalise_text (p1 ++ py " s.a") = normalise_text (p2 ++ py " SA")
      /\ normalise_text (p1 ++ py " S.A.R.L.") = normalise_text (p2 ++ py " SARL")
      /\ normalise_text (p1 ++ py " s a r l") = normalise_text (p2 ++ py " SARL")
      /\ normalise_text (p1 ++ py " S. a r.l") = normalise_text (p2 ++ py " sarl")
      /\ normalise_text (p1 ++ py " S.p.A.") = normalise_text (p2 ++ py " SPA")
      /\ normalise_text (p1 ++ py " s p a") = normalise_text (p2 ++ py " SPA")
      /\ normalise_text (p1 ++ py " B.V.") = normalise_text (p2 ++ py " BV")
      /\ normalise_text (p1 ++ py " b v") = normalise_text (p2 ++ py " BV")
      /\ normalise_text (p1 ++ py " G.m.b.H.") = normalise_text (p2 ++ py " GMBH")
      /\ normalise_text (p1 ++ py " g m b h") = normalise_text (p2 ++ py " GMBH")).
Proof.
  intros Hp1 Hp2 Hp. split.
  - repeat (split; [same_before_tokens|]). same_before_tokens.
  - repeat (split; [same_after_prefix|]). same_after_prefix.
Qed.

(** The witness of [suffix_spellings_agree]: a name with punctuation of
    its own, in two cases, before two of the spellings. *)
Lemma suffix_spellings_witness :
  @normalise_text ascii_only Sample.words (py "Gable & Co. S.A.R.L.")
  = @normalise_text ascii_only Sample.words (py "GABLE & CO. SARL")
  /\ @normalise_text ascii_only Sample.words (py "GABLE & CO. SARL") = py "gablecosarl"
  /\ @normalise_text ascii_only Sample.words (py "Gable & Co. g m b h")
     = @normalise_text ascii_only Sample.words (py "GABLE & CO. GMBH").
Proof.
  destruct (@suffix_spellings_agree ascii_only Sample.words
              (py "Gable & Co.") (py "GABLE & CO.") eq_refl eq_refl eq_refl)
    as [_ (_ & _ & Hsarl & _ & _ & _ & _ & _ & _ & _ & Hgmbh)].
  split; [exact Hsarl|]. split; [vm_compute; reflexivity|exact Hgmbh].
Defined.

(** C7, the claim as stated: with the token "sa" in the word list, the
    spelling "SA" is removed and the spelling "s a" is kept as "sa". *)
Lemma spaced_suffix_differs :
  @normalise_text ascii_only [py "sa"] (py "SA") = py ""
  /\ @normalise_text ascii_only [py "sa"] (py "S.A.") = py ""
  /\ @normalise_text ascii_only [py "sa"] (py "s a") = py "sa"
  /\ @normalise_text ascii_only [py "sa"] (py "s a")
     <> @normalise_text ascii_only [py "sa"] (py "SA").
Proof. vm_compute. repeat split; discriminate. Qed.

(** Where the agreement ends: a dotted acronym that follows a letter and
    a dot is set apart from that letter by the blank its pattern puts
    in, and the plain spelling is not. *)
Lemma joined_acronym_differs :
  @normalise_text ascii_only [py "gmbh"] (py "e.G.m.b.H.") = py "e"
  /\ @normalise_text ascii_only [py "gmbh"] (py "eGmbH") = py "egmbh"
  /\ @normalise_text ascii_only [py "bv"] (py "A.B.V.") = py "a"
  /\ @normalise_text ascii_only [py "bv"] (py "ABV") = py "abv".
Proof. vm_compute. repeat split. Qed.

(** ** The registry client *)

Section ClientFacts.
Context `{Unicode} `{WordList} `{Serialisers}.

Lemma requests_of_app t1 t2 :
  requests_of (t1 ++ t2) = requests_of t1 ++ requests_of t2.
Proof.
  unfold requests_of. apply omap_app.
Qed.

(** Not found and forbidden end the two fetch loops at once. *)
Lemma fetch_loop_unavailable req status retry body rest t :
  status = 404%Z \/ status = 403%Z ->
  fetch_loop req (Http status retry body :: rest) t
  = Some (None, rest, t ++ [Request req]).
Proof. by intros [-> | ->]. Qed.

Lemma get_company_profile_unavailable num status retry body rest t :
  status = 404%Z \/ status = 403%Z ->
  get_company_profile num (Http status retry body :: rest) t
  = Some (None, rest, t ++ [Request (ProfileOf num)]).
Proof. apply fetch_loop_unavailable. Qed.

Lemma get_BO_list_unavailable num status retry body rest t :
  status = 404%Z \/ status = 403%Z ->
  get_BO_list num (Http status retry body :: rest) t
  = Some ([(py "items", JList [])], rest, t ++ [Request (ControllersOf num)]).
Proof.
  intros Hs. unfold get_BO_list. by rewrite fetch_loop_unavailable.
Qed.

(** Not found ends the search at once, with the negative result. *)
Lemma search_loop_not_found name q ls retry body rest t :
  search_loop name q ls (Http 404 retry body :: rest) t
  = Some (Returned not_found, rest,
          t ++ [Request (Search name items_per_page (start_index ls))]).
Proof. reflexivity. Qed.

(** Forbidden does not: the search sleeps and asks again. *)
Lemma search_loop_forbidden name q ls retry body rest t :
  search_loop name q ls (Http 403 retry body :: rest) t
  = search_loop name q ls rest
      ((t ++ [Request (Search name items_per_page (start_index ls))]) ++ [Sleep 10]).
Proof. reflexivity. Qed.

(** Any other status that the loops do not name is retried. *)
Lemma unexpected_status_retried req name q ls status retry body rest t :
  status ∉ [200; 403; 404; 416; 429; 502]%Z ->
  fetch_loop req (Http status retry body :: rest) t
  = fetch_loop req rest ((t ++ [Request req]) ++ [Sleep 10])
  /\ search_loop name q ls (Http status retry body :: rest) t
     = search_loop name q ls rest
         ((t ++ [Request (Search name items_per_page (start_index ls))]) ++ [Sleep 10]).
Proof.
  intros Hs.
  assert (H200 : (status =? 200)%Z = false) by (apply Z.eqb_neq; set_solver).
  assert (H403 : (status =? 403)%Z = false) by (apply Z.eqb_neq; set_solver).
  assert (H404 : (status =? 404)%Z = false) by (apply Z.eqb_neq; set_solver).
  assert (H416 : (status =? 416)%Z = false) by (apply Z.eqb_neq; set_solver).
  assert (H429 : (status =? 429)%Z = false) by (apply Z.eqb_neq; set_solver).
  assert (H502 : (status =? 502)%Z = false) by (apply Z.eqb_neq; set_solver).
  split; simpl; by rewrite H200, ?H403, ?H404, ?H416, ?H429, ?H502.
Qed.

(** *** The caches *)

Lemma get_company_details_stores name w r w' :
  get_company_details name w = Some (r, w') ->
  proprietor_cache w' !! normalise_text name = Some r.
Proof.
  unfold get_company_details.
  destruct (proprietor_cache w !! normalise_text name) as [cached|] eqn:Hc.
  - intros [= <- <-]. exact Hc.
  - destruct (search_loop _ _ _ _ _) as [[[ex answers] t]|]; [|done].
    intros [= <- <-]. simpl. apply lookup_insert_eq.
Qed.

Lemma get_company_details_cached name w r :
  proprietor_cache w !! normalise_text name = Some r ->
  get_company_details name w = Some (r, w).
Proof. intros Hc. unfold get_company_details. by rewrite Hc. Qed.

Lemma get_company_details_keeps name w r w' :
  get_company_details name w = Some (r, w') ->
  proprietor_cache w ⊆ proprietor_cache w' /\ BO_cache w' = BO_cache w.
Proof.
  unfold get_company_details.
  destruct (proprietor_cache w !! normalise_text name) as [cached|] eqn:Hc.
  - by intros [= <- <-].
  - destruct (search_loop _ _ _ _ _) as [[[ex answers] t]|]; [|done].
    intros [= <- <-]. simpl. split; [|done]. by apply insert_subseteq.
Qed.

Lemma find_BOs_for_company_keeps name w r w' :
  find_BOs_for_company name w = Some (r, w') ->
  proprietor_cache w ⊆ proprietor_cache w' /\ BO_cache w ⊆ BO_cache w'.
Proof.
  unfold find_BOs_for_company.
  destruct (BO_cache w !! normalise_text name) as [cached|] eqn:Hc.
  - by intros [= <- <-].
  - destruct (get_company_details name w) as [[[[[ti num] sn] st] w1]|] eqn:Hd; [|done].
    apply get_company_details_keeps in Hd as [Hp Hb].
    assert (Hins : BO_cache w ⊆ BO_cache w1) by (by rewrite Hb).
    assert (Hfresh : forall x, BO_cache w ⊆ <[normalise_text name := x]> (BO_cache w1)).
    { intros x. rewrite Hb. by apply insert_subseteq. }
    destruct (negb (truthy num)).
    + intros [= <- <-]. simpl. split; [done|apply Hfresh].
    + destruct (get_company_profile _ _ _) as [[[profile a2] t2]|]; [|done].
      destruct (get_BO_list _ _ _) as [[[bo_json a3] t3]|]; [|done].
      destruct (objects _); intros [= <- <-]; simpl; (split; [done|apply Hfresh]).
Qed.

Lemma process_proprietor_keeps record i u w u' w' :
  process_proprietor record i (u, w) = Some (u', w') ->
  proprietor_cache w ⊆ proprietor_cache w' /\ BO_cache w ⊆ BO_cache w'.
Proof.
  unfold process_proprietor.
  destruct (record (proprietor_name i)) as [prop|]; [|by intros [= <- <-]].
  destruct (_ && _); [|by intros [= <- <-]].
  destruct (find_BOs_for_company prop w) as [[r w1]|] eqn:Hf; [|done].
  intros [= <- <-]. by apply find_BOs_for_company_keeps in Hf.
Qed.

Lemma for_proprietors_keeps record idx : forall u w u' w',
  for_proprietors record idx (u, w) = Some (u', w') ->
  proprietor_cache w ⊆ proprietor_cache w' /\ BO_cache w ⊆ BO_cache w'.
Proof.
  induction idx as [|i idx IH]; intros u w u' w'; cbn [for_proprietors].
  - by intros [= <- <-].
  - destruct (process_proprietor record i (u, w)) as [[u1 w1]|] eqn:Hp; [|done].
    intros Hrest. apply process_proprietor_keeps in Hp as [Hp1 Hp2].
    apply IH in Hrest as [Hr1 Hr2].
    split; etrans; eauto.
Qed.

Lemma run_operation_keeps o w w' :
  run_operation o w = Some w' ->
  proprietor_cache w ⊆ proprietor_cache w' /\ BO_cache w ⊆ BO_cache w'.
Proof.
  destruct o as [name|name|record]; simpl.
  - destruct (get_company_details name w) as [[r w1]|] eqn:Hd; [|done].
    intros [= <-]. apply get_company_details_keeps in Hd as [Hp ->]. done.
  - destruct (find_BOs_for_company name w) as [[r w1]|] eqn:Hd; [|done].
    intros [= <-]. by apply find_BOs_for_company_keeps in Hd.
  - unfold process_row.
    destruct (for_proprietors record slots (∅, w)) as [[u1 w1]|] eqn:Hd; [|done].
    intros [= <-]. by apply for_proprietors_keeps in Hd.
Qed.

(** Nothing in a run removes or replaces a cache entry. *)
Lemma run_keeps ops : forall w w',
  run ops w = Some w' ->
  proprietor_cache w ⊆ proprietor_cache w' /\ BO_cache w ⊆ BO_cache w'.
Proof.
  induction ops as [|o ops IH]; intros w w'; cbn [run].
  - by intros [= <-].
  - destruct (run_operation o w) as [w1|] eqn:Ho; [|done].
    intros Hrest. apply run_operation_keeps in Ho as [Ho1 Ho2].
    apply IH in Hrest as [Hr1 Hr2].
    split; etrans; eauto.
Qed.

End ClientFacts.

(** C8, as the code has it: the first resolution of a name stores its
    result, positive or negative, under the normalised name; whatever the
    run does next, a later resolution of that name returns the stored
    result and leaves the state as it is, so it issues no request; and no
    entry of either cache is ever replaced or removed. *)
Theorem resolution_is_cached `{Unicode} `{WordList} `{Serialisers}
    (company_name : str) (w w1 w2 : world) (r : json * json * json * json)
    (ops : list operation) :
  get_company_details company_name w = Some (r, w1) ->
  run ops w1 = Some w2 ->
  proprietor_cache w1 !! normalise_text company_name = Some r
  /\ get_company_details company_name w2 = Some (r, w2)
  /\ (forall k v, proprietor_cache w1 !! k = Some v -> proprietor_cache w2 !! k = Some v)
  /\ (forall k v, BO_cache w1 !! k = Some v -> BO_cache w2 !! k = Some v).
Proof.
  intros Hfirst Hrun.
  pose proof (get_company_details_stores _ _ _ _ Hfirst) as Hstored.
  destruct (run_keeps ops w1 w2 Hrun) as [Hp Hb].
  split; [done|]. split.
  - apply get_company_details_cached. by eapply lookup_weaken.
  - split; intros k v Hk; by eapply lookup_weaken.
Qed.

(** The witness of [resolution_is_cached]: a name found on the first
    page, then a run that looks up two names. *)
Lemma resolution_is_cached_witness :
  let w := Sample.fresh
             [Sample.page [Sample.item "registered-overseas-entity"
                             "GABLE ENTERPRISES LTD" "OE000001"];
              Sample.status_only 404; Sample.status_only 404] in
  exists r w1 w2,
    @get_company_details ascii_only Sample.words Sample.gable w = Some (r, w1)
    /\ @run ascii_only Sample.words Sample.serialisers
         [FindBOs (py "Other Holdings SA"); Resolve Sample.gable] w1 = Some w2
    /\ proprietor_cache w1 !! @normalise_text ascii_only Sample.words Sample.gable
       = Some r
    /\ @get_company_details ascii_only Sample.words Sample.gable w2 = Some (r, w2).
Proof.
  intros w.
  destruct (@get_company_details ascii_only Sample.words Sample.gable w)
    as [[r w1]|] eqn:Hfirst; [|by vm_compute in Hfirst].
  destruct (@run ascii_only Sample.words Sample.serialisers
              [FindBOs (py "Other Holdings SA"); Resolve Sample.gable] w1)
    as [w2|] eqn:Hrun.
  - exists r, w1, w2.
    destruct (@resolution_is_cached ascii_only Sample.words Sample.serialisers
                Sample.gable w w1 w2 r _ Hfirst Hrun) as (Hs & Hc & _).
    done.
  - exfalso. revert Hrun. vm_compute in Hfirst.
    injection Hfirst as <- <-. by vm_compute.
Defined.

(** C8, the claim as stated: a name whose first page is full and holds
    no match is resolved with two search requests (the second resolution
    adds none). *)
Lemma second_page_second_request :
  let w := Sample.fresh
             [Sample.page (repeat (Sample.item "ltd" "Gable Holdings Ltd" "01234567") 100);
              Sample.page []] in
  match @get_company_details ascii_only Sample.words Sample.gable w with
  | Some (r, w1) =>
      match @get_company_details ascii_only Sample.words Sample.gable w1 with
      | Some (r', w2) =>
          r' = r
          /\ requests_of (trace w2)
             = [Search Sample.gable 100 0; Search Sample.gable 100 100]
      | None => False
      end
  | None => False
  end.
Proof. vm_compute. done. Qed.

(** C9 at the failing input: a 403 from the search endpoint.  The
    search sleeps ten seconds and sends the request again; it answers
    only once the registry says something else, and is still asking when
    the registry keeps saying 403.  The profile and the controller
    fetches end at once on 403 and on 404, and so does the search on
    404. *)
Theorem search_forbidden_is_retried :
  @get_company_details ascii_only Sample.words Sample.gable
    (Sample.fresh [Sample.status_only 403]) = None
  /\ (trace ∘ snd <$>
        @get_company_details ascii_only Sample.words Sample.gable
          (Sample.fresh [Sample.status_only 403; Sample.status_only 404]))
     = Some [Request (Search Sample.gable 100 0); Sleep 10;
             Request (Search Sample.gable 100 0)]
  /\ (trace ∘ snd <$>
        @get_company_details ascii_only Sample.words Sample.gable
          (Sample.fresh [Sample.status_only 404; Sample.status_only 404]))
     = Some [Request (Search Sample.gable 100 0)]
  /\ get_company_profile (JStr (py "OE000001"))
       [Sample.status_only 403; Sample.status_only 200] []
     = Some (None, [Sample.status_only 200],
             [Request (ProfileOf (JStr (py "OE000001")))])
  /\ get_BO_list (JStr (py "OE000001"))
       [Sample.status_only 403; Sample.status_only 200] []
     = Some ([(py "items", JList [])], [Sample.status_only 200],
             [Request (ControllersOf (JStr (py "OE000001")))]).
Proof. vm_compute. done. Qed.

(** ** The strong match *)

(** An answer that is tried again costs one request and one pause. *)
Lemma search_loop_retry `{Unicode} `{WordList} name q ls r rest t :
  search_retries r = true ->
  search_loop name q ls (r :: rest) t
  = search_loop name q ls rest
      (t ++ [Request (Search name items_per_page (start_index ls));
             Sleep (pause_after r)]).
Proof.
  destruct r as [|status retry body]; cbn [search_loop search_retries pause_after];
    intros Hr.
  - by rewrite <- app_assoc.
  - apply andb_true_iff in Hr as [Hr _].
    apply negb_true_iff, bool_decide_eq_false in Hr.
    assert (status <> 200 /\ status <> 416 /\ status <> 404)%Z as (H1 & H2 & H3).
    { repeat split; intros ->; apply Hr; apply list_elem_of_In; simpl; tauto. }
    rewrite (proj2 (Z.eqb_neq _ _) H1), (proj2 (Z.eqb_neq _ _) H2),
      (proj2 (Z.eqb_neq _ _) H3).
    destruct (status =? 502)%Z, (status =? 429)%Z; by rewrite <- app_assoc.
Qed.

Section StrongMatch.
Context `{Unicode} `{WordList}.

(** A strong match of the primary category is an exact match: the
    token-set branch is never the one that answers. *)
Lemma is_strong_roe_exact (it : list (str * json)) (company_name : str) :
  fst (is_strong_roe it (normalise_text company_name)) = true ->
  is_strong_roe it (normalise_text company_name) = (true, py "exact name + ROE")
  /\ is_str (get "company_type" it) "registered-overseas-entity" = true
  /\ normalise_value (py_or (get_default "title" (JStr []) it) (JStr []))
     = normalise_text company_name.
Proof.
  unfold is_strong_roe.
  destruct (is_str (get "company_type" it) "registered-overseas-entity");
    simpl; [|done].
  set (title := py_or _ _).
  destruct (str_eqb (normalise_value title) (normalise_text company_name)) eqn:He.
  - intros _. repeat split. unfold str_eqb in He. by apply bool_decide_eq_true_1 in He.
  - destruct (decide (normalise_text company_name = [])) as [Hq|Hq].
    + assert (Hneg : negb (str_eqb (normalise_text company_name) []) = false).
      { unfold str_eqb. by rewrite bool_decide_eq_true_2. }
      rewrite Hneg, andb_false_r. done.
    + rewrite token_set_test_is_exact, He by done. done.
Qed.

Lemma find_none_Forall {A} (f : A -> bool) (l : list A) :
  Forall (fun x => f x = false) l -> List.find f l = None.
Proof. induction 1 as [|x l Hx _ IH]; simpl; [done|]. by rewrite Hx. Qed.

Lemma find_some_exists {A} (f : A -> bool) (l : list A) :
  (exists x, x ∈ l /\ f x = true) -> exists y, List.find f l = Some y.
Proof.
  intros (x & Hin & Hx). induction l as [|z l IH]; [set_solver|].
  simpl. destruct (f z) eqn:Hz; [by eexists|].
  apply IH. apply elem_of_cons in Hin as [->|Hin]; [congruence|done].
Qed.

(** Answers that are tried again and full pages without a strong primary
    match are gone through; the first page that holds one ends the
    search. *)
Lemma search_loop_reaches name q it retry body rest :
  List.find (fun it => fst (is_strong_roe it q)) (page_items body) = Some it ->
  forall (before : list response) ls t,
  Forall (fun r => search_retries r = true \/ full_page_without_match q r) before ->
  exists t',
    search_loop name q ls (before ++ Http 200 retry body :: rest) t
    = Some (Returned (details_of it), rest, t')
    /\ requests_of t'
       = requests_of t
         ++ search_requests name (start_index ls) (before ++ [Http 200 retry body]).
Proof.
  intros Hfind before. induction before as [|r before IH]; intros ls t Hbefore.
  - simpl. rewrite Hfind. eexists. split; [done|].
    by rewrite requests_of_app.
  - inversion Hbefore as [|? ? [Hr | Hr] Hbefore']; subst.
    + cbn [app]. rewrite search_loop_retry by done.
      edestruct IH as (t' & -> & Hreq); [exact Hbefore'|].
      eexists. split; [done|].
      rewrite Hreq, requests_of_app. cbn [search_requests].
      assert (Hsame : match r with
                      | Http status _ _ =>
                          if (status =? 200)%Z
                          then (start_index ls + items_per_page)%Z else start_index ls
                      | NetworkError => start_index ls
                      end = start_index ls).
      { destruct r as [|status ra b]; [done|].
        destruct (Z.eqb_spec status 200) as [->|]; [|done].
        by vm_compute in Hr. }
      rewrite Hsame. simpl. by rewrite <- app_assoc.
    + destruct r as [|status ra b]; [done|]. destruct Hr as (-> & Hlen & Hno).
      cbn [app search_loop search_requests]. change (200 =? 200)%Z with true. cbv iota.
      rewrite (find_none_Forall _ _ Hno), Hlen.
      change (Z.of_nat 100 <? items_per_page)%Z with false. cbv iota.
      edestruct IH as (t' & -> & Hreq); [exact Hbefore'|].
      eexists. split; [done|].
      rewrite Hreq, requests_of_app. simpl. by rewrite <- app_assoc.
Qed.

End StrongMatch.

(** C3: when a page that the search reaches (after any number of answers
    that are tried again and of full pages without such an item) holds an
    item of the primary category that is a strong match, the search ends
    with that request: the result is the title, number, address snippet
    and status of the first strong primary match of that page, the
    remaining answers are not asked for, and the result is cached.  That
    item is an exact match of the normalised name, as every strong match
    is: no token-set match can take the place of an exact one. *)
Theorem strong_primary_match_returns_at_once `{Unicode} `{WordList}
    (company_name : str) (w : world) (before : list response)
    (retry : option Z) (body : list (str * json)) (rest : list response) :
  let q := normalise_text company_name in
  proprietor_cache w !! q = None ->
  registry w = before ++ Http 200 retry body :: rest ->
  Forall (fun r => search_retries r = true \/ full_page_without_match q r) before ->
  (exists it, it ∈ page_items body /\ fst (is_strong_roe it q) = true) ->
  exists it w',
    get_company_details company_name w
    = Some ((get "title" it, get "company_number" it, get "address_snippet" it,
             get "company_status" it), w')
    /\ List.find (fun it => fst (is_strong_roe it q)) (page_items body) = Some it
    /\ is_str (get "company_type" it) "registered-overseas-entity" = true
    /\ is_strong_roe it q = (true, py "exact name + ROE")
    /\ registry w' = rest
    /\ requests_of (trace w')
       = requests_of (trace w)
         ++ search_requests company_name 0 (before ++ [Http 200 retry body])
    /\ proprietor_cache w' !! q
       = Some (get "title" it, get "company_number" it, get "address_snippet" it,
               get "company_status" it)
    /\ (forall other, fst (is_strong_roe other q) = true ->
                      is_strong_roe other q = (true, py "exact name + ROE")).
Proof.
  intros q Hmiss Hreg Hbefore Hsome.
  destruct (find_some_exists _ _ Hsome) as [it Hfind].
  destruct (search_loop_reaches company_name q it retry body rest Hfind
              before initial_search (trace w) Hbefore) as (t' & Hloop & Hreq).
  assert (Hstrong : fst (is_strong_roe it q) = true).
  { by apply List.find_some in Hfind as [_ Hs]. }
  destruct (is_strong_roe_exact it company_name Hstrong) as (Hexact & Hty & _).
  eexists it, _. split.
  - unfold get_company_details. fold q. rewrite Hmiss, Hreg, Hloop. reflexivity.
  - simpl. repeat split; try done.
    + apply lookup_insert_eq.
    + intros other Ho. by apply is_strong_roe_exact.
Qed.

(** The witness of [strong_primary_match_returns_at_once]: a full first
    page of domestic companies, a 502 and a 429 on the second page, then
    that page with an oversea-company and two registered overseas
    entities of that name. *)
Lemma strong_primary_match_witness :
  let junk := Sample.item "ltd" "Gable Holdings Ltd" "01234567" in
  let before :=
    [Http 200 None [(py "items", JList (map JObj (repeat junk 100)))];
     Sample.status_only 502; Http 429 (Some 5%Z) []] in
  let body :=
    [(py "items",
      JList (map JObj
               [Sample.item "oversea-company" "Gable Enterprises Limited" "FC000001";
                Sample.item "registered-overseas-entity" "GABLE ENTERPRISES LTD" "OE000001";
                Sample.item "registered-overseas-entity" "Gable Enterprises Limited"
                            "OE000002"]))] in
  let w := Sample.fresh (before ++ Http 200 None body :: [Sample.status_only 404]) in
  exists w',
    @get_company_details ascii_only Sample.words Sample.gable w
    = Some ((JStr (py "GABLE ENTERPRISES LTD"), JStr (py "OE000001"),
             JStr (py "1 High Street, Road Town, Tortola"), JStr (py "registered")),
            w')
    /\ registry w' = [Sample.status_only 404]
    /\ requests_of (trace w')
       = [Search Sample.gable 100 0; Search Sample.gable 100 100;
          Search Sample.gable 100 100; Search Sample.gable 100 100]
    /\ proprietor_cache w' !! @normalise_text ascii_only Sample.words Sample.gable
       = Some (JStr (py "GABLE ENTERPRISES LTD"), JStr (py "OE000001"),
               JStr (py "1 High Street, Road Town, Tortola"), JStr (py "registered")).
Proof.
  intros junk before body w.
  destruct (@strong_primary_match_returns_at_once ascii_only Sample.words
              Sample.gable w before None body [Sample.status_only 404])
    as (it & w' & Hget & Hfind & _ & _ & Hreg & Hreq & Hcache & _).
  - vm_compute. reflexivity.
  - reflexivity.
  - constructor; [|repeat constructor].
    right. split; [reflexivity|]. split; [vm_compute; reflexivity|].
    apply Forall_forall. intros x Hx.
    assert (Hj : x = junk).
    { revert Hx.
      change (page_items [(py "items", JList (map JObj (repeat junk 100)))])
        with (repeat junk 100).
      intros Hx. apply list_elem_of_In in Hx. by apply repeat_spec in Hx. }
    subst x. vm_compute. reflexivity.
  - exists (Sample.item "registered-overseas-entity" "GABLE ENTERPRISES LTD" "OE000001").
    split; [|vm_compute; reflexivity].
    vm_compute. apply list_elem_of_In. simpl. tauto.
  - exists w'.
    vm_compute in Hfind. injection Hfind as <-.
    split; [exact Hget|]. split; [exact Hreg|]. split; [exact Hreq|exact Hcache].
Defined.

(** ** The row written by [process_all_records] *)

Section StoredRow.
Context `{Unicode} `{WordList} `{Serialisers}.

Lemma store_bo_lookup_eq i u j bo f :
  f ∈ stored_fields ->
  store_bo i u (j, bo) !! BO i j f = Some (slot_value bo f).
Proof.
  intros Hf. unfold store_bo, stored_fields in *. cbn [fold_left fst snd].
  destruct f; try (exfalso; set_solver); by simplify_map_eq.
Qed.

Lemma store_bo_lookup_ne i u j bo k :
  (forall f, k <> BO i j f) ->
  store_bo i u (j, bo) !! k = u !! k.
Proof.
  intros Hk. unfold store_bo, stored_fields. cbn [fold_left fst snd].
  rewrite !lookup_insert_ne by (intros E; exact (Hk _ (eq_sym E))). done.
Qed.

Lemma store_all_lookup_ne i l : forall u k,
  (forall j f, k <> BO i j f) ->
  fold_left (store_bo i) l u !! k = u !! k.
Proof.
  induction l as [|[j bo] l IH]; intros u k Hk; simpl; [done|].
  rewrite IH by done. apply store_bo_lookup_ne. intros f. apply Hk.
Qed.

(** After the loop over the enumerated controllers, slot [j] holds the
    controller at position [j - start], when there is one. *)
Lemma store_all_lookup i f l : forall start u j,
  f ∈ stored_fields ->
  fold_left (store_bo i) (zip (seq start (length l)) l) u !! BO i j f
  = match (if decide (start <= j) then l !! (j - start) else None) with
    | Some bo => Some (slot_value bo f)
    | None => u !! BO i j f
    end.
Proof.
  induction l as [|bo l IH]; intros start u j Hf.
  - simpl. by destruct (decide (start <= j)).
  - cbn [length seq zip zip_with fold_left]. rewrite IH by done.
    destruct (decide (S start <= j)) as [Hlt|Hge].
    + rewrite decide_True by lia.
      replace (j - start) with (S (j - S start)) by lia. simpl.
      destruct (l !! (j - S start)); [done|].
      apply store_bo_lookup_ne. intros f' [=]. lia.
    + destruct (decide (start <= j)) as [Hle|Hlt].
      * assert (j = start) as -> by lia. rewrite Nat.sub_diag. simpl.
        by apply store_bo_lookup_eq.
      * apply store_bo_lookup_ne. intros f' [=]. lia.
Qed.

Lemma clear_fields_slot i u j f :
  j ∈ slots -> f ∈ stored_fields ->
  clear_fields i u !! BO i j f = Some JNull.
Proof.
  intros Hj Hf. unfold clear_fields, clear_slot, slots, stored_fields in *.
  cbn [fold_left].
  assert (Hjs : j = 1 \/ j = 2 \/ j = 3 \/ j = 4) by set_solver.
  destruct f; try (exfalso; set_solver);
    destruct Hjs as [-> | [-> | [-> | ->]]]; by simplify_map_eq.
Qed.

Lemma clear_fields_failure i u :
  clear_fields i u !! proprietor_BO_failure i = Some JNull.
Proof. unfold clear_fields. by simplify_map_eq. Qed.

Lemma clear_fields_other i u k :
  (forall j f, k <> BO i j f) ->
  k <> proprietor_BO_failure i -> k <> proprietor_number i ->
  clear_fields i u !! k = u !! k.
Proof.
  intros Hk Hf Hn. unfold clear_fields, clear_slot, slots, stored_fields.
  cbn [fold_left].
  rewrite !lookup_insert_ne
    by (first [ done | intros E; exact (Hk _ _ (eq_sym E)) ]). done.
Qed.

(** What [record_result] leaves in the slots of its proprietor. *)
Lemma record_result_slots i bos reg_address comp_number u j f :
  j ∈ slots -> f ∈ stored_fields ->
  record_result i (OK, bos, reg_address, comp_number) (clear_fields i u) !! BO i j f
  = Some (match take 4 (active_bos bos) !! (j - 1) with
          | Some bo => slot_value bo f
          | None => JNull
          end).
Proof.
  intros Hj Hf. unfold record_result, enumerate_from_1.
  rewrite store_all_lookup by done.
  assert (1 <= j) by (unfold slots in Hj; set_solver by lia).
  rewrite decide_True by done.
  destruct (take 4 (active_bos bos) !! (j - 1)); [done|].
  destruct (truthy reg_address), (truthy comp_number);
    rewrite ?lookup_insert_ne by done; by apply clear_fields_slot.
Qed.

(** With status OK no failure is recorded. *)
Lemma record_result_failure i status bos reg_address comp_number u :
  record_result i (status, bos, reg_address, comp_number) (clear_fields i u)
    !! proprietor_BO_failure i
  = Some (match status with
          | OK => JNull
          | _ => JStr (status_text status)
          end).
Proof.
  unfold record_result.
  assert (Hbase : forall v,
    (let update := if truthy reg_address
                   then <[proprietor_address i := reg_address]> (clear_fields i u)
                   else clear_fields i u in
     if truthy comp_number
     then <[proprietor_number i := v]> update else update)
    !! proprietor_BO_failure i = Some JNull).
  { intros v. cbv zeta. destruct (truthy reg_address), (truthy comp_number);
      rewrite ?lookup_insert_ne by done; apply clear_fields_failure. }
  destruct status.
  - rewrite store_all_lookup_ne by done. apply Hbase.
  - apply lookup_insert_eq.
  - apply lookup_insert_eq.
Qed.

(** The other proprietors of the row leave them alone. *)
Lemma record_result_other i result u k :
  (forall j f, k <> BO i j f) ->
  k <> proprietor_BO_failure i -> k <> proprietor_number i ->
  k <> proprietor_address i ->
  record_result i result u !! k = u !! k.
Proof.
  intros Hk Hf Hn Ha. destruct result as [[[status bos] reg_address] comp_number].
  unfold record_result.
  assert (Hbase : forall v,
    (let update := if truthy reg_address
                   then <[proprietor_address i := reg_address]> u else u in
     if truthy comp_number
     then <[proprietor_number i := v]> update else update) !! k = u !! k).
  { intros v. cbv zeta. destruct (truthy reg_address), (truthy comp_number);
      by rewrite ?lookup_insert_ne by done. }
  destruct status.
  - rewrite store_all_lookup_ne by done. apply Hbase.
  - rewrite lookup_insert_ne by done. apply Hbase.
  - rewrite lookup_insert_ne by done. apply Hbase.
Qed.

Lemma process_proprietor_other record i u w u' w' k :
  process_proprietor record i (u, w) = Some (u', w') ->
  (forall j f, k <> BO i j f) ->
  k <> proprietor_BO_failure i -> k <> proprietor_number i ->
  k <> proprietor_address i ->
  u' !! k = u !! k.
Proof.
  intros Hp Hk Hf Hn Ha. unfold process_proprietor in Hp.
  destruct (record (proprietor_name i)) as [prop|].
  - destruct (_ && _).
    + destruct (find_BOs_for_company prop w) as [[r w1]|]; [|done].
      injection Hp as <- <-.
      rewrite record_result_other by done. by apply clear_fields_other.
    + injection Hp as <- <-. by apply clear_fields_other.
  - injection Hp as <- <-. by apply clear_fields_other.
Qed.

Lemma for_proprietors_other record idx : forall u w u' w' i j f,
  for_proprietors record idx (u, w) = Some (u', w') ->
  i ∉ idx ->
  u' !! BO i j f = u !! BO i j f
  /\ u' !! proprietor_BO_failure i = u !! proprietor_BO_failure i.
Proof.
  induction idx as [|k idx IH]; intros u w u' w' i j f; cbn [for_proprietors].
  - by intros [= <- <-].
  - destruct (process_proprietor record k (u, w)) as [[u1 w1]|] eqn:Hp; [|done].
    intros Hrest Hi.
    assert (k <> i) by set_solver.
    destruct (IH _ _ _ _ i j f Hrest) as [-> ->]; [set_solver|].
    split; eapply process_proprietor_other; eauto; congruence.
Qed.

Lemma for_proprietors_app record l1 l2 st :
  for_proprietors record (l1 ++ l2) st
  = match for_proprietors record l1 st with
    | Some st1 => for_proprietors record l2 st1
    | None => None
    end.
Proof.
  revert st. induction l1 as [|i l1 IH]; intros st; cbn [app for_proprietors]; [done|].
  destruct (process_proprietor record i st); [apply IH|done].
Qed.

Lemma slots_split i :
  i ∈ slots -> slots = take (i - 1) slots ++ i :: drop i slots /\ i ∉ drop i slots.
Proof.
  unfold slots. intros Hi.
  assert (Hc : i = 1 \/ i = 2 \/ i = 3 \/ i = 4) by set_solver.
  destruct Hc as [-> | [-> | [-> | ->]]]; simpl; (split; [done|set_solver]).
Qed.

(** The step for proprietor [i], when the look-up answers. *)
Lemma process_proprietor_found record i u w prop result w' :
  record (proprietor_name i) = Some prop -> strip prop <> [] ->
  find_BOs_for_company prop w = Some (result, w') ->
  process_proprietor record i (u, w)
  = Some (record_result i result (clear_fields i u), w').
Proof.
  intros Hname Hblank Hfind. unfold process_proprietor. rewrite Hname, Hfind.
  assert (Hne : prop <> []) by (intros ->; by apply Hblank).
  unfold str_eqb. by rewrite !bool_decide_eq_false_2.
Qed.

End StoredRow.

(** C1: when the look-up of proprietor [i] answers with status OK, the
    row that is written holds in the BO slots of that proprietor the
    first four controllers for which the ceased test is false, in the
    order of the registry's list, and nothing in the slots beyond them;
    none of the stored controllers is ceased. *)
Theorem stored_slots_are_first_four_active `{Unicode} `{WordList} `{Serialisers}
    (record : col -> option (list N)) (w wi wi' w' : world) (i : nat)
    (upd0 upd : gmap col json) (prop : list N)
    (bos : list (list (list N * json))) (reg_address comp_number : json) :
  i ∈ slots ->
  for_proprietors record (take (i - 1) slots) (∅, w) = Some (upd0, wi) ->
  record (proprietor_name i) = Some prop ->
  strip prop <> [] ->
  find_BOs_for_company prop wi = Some ((OK, bos, reg_address, comp_number), wi') ->
  process_row record w = Some (upd, w') ->
  (forall j f, j ∈ slots -> f ∈ stored_fields ->
     upd !! BO i j f
     = Some (match take 4 (List.filter (fun bo => negb (is_ceased_beneficial_owner bo)) bos)
                   !! (j - 1) with
             | Some bo => slot_value bo f
             | None => JNull
             end))
  /\ Forall (fun bo => is_ceased_beneficial_owner bo = false)
            (take 4 (List.filter (fun bo => negb (is_ceased_beneficial_owner bo)) bos))
  /\ upd !! proprietor_BO_failure i = Some JNull.
Proof.
  intros Hi Hbefore Hname Hblank Hfind Hrow.
  destruct (slots_split i Hi) as [Hsplit Hnotin].
  unfold process_row in Hrow.
  rewrite Hsplit, for_proprietors_app, Hbefore in Hrow.
  cbn [for_proprietors] in Hrow.
  rewrite (process_proprietor_found record i upd0 wi prop _ wi' Hname Hblank Hfind) in Hrow.
  destruct (for_proprietors record (drop i slots) _) as [[u4 w4]|] eqn:Hrest; [|done].
  injection Hrow as <- <-.
  split; [|split].
  - intros j f Hj Hf.
    rewrite lookup_insert_ne by done.
    destruct (for_proprietors_other _ _ _ _ _ _ i j f Hrest Hnotin) as [-> _].
    by apply record_result_slots.
  - apply Forall_take. apply Forall_forall. intros bo Hbo.
    apply list_elem_of_In, filter_In in Hbo as [_ Hbo]. by apply negb_true_iff.
  - rewrite lookup_insert_ne by done.
    destruct (for_proprietors_other _ _ _ _ _ _ i 1 f_name Hrest Hnotin) as [_ ->].
    apply record_result_failure.
Qed.

(** A computed pair is the pair of its two parts, once it is known to be
    there. *)
Lemma computed_pair {A B} (o : option (A * B)) (a : A) (b : B) :
  (const tt <$> o) = Some tt ->
  o = Some (default a (fst <$> o), default b (snd <$> o)).
Proof. destruct o as [[x y]|]; [done|discriminate]. Qed.

(** The witness of [stored_slots_are_first_four_active]: seven
    controllers of which the second and the fourth have ceased; the slots
    get the first, the third, the fifth and the sixth. *)
Lemma stored_slots_witness :
  let record := Sample.one_proprietor Sample.gable in
  let w := Sample.fresh (Sample.answers_for Sample.controllers) in
  let found := @find_BOs_for_company ascii_only Sample.words Sample.gable w in
  let row := @process_row ascii_only Sample.words Sample.serialisers record w in
  let upd := default ∅ (fst <$> row) in
  (fst <$> found)
  = Some (OK, Sample.controllers, JStr (py "1 High Street, Road Town, Tortola"),
          JStr (py "OE000001"))
  /\ row = Some (upd, default w (snd <$> row))
  /\ upd !! BO 1 1 f_name = Some (JStr (py "Ann Archer"))
  /\ upd !! BO 1 2 f_name = Some (JStr (py "Beta Holdings Ltd"))
  /\ upd !! BO 1 3 f_name = Some (JStr (py "Dora Dale"))
  /\ upd !! BO 1 4 f_name = Some (JStr (py "Epsilon Trustees Ltd"))
  /\ upd !! BO 1 4 f_kind = Some (JStr (py "corporate-entity-beneficial-owner"))
  /\ upd !! proprietor_BO_failure 1 = Some JNull.
Proof.
  intros record w found row upd.
  assert (Hf : f_name ∈ stored_fields /\ f_kind ∈ stored_fields)
    by (split; apply list_elem_of_In; simpl; tauto).
  assert (Hin : forall j, In j [1; 2; 3; 4] -> j ∈ slots)
    by (intros j Hj; by apply list_elem_of_In).
  assert (Hfound : (fst <$> found)
                   = Some (OK, Sample.controllers,
                           JStr (py "1 High Street, Road Town, Tortola"),
                           JStr (py "OE000001"))) by (vm_compute; reflexivity).
  assert (Hrow : row = Some (upd, default w (snd <$> row))).
  { apply computed_pair. vm_compute. reflexivity. }
  destruct (@stored_slots_are_first_four_active ascii_only Sample.words
              Sample.serialisers record w w (default w (snd <$> found))
              (default w (snd <$> row)) 1 ∅ upd Sample.gable Sample.controllers
              (JStr (py "1 High Street, Road Town, Tortola")) (JStr (py "OE000001")))
    as (Hslots & _ & Hfail).
  - apply Hin. simpl. tauto.
  - reflexivity.
  - reflexivity.
  - vm_compute. discriminate.
  - rewrite (computed_pair found (OK, [], JNull, JNull) w) by (vm_compute; reflexivity).
    by rewrite Hfound.
  - exact Hrow.
  - split; [exact Hfound|]. split; [exact Hrow|].
    rewrite (Hslots 1 f_name), (Hslots 2 f_name), (Hslots 3 f_name), (Hslots 4 f_name),
      (Hslots 4 f_kind) by (first [apply Hf | apply Hin; simpl; tauto]).
    do 5 (split; [vm_compute; reflexivity|]). exact Hfail.
Defined.

(** C2 at the failing input: the registry returns two controllers and
    both have ceased.  [find_BOs_for_company] answers OK, because the
    list is not empty; the row gets no BO in any slot and no failure
    status.  With an empty list the failure status is "No BO". *)
Theorem all_ceased_is_recorded_without_failure :
  let record := Sample.one_proprietor Sample.gable in
  let bos :=
    [Sample.controller "Old Nominees Ltd" "corporate-entity-beneficial-owner"
       Sample.ceased_flag;
     Sample.controller "Carl Cole" "individual-beneficial-owner"
       (Sample.ceased_on "2023-01-01")] in
  let stored (answers : list response) (k : col) :=
    (fun u => u !! k) ∘ fst <$>
      @process_row ascii_only Sample.words Sample.serialisers record
        (Sample.fresh answers) in
  (fst ∘ fst ∘ fst ∘ fst <$>
     @find_BOs_for_company ascii_only Sample.words Sample.gable
       (Sample.fresh (Sample.answers_for bos))) = Some OK
  /\ @active_bos ascii_only bos = []
  /\ stored (Sample.answers_for bos) (proprietor_BO_failure 1) = Some (Some JNull)
  /\ stored (Sample.answers_for bos) (proprietor_number 1)
     = Some (Some (JStr (py "OE000001")))
  /\ stored (Sample.answers_for bos) (BO 1 1 f_name) = Some (Some JNull)
  /\ stored (Sample.answers_for bos) (BO 1 1 f_kind) = Some (Some JNull)
  /\ stored (Sample.answers_for bos) (BO 1 2 f_kind) = Some (Some JNull)
  /\ stored (Sample.answers_for []) (proprietor_BO_failure 1)
     = Some (Some (JStr (py "No BO"))).
Proof. intros record bos stored. repeat (split; [vm_compute; reflexivity|]). vm_compute. reflexivity. Qed.

(** ** The classification of a row *)

Section ClassificationFacts.
Context `{Unicode} `{WordList} `{Parsers} `{Fuzzy} `{Geometry} `{ReferenceData}.

Lemma for_each_app {A} (step : A -> nat -> result A) l1 l2 : forall acc,
  for_each step acc (l1 ++ l2)
  = (acc' <- for_each step acc l1 ;; for_each step acc' l2).
Proof.
  induction l1 as [|x l1 IH]; intros acc; cbn [app for_each bind]; [done|].
  destruct (step acc x); cbn [bind]; [apply IH|done].
Qed.

(** A loop whose steps before [x] all finish and whose step at [x]
    raises, raises that exception. *)
Lemma for_each_raise_at {A} (step : A -> nat -> result A) l1 x l2 e :
  (forall y, y ∈ l1 -> forall acc, exists acc', step acc y = Done acc') ->
  (forall acc, step acc x = Raise e) ->
  forall acc, for_each step acc (l1 ++ x :: l2) = Raise e.
Proof.
  intros Hbefore Hx. induction l1 as [|y l1 IH]; intros acc; cbn [app for_each].
  - by rewrite Hx.
  - destruct (Hbefore y (ltac:(set_solver)) acc) as [acc' ->]. cbn [bind].
    apply IH. intros z Hz. apply Hbefore. set_solver.
Qed.

(** A loop with a step that raises whatever it is given, raises. *)
Lemma for_each_raised {A} (step : A -> nat -> result A) l x :
  x ∈ l -> (forall acc, raised (step acc x)) ->
  forall acc, raised (for_each step acc l).
Proof.
  intros Hx Hr. induction l as [|y l IH]; intros acc; [set_solver|].
  cbn [for_each]. destruct (decide (y = x)) as [->|Hne].
  - specialize (Hr acc). by destruct (step acc x).
  - destruct (step acc y); cbn [bind]; [|done]. apply IH. set_solver.
Qed.

Lemma bo_step_raise row i acc j e :
  bo_status row i j = Raise e -> bo_step row i acc j = Raise e.
Proof. unfold bo_step. by intros ->. Qed.

Lemma bo_step_done row i acc j s :
  bo_status row i j = Done s -> exists acc', bo_step row i acc j = Done acc'.
Proof. unfold bo_step. intros ->. cbn [bind]. destruct s; eauto. Qed.

Lemma not_raised_done {A} (r : result A) : ~ raised r -> exists a, r = Done a.
Proof. destruct r; [eauto|]. intros Hr. by destruct Hr. Qed.

(** The positions before [i] in the loop order. *)
Lemma slots_before i :
  i ∈ slots ->
  slots = take (i - 1) slots ++ i :: drop i slots
  /\ (forall y, y ∈ take (i - 1) slots -> y ∈ slots /\ y < i)
  /\ (i ∉ drop i slots)
  /\ (forall y, y ∈ drop i slots -> y <> i).
Proof.
  unfold slots. intros Hi.
  assert (Hc : i = 1 \/ i = 2 \/ i = 3 \/ i = 4) by set_solver.
  destruct Hc as [-> | [-> | [-> | ->]]]; cbn [take drop Nat.sub];
    (split; [done|]); (split; [|split]); try set_solver by lia;
    intros y Hy; split; set_solver by lia.
Qed.

(** The kinds of the corporate branch are neither of the two other
    kinds that the function names. *)
Lemma corporate_kind_branch (k : list N) :
  k ∈ corporate_kinds ->
  str_eqb k (py "individual-beneficial-owner") = false
  /\ str_eqb k (py "super-secure-beneficial-owner") = false.
Proof.
  unfold corporate_kinds. intros Hk.
  assert (Hc : k = py "corporate-entity-person-with-significant-control"
               \/ k = py "corporate-entity-beneficial-owner"
               \/ k = py "legal-person-beneficial-owner") by set_solver.
  destruct Hc as [-> | [-> | ->]]; by vm_compute.
Qed.

(** The status of a BO of a corporate kind is what the corporate branch
    gives. *)
Lemma bo_status_corporate row i j kind :
  row (BO i j f_kind) = Some kind -> kind <> [] ->
  strip kind ∈ corporate_kinds ->
  bo_status row i j = (s <- classify_corporate row i j ;; Done (Some s)).
Proof.
  intros Hkind Hne Hcorp. unfold bo_status. rewrite Hkind.
  destruct kind as [|c kind]; [done|].
  destruct (corporate_kind_branch _ Hcorp) as [-> ->].
  by rewrite bool_decide_eq_true_2.
Qed.

Lemma trustee_control_bad_literal title i j raw :
  raw <> [] -> literal_eval raw = BadLiteral ->
  trustee_control title i j (Some raw)
  = Raise (Invalid_natures_of_control title i j raw).
Proof.
  intros Hne Hbad. unfold trustee_control. destruct raw; [done|]. by rewrite Hbad.
Qed.

End ClassificationFacts.

(** C4, as the code has it: for a BO whose kind is one of the three
    corporate and legal-person kinds, a stored natures-of-control text
    that is not empty and that [ast.literal_eval] rejects makes the
    classification of the row raise, so that no status is assigned to any
    BO of the row; the exception is the [RuntimeError] that names the
    title, the proprietor, the BO and the raw text, unless the UK checks
    of that BO or an earlier BO of the row raised before. *)
Theorem malformed_natures_halt_the_row
    `{Unicode} `{WordList} `{Parsers} `{Fuzzy} `{Geometry} `{ReferenceData}
    (row : col -> option (list N)) (i j : nat) (kind raw : list N) :
  i ∈ slots -> j ∈ slots ->
  row (BO i j f_kind) = Some kind -> kind <> [] ->
  strip kind ∈ corporate_kinds ->
  row (BO i j f_natures_of_control) = Some raw -> raw <> [] ->
  literal_eval raw = BadLiteral ->
  raised (bo_status row i j)
  /\ raised (process_bo_status row)
  /\ (~ raised (uk_checks (row (BO i j f_address)) (row (BO i j f_legal_form))
                          (row (BO i j f_latlon))) ->
      bo_status row i j
      = Raise (Invalid_natures_of_control (row property_title_number) i j raw)
      /\ ((forall i' j', i' ∈ slots -> j' ∈ slots ->
                         i' < i \/ (i' = i /\ j' < j) ->
                         ~ raised (bo_status row i' j')) ->
          process_bo_status row
          = Raise (Invalid_natures_of_control (row property_title_number) i j raw))).
Proof.
  intros Hi Hj Hkind Hne Hcorp Hraw Hrne Hbad.
  pose proof (bo_status_corporate row i j kind Hkind Hne Hcorp) as Hst.
  assert (Hcls : forall b,
    uk_checks (row (BO i j f_address)) (row (BO i j f_legal_form))
              (row (BO i j f_latlon)) = Done b ->
    bo_status row i j
    = Raise (Invalid_natures_of_control (row property_title_number) i j raw)).
  { intros b Hb. rewrite Hst. unfold classify_corporate.
    rewrite Hb, Hraw. cbn [bind].
    by rewrite trustee_control_bad_literal. }
  assert (Hraised : raised (bo_status row i j)).
  { destruct (uk_checks (row (BO i j f_address)) (row (BO i j f_legal_form))
                        (row (BO i j f_latlon))) as [b|e] eqn:Huk.
    - by rewrite (Hcls b).
    - rewrite Hst. unfold classify_corporate. by rewrite Huk. }
  assert (Hprop : forall acc, raised (proprietor_step row acc i)).
  { intros acc. unfold proprietor_step. apply (for_each_raised _ _ j Hj).
    intros acc'. unfold bo_step. by destruct (bo_status row i j). }
  split; [done|]. split.
  - unfold process_bo_status. by apply (for_each_raised _ _ i Hi).
  - intros Huk. apply not_raised_done in Huk as [b Hb].
    split; [by apply (Hcls b)|]. intros Hearlier.
    destruct (slots_before i Hi) as (Hsi & Hbi & _).
    destruct (slots_before j Hj) as (Hsj & Hbj & _).
    unfold process_bo_status. rewrite Hsi. apply for_each_raise_at.
    + intros y Hy acc. destruct (Hbi y Hy) as [Hys Hlt].
      unfold proprietor_step.
      assert (Hall : forall l a, (forall z, z ∈ l -> z ∈ slots) ->
                exists a', for_each (bo_step row y) a l = Done a').
      { induction l as [|z l IH]; intros a Hl; cbn [for_each]; [eauto|].
        destruct (not_raised_done (bo_status row y z)) as [s Hs].
        { apply Hearlier; [done|apply Hl; apply list_elem_of_here|lia]. }
        destruct (bo_step_done row y a z s Hs) as [a' ->]. cbn [bind].
        apply IH. intros z' Hz'. apply Hl. by apply list_elem_of_further. }
      apply Hall. auto.
    + intros acc. unfold proprietor_step. rewrite Hsj. apply for_each_raise_at.
      * intros y Hy acc'. destruct (Hbj y Hy) as [Hys Hlt].
        destruct (not_raised_done (bo_status row i y)) as [s Hs].
        { apply Hearlier; [done|done|lia]. }
        by apply (bo_step_done row i acc' y s).
      * intros acc'. apply bo_step_raise. by apply (Hcls b).
Qed.

(** The witness of [malformed_natures_halt_the_row]: a corporate BO
    whose stored natures of control are the text "[". *)
Lemma malformed_natures_witness :
  let row := Sample.bo_row "corporate-entity-beneficial-owner"
               "1 High Street, Road Town, Tortola" None (Some (py "[")) in
  @literal_eval Sample.parsers (py "[") = BadLiteral
  /\ @process_bo_status ascii_only Sample.words Sample.parsers Sample.fuzzy
       Sample.geometry Sample.reference_data row
     = Raise (Invalid_natures_of_control (Some (py "NGL107005")) 1 1 (py "[")).
Proof.
  intros row. split; [reflexivity|].
  assert (Hin : 1 ∈ slots) by (apply list_elem_of_In; simpl; tauto).
  assert (Hkind : strip (py "corporate-entity-beneficial-owner") ∈ corporate_kinds).
  { vm_compute. apply list_elem_of_In. simpl. tauto. }
  destruct (@malformed_natures_halt_the_row ascii_only Sample.words Sample.parsers
              Sample.fuzzy Sample.geometry Sample.reference_data row 1 1
              (py "corporate-entity-beneficial-owner") (py "[")
              Hin Hin eq_refl ltac:(discriminate) Hkind eq_refl ltac:(discriminate) eq_refl)
    as (_ & _ & Hid).
  destruct Hid as [_ Hrow].
  - vm_compute. tauto.
  - apply Hrow. intros i' j' Hi' Hj' Hlt.
    assert (i' = 1 /\ j' = 0 \/ i' = 0) as [[-> ->] | ->] by lia;
      vm_compute; tauto.
Defined.

(** C4, the claim as stated: the natures of control of an individual BO,
    and of a BO of a kind that the function does not name, are never
    parsed; with the text "[" the first is given the status individual
    and the second the default status suspect, and nothing is raised. *)
Lemma malformed_natures_of_individual_pass :
  let classify row :=
    match @process_bo_status ascii_only Sample.words Sample.parsers Sample.fuzzy
            Sample.geometry Sample.reference_data row with
    | Done (update_dict, _) => Some (update_dict !! BO 1 1 f_reg_status)
    | Raise _ => None
    end in
  @literal_eval Sample.parsers (py "[") = BadLiteral
  /\ classify (Sample.bo_row "individual-beneficial-owner"
                 "1 High Street, Road Town, Tortola" None (Some (py "[")))
     = Some (Some (Some (py "individual")))
  /\ classify (Sample.bo_row "individual-person-with-significant-control"
                 "1 High Street, Road Town, Tortola" None (Some (py "[")))
     = Some (Some (Some (py "suspect"))).
Proof. intros classify. repeat (split; [vm_compute; reflexivity|]). vm_compute. reflexivity. Qed.

(** ** The UK checks *)

Section UkChecks.
Context `{Unicode} `{WordList} `{Parsers} `{Fuzzy} `{Geometry} `{ReferenceData}.

Lemma for_each_done_split {A} (step : A -> nat -> result A) l1 x l2 : forall acc acc',
  for_each step acc (l1 ++ x :: l2) = Done acc' ->
  exists a1 a2, for_each step acc l1 = Done a1 /\ step a1 x = Done a2
                /\ for_each step a2 l2 = Done acc'.
Proof.
  induction l1 as [|y l1 IH]; intros acc acc'; cbn [app for_each].
  - destruct (step acc x) as [a2|] eqn:Hx; cbn [bind]; [|done]. eauto.
  - destruct (step acc y) as [a|] eqn:Hy; cbn [bind]; [|done].
    intros Hrest. destruct (IH _ _ Hrest) as (a1 & a2 & Hl1 & Hl2 & Hl3).
    exists a1, a2. by rewrite Hl1.
Qed.

(** A step of the inner loop writes the status column of its own BO
    only. *)
Lemma bo_step_frame row i' j' acc acc' k :
  bo_step row i' acc j' = Done acc' ->
  k <> BO i' j' f_reg_status ->
  fst acc' !! k = fst acc !! k.
Proof.
  unfold bo_step. destruct (bo_status row i' j') as [[s|]|]; cbn [bind]; try done.
  - intros [= <-] Hk. cbn [fst]. by rewrite lookup_insert_ne.
  - by intros [= <-].
Qed.

Lemma bo_steps_frame row i' l k : forall acc acc',
  for_each (bo_step row i') acc l = Done acc' ->
  (forall j', j' ∈ l -> k <> BO i' j' f_reg_status) ->
  fst acc' !! k = fst acc !! k.
Proof.
  induction l as [|j' l IH]; intros acc acc'; cbn [for_each].
  - by intros [= <-].
  - destruct (bo_step row i' acc j') as [a|] eqn:Hs; cbn [bind]; [|done].
    intros Hrest Hk. rewrite (IH _ _ Hrest) by (intros; apply Hk; set_solver).
    eapply bo_step_frame; [done|]. apply Hk. set_solver.
Qed.

Lemma reexamine_frame row i' u i j f :
  reexamine_no_bo row i' u !! BO i j f = u !! BO i j f.
Proof.
  unfold reexamine_no_bo. destruct (bool_decide _); [|done].
  destruct (_ || _); [|done]. by rewrite lookup_insert_ne.
Qed.

Lemma proprietor_step_frame row i' acc acc' i j :
  proprietor_step row acc i' = Done acc' -> i' <> i ->
  fst acc' !! BO i j f_reg_status = fst acc !! BO i j f_reg_status.
Proof.
  unfold proprietor_step. intros Hs Hne.
  rewrite (bo_steps_frame _ _ _ _ _ _ Hs) by (intros; congruence).
  apply reexamine_frame.
Qed.

Lemma proprietor_steps_frame row l i j : forall acc acc',
  for_each (proprietor_step row) acc l = Done acc' ->
  (forall i', i' ∈ l -> i' <> i) ->
  fst acc' !! BO i j f_reg_status = fst acc !! BO i j f_reg_status.
Proof.
  induction l as [|i' l IH]; intros acc acc'; cbn [for_each].
  - by intros [= <-].
  - destruct (proprietor_step row acc i') as [a|] eqn:Hs; cbn [bind]; [|done].
    intros Hrest Hk. rewrite (IH _ _ Hrest) by (intros; apply Hk; set_solver).
    eapply proprietor_step_frame; [done|]. apply Hk. set_solver.
Qed.

(** The update of a row that is classified holds, for each BO, the
    status that [bo_status] gives it, and nothing for a slot that is
    passed over. *)
Lemma process_bo_status_lookup row i j update_dict c :
  i ∈ slots -> j ∈ slots ->
  process_bo_status row = Done (update_dict, c) ->
  exists o, bo_status row i j = Done o
            /\ update_dict !! BO i j f_reg_status
               = (fun s => Some (reg_status_text s)) <$> o.
Proof.
  intros Hi Hj Hrow. unfold process_bo_status in Hrow.
  destruct (slots_before i Hi) as (Hsi & _ & _ & Hai).
  destruct (slots_before j Hj) as (Hsj & Hbj & _ & Haj).
  rewrite Hsi in Hrow.
  apply for_each_done_split in Hrow as (a1 & a2 & Hbefore & Hstep & Hafter).
  apply proprietor_steps_frame with (i := i) (j := j) in Hafter; [|done].
  apply proprietor_steps_frame with (i := i) (j := j) in Hbefore.
  2:{ intros i' Hi'. destruct (slots_before i Hi) as (_ & Hlt & _).
      destruct (Hlt i' Hi'). lia. }
  cbn [fst] in Hbefore. rewrite lookup_empty in Hbefore.
  unfold proprietor_step in Hstep. rewrite Hsj in Hstep.
  apply for_each_done_split in Hstep as (b1 & b2 & Hb1 & Hb2 & Hb3).
  apply bo_steps_frame with (k := BO i j f_reg_status) in Hb3.
  2:{ intros j' Hj' [=]. by apply (Haj j' Hj'). }
  apply bo_steps_frame with (k := BO i j f_reg_status) in Hb1.
  2:{ intros j' Hj' [=]. destruct (Hbj j' Hj'). lia. }
  cbn [fst] in Hb1, Hafter. rewrite reexamine_frame, Hbefore in Hb1.
  rewrite Hafter, Hb3.
  unfold bo_step in Hb2.
  destruct (bo_status row i j) as [[s|]|]; cbn [bind] in Hb2; [| |done].
  - injection Hb2 as <-. exists (Some s). split; [done|].
    cbn [fst]. by rewrite lookup_insert_eq.
  - injection Hb2 as <-. exists None. by split.
Qed.

Lemma field_is_uk_text (v : json) :
  v = JNull \/ (exists t, v = JStr t) ->
  exists b, field_is_uk v = Done b.
Proof.
  intros [-> | [t ->]]; unfold field_is_uk; simpl; [eauto|].
  destruct (negb _); eauto.
Qed.

Lemma field_is_uk_match (t : list N) :
  t <> [] -> is_uk_a_fuzzy_match t = true -> field_is_uk (JStr t) = Done true.
Proof.
  intros Hne Hm. unfold field_is_uk. simpl. unfold str_eqb.
  rewrite bool_decide_eq_false_2 by done. simpl. by rewrite Hm.
Qed.

(** A legal form that parses to an object whose three fields are text or
    missing, one of them text that matches a UK term, is in the UK. *)
Lemma legal_form_in_uk_match (s : list N) (legal_form : list (list N * json)) :
  s <> [] -> json_loads s = Some (JObj legal_form) ->
  (forall k, k ∈ ["legal_authority"; "country_registered"; "place_registered"]%string ->
             get_default k (JStr []) legal_form = JNull
             \/ exists t, get_default k (JStr []) legal_form = JStr t) ->
  (exists k t, k ∈ ["legal_authority"; "country_registered"; "place_registered"]%string
               /\ get_default k (JStr []) legal_form = JStr t
               /\ t <> [] /\ is_uk_a_fuzzy_match t = true) ->
  legal_form_in_uk (Some s) = Done true.
Proof.
  intros Hne Hload Htext (k & t & Hk & Hget & Ht & Hm).
  unfold legal_form_in_uk. destruct s; [done|]. rewrite Hload.
  destruct (field_is_uk_text _ (Htext "legal_authority"%string ltac:(set_solver)))
    as [a Ha].
  destruct (field_is_uk_text _ (Htext "country_registered"%string ltac:(set_solver)))
    as [b Hb].
  destruct (field_is_uk_text _ (Htext "place_registered"%string ltac:(set_solver)))
    as [c Hc].
  pose proof (field_is_uk_match t Ht Hm) as Hyes. rewrite <- Hget in Hyes.
  rewrite Ha. cbn [bind]. destruct a; [done|].
  rewrite Hb. cbn [bind]. destruct b; [done|].
  rewrite Hc.
  assert (Hcase : k = "legal_authority"%string \/ k = "country_registered"%string
                  \/ k = "place_registered"%string) by set_solver.
  destruct Hcase as [-> | [-> | ->]]; congruence.
Qed.

Lemma reg_status_text_UK s : reg_status_text s = py "UK" -> s = UK.
Proof. destruct s; by vm_compute. Qed.

End UkChecks.

(** C5, as the code has it.  For a BO of a corporate or legal-person
    kind: when the address ends in an excluded suffix, both UK checks are
    skipped and the status is never UK; when it does not, and the stored
    legal form parses to an object whose fields [legal_authority],
    [country_registered] and [place_registered] are text or missing, one
    of them a text that is not empty and matches a UK term, then the
    status is UK whatever the address holds, provided the parse of the
    natures of control of that BO does not raise; and a row that is
    classified to the end gets that status in the BO's status column. *)
Theorem uk_legal_form_gives_UK
    `{Unicode} `{WordList} `{Parsers} `{Fuzzy} `{Geometry} `{ReferenceData}
    (row : col -> option (list N)) (i j : nat) (kind : list N) :
  i ∈ slots -> j ∈ slots ->
  row (BO i j f_kind) = Some kind -> kind <> [] ->
  strip kind ∈ corporate_kinds ->
  (address_excluded (row (BO i j f_address)) = true ->
     uk_checks (row (BO i j f_address)) (row (BO i j f_legal_form))
               (row (BO i j f_latlon)) = Done false
     /\ bo_status row i j <> Done (Some UK)
     /\ forall update_dict c,
          process_bo_status row = Done (update_dict, c) ->
          update_dict !! BO i j f_reg_status <> Some (Some (py "UK")))
  /\ (address_excluded (row (BO i j f_address)) = false ->
      forall (s : list N) (legal_form : list (list N * json)),
        row (BO i j f_legal_form) = Some s -> s <> [] ->
        json_loads s = Some (JObj legal_form) ->
        (forall k, k ∈ ["legal_authority"; "country_registered"; "place_registered"]%string ->
                   get_default k (JStr []) legal_form = JNull
                   \/ exists t, get_default k (JStr []) legal_form = JStr t) ->
        (exists k t, k ∈ ["legal_authority"; "country_registered"; "place_registered"]%string
                     /\ get_default k (JStr []) legal_form = JStr t
                     /\ t <> [] /\ is_uk_a_fuzzy_match t = true) ->
        ~ raised (trustee_control (row property_title_number) i j
                    (row (BO i j f_natures_of_control))) ->
        bo_status row i j = Done (Some UK)
        /\ forall update_dict c,
             process_bo_status row = Done (update_dict, c) ->
             update_dict !! BO i j f_reg_status = Some (Some (py "UK"))).
Proof.
  intros Hi Hj Hkind Hne Hcorp.
  pose proof (bo_status_corporate row i j kind Hkind Hne Hcorp) as Hst.
  split.
  - intros Hex.
    assert (Huk : uk_checks (row (BO i j f_address)) (row (BO i j f_legal_form))
                            (row (BO i j f_latlon)) = Done false).
    { unfold uk_checks. by rewrite Hex. }
    assert (Hnot : bo_status row i j <> Done (Some UK)).
    { rewrite Hst. unfold classify_corporate. rewrite Huk. cbn [bind].
      destruct (trustee_control _ _ _ _) as [tc|]; cbn [bind]; [|done].
      destruct (is_listed_company _); [done|].
      destruct (is_government_owned _); [done|].
      destruct (is_it_excluded _); [done|]. by destruct tc. }
    split; [done|]. split; [done|].
    intros update_dict c Hrow.
    destruct (process_bo_status_lookup row i j update_dict c Hi Hj Hrow)
      as (o & Ho & ->).
    destruct o as [s|]; [|done]. simpl. intros [= Hs].
    apply reg_status_text_UK in Hs as ->. by apply Hnot.
  - intros Hex s legal_form Hlf Hs Hload Htext Hmatch Hnat.
    apply not_raised_done in Hnat as [tc Htc].
    assert (Hbo : bo_status row i j = Done (Some UK)).
    { rewrite Hst. unfold classify_corporate, uk_checks.
      rewrite Hex, Hlf, (legal_form_in_uk_match s legal_form Hs Hload Htext Hmatch).
      cbn [bind]. by rewrite Htc. }
    split; [done|].
    intros update_dict c Hrow.
    destruct (process_bo_status_lookup row i j update_dict c Hi Hj Hrow)
      as (o & Ho & ->).
    rewrite Hbo in Ho. by injection Ho as <-.
Qed.

(** The witness of [uk_legal_form_gives_UK]: a company registered in
    England and Wales whose address names Jersey before the end of the
    text, and the same company with an address that ends in Jersey. *)
Lemma uk_legal_form_witness :
  let legal_form :=
    [(py "legal_authority", JStr (py "Companies Act 2006"));
     (py "country_registered", JStr (py "England and Wales"))] in
  let natures_text :=
    Some (Sample.sample_str
            (JList [JStr (py "ownership-of-shares-more-than-25-percent-registered-overseas-entity")])) in
  let row address :=
    Sample.bo_row "corporate-entity-beneficial-owner" address
      (Some (Sample.sample_dumps (JObj legal_form))) natures_text in
  let classify address :=
    match @process_bo_status ascii_only Sample.words Sample.parsers Sample.fuzzy
            Sample.geometry Sample.reference_data (row address) with
    | Done (update_dict, _) => Some (update_dict !! BO 1 1 f_reg_status)
    | Raise _ => None
    end in
  classify "Jersey House, 1 Jersey Street, London" = Some (Some (Some (py "UK")))
  /\ classify "1 Seaton Place, St Helier, Jersey" = Some (Some (Some (py "suspect"))).
Proof.
  intros legal_form natures_text row classify.
  assert (Hin : 1 ∈ slots) by (apply list_elem_of_In; simpl; tauto).
  assert (Hkind : strip (py "corporate-entity-beneficial-owner") ∈ corporate_kinds).
  { vm_compute. apply list_elem_of_In. simpl. tauto. }
  split.
  - destruct (@uk_legal_form_gives_UK ascii_only Sample.words Sample.parsers
                Sample.fuzzy Sample.geometry Sample.reference_data
                (row "Jersey House, 1 Jersey Street, London") 1 1
                (py "corporate-entity-beneficial-owner")
                Hin Hin eq_refl ltac:(discriminate) Hkind) as [_ Huk].
    destruct (Huk ltac:(vm_compute; reflexivity)
                (Sample.sample_dumps (JObj legal_form)) legal_form
                eq_refl ltac:(vm_compute; discriminate) ltac:(vm_compute; reflexivity))
      as [_ Hrow].
    + intros k Hk. apply list_elem_of_In in Hk. simpl in Hk.
      destruct Hk as [<- | [<- | [<- | []]]]; vm_compute; eauto.
    + exists "country_registered"%string, (py "England and Wales").
      split; [apply list_elem_of_In; simpl; tauto|]. split; [reflexivity|].
      split; [discriminate|]. vm_compute. reflexivity.
    + vm_compute. tauto.
    + unfold classify.
      destruct (@process_bo_status ascii_only Sample.words Sample.parsers Sample.fuzzy
                  Sample.geometry Sample.reference_data
                  (row "Jersey House, 1 Jersey Street, London"))
        as [[update_dict c]|e] eqn:Hp; [|by vm_compute in Hp].
      by rewrite (Hrow update_dict c eq_refl).
  - vm_compute. reflexivity.
Defined.

(** C5, the claim as stated: the same company, registered in England
    and Wales and with an address in London, whose stored natures of
    control do not parse: the classification raises and no status is
    assigned. *)
Lemma uk_legal_form_with_malformed_natures_raises :
  let legal_form :=
    [(py "legal_authority", JStr (py "Companies Act 2006"));
     (py "country_registered", JStr (py "England and Wales"))] in
  let row :=
    Sample.bo_row "corporate-entity-beneficial-owner" "1 High Street, London"
      (Some (Sample.sample_dumps (JObj legal_form))) (Some (py "[")) in
  @address_excluded ascii_only (row (BO 1 1 f_address)) = false
  /\ @is_uk_a_fuzzy_match ascii_only Sample.fuzzy (py "England and Wales") = true
  /\ @legal_form_in_uk ascii_only Sample.parsers Sample.fuzzy (row (BO 1 1 f_legal_form))
     = Done true
  /\ @process_bo_status ascii_only Sample.words Sample.parsers Sample.fuzzy
       Sample.geometry Sample.reference_data row
     = Raise (Invalid_natures_of_control (Some (py "NGL107005")) 1 1 (py "[")).
Proof. intros legal_form row. repeat (split; [vm_compute; reflexivity|]). vm_compute. reflexivity. Qed.

(** The witness of [normalised_text_is_one_token]: a title in capitals
    with another legal form, for the query "Gable Enterprises Limited". *)
Lemma normalised_text_witness :
  let title := JStr (py "GABLE ENTERPRISES LTD") in
  @normalise_text ascii_only Sample.words Sample.gable = py "gableenterprises"
  /\ size (@_token_set ascii_only Sample.words title) <= 1
  /\ (bool_decide (@_token_set ascii_only Sample.words title
                   = list_to_set (split (@normalise_text ascii_only Sample.words Sample.gable)))
      && negb (str_eqb (@normalise_text ascii_only Sample.words Sample.gable) []))
     = str_eqb (@normalise_value ascii_only Sample.words title)
               (@normalise_text ascii_only Sample.words Sample.gable).
Proof.
  intros title. split; [vm_compute; reflexivity|].
  destruct (@normalised_text_is_one_token ascii_only Sample.words
              Sample.gable title Sample.gable) as (_ & _ & Hsize & Htest).
  - vm_compute. discriminate.
  - by split.
Defined.

(* ===================================================================== *)
(** * Part III: further properties                                       *)
(* ===================================================================== *)

(** ** The normaliser: alphabet, token list *)

(** X1. Whatever the text and whatever the Unicode database answers, the
    normalised text holds only the characters a-z and 0-9; so does the
    normal form of any JSON value. *)
Theorem normalise_text_alphabet `{Unicode} `{WordList} (text : str) (v : json) :
  Forall (fun c => is_az09 c = true) (normalise_text text)
  /\ Forall (fun c => is_az09 c = true) (normalise_value v).
Proof.
  split; [apply normalise_text_az09|].
  destruct v; simpl; try constructor. apply normalise_text_az09.
Qed.

Section TokenList.
Context `{Unicode}.

Lemma insert_by_len_perm x l : insert_by_len x l ≡ₚ x :: l.
Proof.
  induction l as [|y l IH]; simpl; [done|].
  destruct (length x <? length y)%nat; [|done].
  rewrite IH. apply Permutation_swap.
Qed.

Lemma insert_by_len_sorted x l :
  StronglySorted (fun a b => length b <= length a) l ->
  StronglySorted (fun a b => length b <= length a) (insert_by_len x l).
Proof.
  induction 1 as [|y l Hs IH Hy]; simpl; [repeat constructor|].
  destruct (length x <? length y)%nat eqn:E.
  - apply Nat.ltb_lt in E. constructor; [done|].
    rewrite insert_by_len_perm. constructor; [lia|done].
  - apply Nat.ltb_ge in E. constructor; [by constructor|].
    constructor; [done|]. eapply Forall_impl; [exact Hy|]. simpl. lia.
Qed.

Lemma insert_by_len_stable n x l :
  List.filter (fun t => length t =? n)%nat (insert_by_len x l)
  = List.filter (fun t => length t =? n)%nat (x :: l).
Proof.
  induction l as [|y l IH]; [done|].
  cbn [insert_by_len]. destruct (length x <? length y)%nat eqn:E; [|done].
  apply Nat.ltb_lt in E. cbn [List.filter] in *. rewrite IH.
  destruct (length x =? n)%nat eqn:Ex, (length y =? n)%nat eqn:Ey; try done.
  apply Nat.eqb_eq in Ex, Ey. lia.
Qed.

End TokenList.

(** X2. The token list is the kept lines (not blank, not a comment),
    stripped and lower-cased, in another order: longest first, and tokens
    of one length in the order of the file. *)
Theorem load_tokens_order `{Unicode} (lines : list str) :
  let kept :=
    map (fun line => lower (strip line))
        (List.filter (fun line => negb (str_eqb (strip line) [])
                                  && negb (startswith (lstrip line) (py "#")))
                     lines) in
  load_tokens lines ≡ₚ kept
  /\ StronglySorted (fun a b => length b <= length a) (load_tokens lines)
  /\ forall n, List.filter (fun t => length t =? n)%nat (load_tokens lines)
               = List.filter (fun t => length t =? n)%nat kept.
Proof.
  intros kept. unfold load_tokens. fold kept. generalize kept. clear kept.
  intros l. unfold sort_by_len_desc.
  induction l as [|x l (IHp & IHs & IHf)]; cbn [foldr].
  - split; [done|split; [constructor|done]].
  - split; [etrans; [apply insert_by_len_perm|by constructor]|].
    split; [by apply insert_by_len_sorted|].
    intros n. rewrite insert_by_len_stable. cbn [List.filter]. by rewrite IHf.
Qed.

(** X3. A name made only of the characters a-z and 0-9 is its own
    normal form, unless it is one of the tokens: then its normal form is
    empty. *)
Theorem lone_word_kept_unless_token `{Unicode} `{WordList} (w : str) :
  Forall (fun c => is_az09 c = true) w ->
  normalise_text w = if bool_decide (w ∈ TOKENS_TO_REMOVE) then [] else w.
Proof. apply normalise_text_of_word. Qed.

Lemma lone_word_witness :
  @normalise_text ascii_only Sample.words (py "gable") = py "gable"
  /\ @normalise_text ascii_only Sample.words (py "limited") = py "".
Proof.
  split.
  - rewrite (@lone_word_kept_unless_token ascii_only Sample.words (py "gable"));
      [reflexivity|]. repeat constructor.
  - rewrite (@lone_word_kept_unless_token ascii_only Sample.words (py "limited"));
      [reflexivity|]. repeat constructor.
Defined.

(** ** The registry client: retries, negative answers, shared names *)

Section RetryFacts.

Lemma fetch_loop_retry req r rest t :
  fetch_retries r = true ->
  fetch_loop req (r :: rest) t
  = fetch_loop req rest (t ++ [Request req; Sleep (pause_after r)]).
Proof.
  destruct r as [|status retry body]; cbn [fetch_loop fetch_retries pause_after];
    intros Hr.
  - by rewrite <- app_assoc.
  - apply andb_true_iff in Hr as [Hr _].
    apply negb_true_iff, bool_decide_eq_false in Hr.
    assert (status <> 200 /\ status <> 404 /\ status <> 403)%Z as (H1 & H2 & H3).
    { repeat split; intros ->; apply Hr; apply list_elem_of_In; simpl; tauto. }
    rewrite (proj2 (Z.eqb_neq _ _) H1), (proj2 (Z.eqb_neq _ _) H2),
      (proj2 (Z.eqb_neq _ _) H3). cbn [orb].
    destruct (status =? 502)%Z, (status =? 429)%Z; by rewrite <- app_assoc.
Qed.

End RetryFacts.

(** X4. The profile and controllers requests are repeated after every
    exception and every status other than 200, 404 and 403, pausing
    30 s after 502, the [Retry-After] seconds (10 without the header)
    after a 429 whose [Retry-After] is absent or a delay that
    [time.sleep] takes, and 10 s otherwise; the answer is the one of the
    first request that is not retried, and there is no bound on the
    number of tries. *)
Theorem fetch_loop_retries (req : request) (failures answers : list response)
    (t : list event) :
  Forall (fun r => fetch_retries r = true) failures ->
  fetch_loop req (failures ++ answers) t
  = fetch_loop req answers
      (t ++ flat_map (fun r => [Request req; Sleep (pause_after r)]) failures)
  /\ fetch_loop req failures t = None.
Proof.
  intros Hf.
  assert (forall answers t,
    fetch_loop req (failures ++ answers) t
    = fetch_loop req answers
        (t ++ flat_map (fun r => [Request req; Sleep (pause_after r)]) failures))
    as Hall.
  { clear answers t. induction Hf as [|r failures Hr _ IH]; intros answers t.
    - by rewrite app_nil_r.
    - cbn [app flat_map]. rewrite fetch_loop_retry by done. rewrite IH.
      by rewrite <- app_assoc. }
  split; [apply Hall|].
  specialize (Hall [] t). rewrite app_nil_r in Hall. by rewrite Hall.
Qed.

Lemma fetch_loop_retries_witness :
  let req := ProfileOf (JStr (py "OE000001")) in
  let failures :=
    [NetworkError; Sample.status_only 502; Http 429 (Some 7%Z) [];
     Sample.status_only 429; Sample.status_only 500] in
  fetch_loop req (failures ++ [Sample.status_only 404; Sample.status_only 200]) []
  = Some (None, [Sample.status_only 200],
          [Request req; Sleep 10; Request req; Sleep 30; Request req; Sleep 7;
           Request req; Sleep 10; Request req; Sleep 10; Request req]).
Proof.
  intros req failures.
  rewrite (proj1 (fetch_loop_retries req failures
                    [Sample.status_only 404; Sample.status_only 200] []
                    ltac:(repeat constructor))).
  reflexivity.
Defined.

(** X5. The search is repeated in the same way after every exception and
    every status other than 200, 416 and 404 (for a 429, when its
    [Retry-After] is absent or a delay that [time.sleep] takes), from the
    same start index. *)
Theorem search_loop_retries `{Unicode} `{WordList} (name q : str)
    (ls : search_state) (failures answers : list response) (t : list event) :
  Forall (fun r => search_retries r = true) failures ->
  search_loop name q ls (failures ++ answers) t
  = search_loop name q ls answers
      (t ++ flat_map (fun r => [Request (Search name items_per_page (start_index ls));
                                Sleep (pause_after r)]) failures)
  /\ search_loop name q ls failures t = None.
Proof.
  intros Hf.
  assert (forall answers t,
    search_loop name q ls (failures ++ answers) t
    = search_loop name q ls answers
        (t ++ flat_map (fun r => [Request (Search name items_per_page (start_index ls));
                                  Sleep (pause_after r)]) failures))
    as Hall.
  { clear answers t. induction Hf as [|r failures Hr _ IH]; intros answers t.
    - by rewrite app_nil_r.
    - cbn [app flat_map]. rewrite search_loop_retry by done. rewrite IH.
      by rewrite <- app_assoc. }
  split; [apply Hall|].
  specialize (Hall [] t). rewrite app_nil_r in Hall. by rewrite Hall.
Qed.

Lemma search_loop_retries_witness :
  let failures := [Sample.status_only 403; NetworkError; Http 429 (Some 3%Z) []] in
  (trace ∘ snd <$>
     @get_company_details ascii_only Sample.words Sample.gable
       (Sample.fresh (failures ++ [Sample.status_only 404])))
  = Some [Request (Search Sample.gable 100 0); Sleep 10;
          Request (Search Sample.gable 100 0); Sleep 10;
          Request (Search Sample.gable 100 0); Sleep 3;
          Request (Search Sample.gable 100 0)].
Proof.
  intros failures. unfold get_company_details.
  change (proprietor_cache (Sample.fresh _) !! _) with (@None (json * json * json * json)).
  cbv iota. change (registry (Sample.fresh ?a)) with a.
  rewrite (proj1 (@search_loop_retries ascii_only Sample.words Sample.gable
                    (@normalise_text ascii_only Sample.words Sample.gable)
                    initial_search failures [Sample.status_only 404] _
                    ltac:(repeat constructor))).
  reflexivity.
Defined.

(** ** Negative answers and the cache of look-ups *)

Section LookupFacts.
Context `{Unicode} `{WordList}.

Lemma find_BOs_for_company_stores name w r w' :
  find_BOs_for_company name w = Some (r, w') ->
  BO_cache w' !! normalise_text name = Some r.
Proof.
  unfold find_BOs_for_company.
  destruct (BO_cache w !! normalise_text name) as [cached|] eqn:Hc.
  { intros [= <- <-]. done. }
  destruct (get_company_details name w) as [[[[[? num] snippet] ?] w1]|]; [|done].
  destruct (negb (truthy num)).
  { intros [= <- <-]. cbn [BO_cache]. apply lookup_insert_eq. }
  destruct (get_company_profile num (registry w1) (trace w1))
    as [[[profile answers2] t2]|]; [|done].
  destruct (get_BO_list num answers2 t2) as [[[bo_json answers3] t3]|]; [|done].
  destruct (objects (py_or (get "items" bo_json) (JList [])));
    intros [= <- <-]; cbn [BO_cache]; apply lookup_insert_eq.
Qed.

Lemma find_BOs_for_company_well_formed name w r w' :
  map_Forall (fun _ => well_formed_result) (BO_cache w) ->
  find_BOs_for_company name w = Some (r, w') ->
  well_formed_result r /\ map_Forall (fun _ => well_formed_result) (BO_cache w').
Proof.
  intros Hw. unfold find_BOs_for_company.
  destruct (BO_cache w !! normalise_text name) as [cached|] eqn:Hc.
  { intros [= <- <-]. split; [|done]. exact (Hw _ _ Hc). }
  destruct (get_company_details name w) as [[[[[? num] snippet] ?] w1]|] eqn:Hd;
    [|done].
  apply get_company_details_keeps in Hd as [_ Hd].
  assert (forall r answers t,
    well_formed_result r ->
    well_formed_result r
    /\ map_Forall (fun _ => well_formed_result)
         (BO_cache {| registry := answers; trace := t;
                      proprietor_cache := proprietor_cache w1;
                      BO_cache := <[normalise_text name := r]> (BO_cache w1) |}))
    as Hfinish.
  { intros r0 answers t Hr. split; [done|]. cbn [BO_cache].
    apply map_Forall_insert_2; [done|]. by rewrite Hd. }
  destruct (truthy num) eqn:Hnum; cbn [negb].
  2:{ intros [= <- <-]. apply Hfinish. done. }
  destruct (get_company_profile num (registry w1) (trace w1))
    as [[[profile answers2] t2]|]; [|done].
  destruct (get_BO_list num answers2 t2) as [[[bo_json answers3] t3]|]; [|done].
  destruct (objects (py_or (get "items" bo_json) (JList []))) eqn:Hitems;
    intros [= <- <-]; apply Hfinish; done.
Qed.

Lemma process_proprietor_well_formed `{Serialisers} record i u w u' w' :
  map_Forall (fun _ => well_formed_result) (BO_cache w) ->
  process_proprietor record i (u, w) = Some (u', w') ->
  map_Forall (fun _ => well_formed_result) (BO_cache w').
Proof.
  intros Hw. unfold process_proprietor.
  destruct (record (proprietor_name i)) as [prop|]; [|by intros [= _ <-]].
  destruct (negb (str_eqb prop []) && negb (str_eqb (strip prop) []));
    [|by intros [= _ <-]].
  destruct (find_BOs_for_company prop w) as [[r w1]|] eqn:Hf; [|done].
  intros [= _ <-]. by apply (find_BOs_for_company_well_formed _ _ _ _ Hw Hf).
Qed.

Lemma for_proprietors_well_formed `{Serialisers} record idx : forall u w u' w',
  map_Forall (fun _ => well_formed_result) (BO_cache w) ->
  for_proprietors record idx (u, w) = Some (u', w') ->
  map_Forall (fun _ => well_formed_result) (BO_cache w').
Proof.
  induction idx as [|i idx IH]; intros u w u' w' Hw; cbn [for_proprietors].
  - by intros [= _ <-].
  - destruct (process_proprietor record i (u, w)) as [[u1 w1]|] eqn:Hp; [|done].
    intros Hrest. eapply IH; [|exact Hrest].
    by eapply process_proprietor_well_formed.
Qed.

End LookupFacts.

Lemma computed_some {A} (o : option A) (a : A) :
  (const tt <$> o) = Some tt -> o = Some (default a o).
Proof. by destruct o. Qed.

(** X6. However long a run has gone on from well-formed cached look-ups,
    every look-up it answers and every look-up it has cached is
    well-formed: "OK" comes with at least one controller and a company
    number, "No BO" with a number and no controller, and "No company
    found" with no controller, no address and no number. *)
Theorem lookups_stay_well_formed `{Unicode} `{WordList} `{Serialisers}
    (ops : list operation) (name : str) (w w1 w2 : world)
    (r : find_status * list (list (list N * json)) * json * json) :
  map_Forall (fun _ => well_formed_result) (BO_cache w) ->
  run ops w = Some w1 ->
  find_BOs_for_company name w1 = Some (r, w2) ->
  well_formed_result r
  /\ map_Forall (fun _ => well_formed_result) (BO_cache w1)
  /\ map_Forall (fun _ => well_formed_result) (BO_cache w2).
Proof.
  intros Hw Hrun Hfind.
  assert (map_Forall (fun _ => well_formed_result) (BO_cache w1)) as Hw1.
  { revert w Hw Hrun. induction ops as [|o ops IH]; intros w Hw; cbn [run].
    - by intros [= <-].
    - destruct (run_operation o w) as [wo|] eqn:Ho; [|done].
      apply IH. destruct o as [n|n|record]; cbn [run_operation] in Ho.
      + destruct (get_company_details n w) as [[r0 w0]|] eqn:Hd; [|done].
        injection Ho as <-. apply get_company_details_keeps in Hd as [_ ->]. done.
      + destruct (find_BOs_for_company n w) as [[r0 w0]|] eqn:Hf; [|done].
        injection Ho as <-. by apply (find_BOs_for_company_well_formed _ _ _ _ Hw Hf).
      + unfold process_row in Ho.
        destruct (for_proprietors record slots (∅, w)) as [[u0 w0]|] eqn:Hf; [|done].
        injection Ho as <-. by eapply for_proprietors_well_formed. }
  destruct (find_BOs_for_company_well_formed _ _ _ _ Hw1 Hfind). done.
Qed.

Lemma lookups_stay_well_formed_witness :
  let w := Sample.fresh (Sample.answers_for Sample.controllers
                         ++ [Sample.status_only 404]) in
  let ops := [ProcessRow (Sample.one_proprietor Sample.gable)] in
  let w1 := default w (@run ascii_only Sample.words Sample.serialisers ops w) in
  let found := @find_BOs_for_company ascii_only Sample.words (py "Other Holdings SA") w1 in
  (fst ∘ fst ∘ fst ∘ fst <$> found) = Some No_company_found
  /\ map_Forall (fun _ => well_formed_result) (BO_cache (default w1 (snd <$> found))).
Proof.
  intros w ops w1 found.
  assert (@run ascii_only Sample.words Sample.serialisers ops w = Some w1) as Hrun.
  { apply computed_some. vm_compute. reflexivity. }
  assert (found = Some (default (No_company_found, [], JNull, JNull) (fst <$> found),
                        default w1 (snd <$> found))) as Hfound.
  { apply computed_pair. vm_compute. reflexivity. }
  split; [vm_compute; reflexivity|].
  apply (@lookups_stay_well_formed ascii_only Sample.words Sample.serialisers
           ops (py "Other Holdings SA") w w1 _ _ ltac:(apply map_Forall_empty)
           Hrun Hfound).
Defined.

(** X7. Two raw names with one normal form share one look-up: after the
    first is answered, the second gets the same answer from the cache,
    with no request and no change of state. *)
Theorem names_share_a_lookup `{Unicode} `{WordList} (a b : str) (w w1 : world)
    (r : find_status * list (list (list N * json)) * json * json) :
  normalise_text a = normalise_text b ->
  find_BOs_for_company a w = Some (r, w1) ->
  find_BOs_for_company b w1 = Some (r, w1).
Proof.
  intros Hab Hfind. apply find_BOs_for_company_stores in Hfind.
  unfold find_BOs_for_company. rewrite <- Hab, Hfind. done.
Qed.

Lemma names_share_a_lookup_witness :
  let w := Sample.fresh (Sample.answers_for Sample.controllers) in
  let first := @find_BOs_for_company ascii_only Sample.words Sample.gable w in
  let w1 := default w (snd <$> first) in
  let r := default (No_company_found, [], JNull, JNull) (fst <$> first) in
  fst (fst (fst r)) = OK
  /\ @find_BOs_for_company ascii_only Sample.words (py "GABLE  Enterprises, LTD.") w1
     = Some (r, w1).
Proof.
  intros w first w1 r.
  assert (first = Some (r, w1)) as Hfirst.
  { apply computed_pair. vm_compute. reflexivity. }
  split; [vm_compute; reflexivity|].
  apply (@names_share_a_lookup ascii_only Sample.words Sample.gable
           (py "GABLE  Enterprises, LTD.") w w1 r); [|exact Hfirst].
  vm_compute. reflexivity.
Defined.

(** X8. A search that finds nothing (404, 416, or a first page with no
    item) costs one request; no profile and no controllers are asked
    for, and the negative answer is kept in both caches. *)
Theorem empty_search_is_cached `{Unicode} `{WordList} (name : str) (w : world)
    (r : response) (rest : list response) :
  let q := normalise_text name in
  BO_cache w !! q = None ->
  proprietor_cache w !! q = None ->
  registry w = r :: rest ->
  (exists retry body,
      r = Http 404 retry body \/ r = Http 416 retry body
      \/ (r = Http 200 retry body /\ page_items body = [])) ->
  find_BOs_for_company name w
  = Some ((No_company_found, [], JNull, JNull),
          {| registry := rest;
             trace := trace w ++ [Request (Search name 100 0)];
             proprietor_cache := <[q := not_found]> (proprietor_cache w);
             BO_cache := <[q := (No_company_found, [], JNull, JNull)]> (BO_cache w) |}).
Proof.
  intros q Hbo Hpc Hreg (retry & body & Hr).
  unfold find_BOs_for_company, get_company_details. fold q.
  rewrite Hbo, Hpc, Hreg.
  destruct Hr as [-> | [-> | [-> Hitems]]]; cbn [search_loop].
  - reflexivity.
  - reflexivity.
  - rewrite Hitems. reflexivity.
Qed.

Lemma empty_search_is_cached_witness :
  let w := Sample.fresh [Sample.page []; Sample.status_only 200] in
  (fst <$> @find_BOs_for_company ascii_only Sample.words Sample.gable w)
  = Some (No_company_found, [], JNull, JNull)
  /\ (requests_of ∘ trace ∘ snd <$>
        @find_BOs_for_company ascii_only Sample.words Sample.gable w)
     = Some [Search Sample.gable 100 0].
Proof.
  intros w.
  rewrite (@empty_search_is_cached ascii_only Sample.words Sample.gable w
             (Sample.page []) [Sample.status_only 200] eq_refl eq_refl eq_refl).
  - split; reflexivity.
  - exists None, [(py "items", JList [])]. right. right. split; reflexivity.
Defined.

(** ** The search when no registered overseas entity matches *)

Section Fallback.
Context `{Unicode} `{WordList}.

Lemma is_strong_oversea_exact (it : list (list N * json)) (company_name : list N) :
  is_strong_oversea it (normalise_text company_name)
  = (true, py "exact name + oversea-company")
  \/ is_strong_oversea it (normalise_text company_name) = (false, py "").
Proof.
  unfold is_strong_oversea.
  destruct (is_str (get "company_type" it) "oversea-company"); simpl; [|by right].
  set (title := py_or _ _).
  destruct (str_eqb (normalise_value title) (normalise_text company_name)) eqn:He;
    [by left|].
  destruct (decide (normalise_text company_name = [])) as [Hq|Hq].
  - assert (Hneg : negb (str_eqb (normalise_text company_name) []) = false).
    { unfold str_eqb. by rewrite bool_decide_eq_true_2. }
    rewrite Hneg, andb_false_r. by right.
  - rewrite token_set_test_is_exact, He by done. by right.
Qed.

Lemma strong_oversea_truthy (it : list (list N * json)) (q : list N) :
  fst (is_strong_oversea it q) = true -> truthy (JObj it) = true.
Proof. by destruct it. Qed.

Lemma track_oversea_fold (company_name : list N) (items : list (list (list N * json))) :
  forall acc,
  settled acc ->
  settled (fold_left (track_oversea (normalise_text company_name)) items acc)
  /\ fst (fold_left (track_oversea (normalise_text company_name)) items acc)
     = match fst acc with
       | Some it => Some it
       | None =>
           List.find (fun it => fst (is_strong_oversea it (normalise_text company_name)))
                     items
       end.
Proof.
  induction items as [|it items IH]; intros [best reason] Hacc; cbn [fold_left].
  - split; [done|]. by destruct best.
  - unfold track_oversea at 2 4. cbn [fst snd List.find].
    pose proof (strong_oversea_truthy it (normalise_text company_name)) as Htruthy.
    destruct (is_strong_oversea_exact it company_name) as [E | E]; rewrite E;
      cbn [fst snd] in *.
    + destruct best as [b|].
      * destruct Hacc as [Hexact Hb]. cbn [fst snd] in *.
        rewrite Hexact. rewrite bool_decide_eq_false_2 by done. cbn [orb andb negb].
        apply (IH (Some b, reason)). done.
      * rewrite bool_decide_eq_true_2 by done. cbn [orb].
        apply (IH (Some it, _)). split; [done|]. apply Htruthy. by rewrite E.
    + destruct (IH (best, reason) Hacc) as [? ->]. split; [done|]. by destruct best.
Qed.

Lemma find_app {A} (f : A -> bool) (l1 l2 : list A) :
  List.find f (l1 ++ l2)
  = match List.find f l1 with
    | Some x => Some x
    | None => List.find f l2
    end.
Proof. induction l1 as [|x l1 IH]; simpl; [done|]. by destruct (f x). Qed.

Lemma search_loop_page name q ls retry body rest t :
  Forall (fun it => fst (is_strong_roe it q) = false) (page_items body) ->
  search_loop name q ls (Http 200 retry body :: rest) t
  = let best := fold_left (track_oversea q) (page_items body)
                          (strong_oversea ls, strong_oversea_reason ls) in
    let next idx :=
      {| start_index := idx; strong_oversea := fst best;
         strong_oversea_reason := snd best;
         first_page_items :=
           if (start_index ls =? 0)%Z then page_items body else first_page_items ls |} in
    let t := t ++ [Request (Search name items_per_page (start_index ls))] in
    if (Z.of_nat (length (page_items body)) <? items_per_page)%Z
    then Some (Broke (next (start_index ls)), rest, t)
    else search_loop name q (next (start_index ls + items_per_page)%Z) rest t.
Proof.
  intros Hno. cbn [search_loop]. change (200 =? 200)%Z with true. cbv iota.
  by rewrite (find_none_Forall _ _ Hno).
Qed.

Lemma search_loop_falls_back (name company_name : list N) retry last rest :
  let q := normalise_text company_name in
  (length (page_items last) < 100)%nat ->
  Forall (fun it => fst (is_strong_roe it q) = false) (page_items last) ->
  forall (pages : list (option Z * list (list N * json))) ls t,
  Forall (fun p => length (page_items (snd p)) = 100%nat
                   /\ Forall (fun it => fst (is_strong_roe it q) = false)
                             (page_items (snd p))) pages ->
  (0 <= start_index ls)%Z ->
  settled (strong_oversea ls, strong_oversea_reason ls) ->
  exists ls' t',
    search_loop name q ls
      (map (fun p => Http 200 (fst p) (snd p)) pages ++ Http 200 retry last :: rest) t
    = Some (Broke ls', rest, t')
    /\ settled (strong_oversea ls', strong_oversea_reason ls')
    /\ strong_oversea ls'
       = match strong_oversea ls with
         | Some it => Some it
         | None =>
             List.find (fun it => fst (is_strong_oversea it q))
                       (flat_map (fun p => page_items (snd p)) pages ++ page_items last)
         end
    /\ first_page_items ls'
       = (if (start_index ls =? 0)%Z
          then page_items (snd (hd (retry, last) pages))
          else first_page_items ls)
    /\ requests_of t'
       = requests_of t ++ page_requests name (start_index ls) (S (length pages)).
Proof.
  intros q Hshort Hlast pages.
  induction pages as [|[ra b] pages IH]; intros ls t Hpages Hstart Hacc.
  - cbn [map app flat_map hd snd length]. rewrite search_loop_page by done. cbv zeta.
    assert ((Z.of_nat (length (page_items last)) <? items_per_page)%Z = true) as ->.
    { apply Z.ltb_lt. unfold items_per_page. lia. }
    destruct (track_oversea_fold company_name (page_items last) _ Hacc) as [Hs Hf].
    eexists _, _. split; [reflexivity|]. cbn [strong_oversea strong_oversea_reason
      first_page_items]. split; [by destruct (fold_left _ _ _)|].
    split; [exact Hf|]. split; [done|].
    rewrite requests_of_app. done.
  - inversion Hpages as [|? ? [Hlen Hno] Hpages']; subst. cbn [snd] in Hlen, Hno.
    cbn [map app fst snd]. rewrite search_loop_page by done. cbv zeta.
    rewrite Hlen. change (Z.of_nat 100 <? items_per_page)%Z with false. cbv iota.
    destruct (track_oversea_fold company_name (page_items b) _ Hacc) as [Hs Hf].
    fold q in Hs, Hf.
    set (best := fold_left (track_oversea q) (page_items b) _) in *.
    edestruct (IH {| start_index := start_index ls + items_per_page;
                     strong_oversea := fst best;
                     strong_oversea_reason := snd best;
                     first_page_items :=
                       if (start_index ls =? 0)%Z then page_items b
                       else first_page_items ls |})
      as (ls' & t' & -> & Hs' & Hf' & Hfirst & Hreq); [exact Hpages'| | |].
    { cbn [start_index]. unfold items_per_page. lia. }
    { cbn [strong_oversea strong_oversea_reason]. by destruct best. }
    exists ls', t'. split; [done|]. split; [done|].
    cbn [strong_oversea strong_oversea_reason first_page_items start_index] in *.
    split; [|split].
    + rewrite Hf', Hf. cbn [flat_map fst snd]. rewrite <- app_assoc, !find_app.
      destruct (strong_oversea ls); [done|]. by destruct (List.find _ (page_items b)).
    + rewrite Hfirst. cbn [hd snd].
      assert ((start_index ls + items_per_page =? 0)%Z = false) as ->; [|done].
      apply Z.eqb_neq. unfold items_per_page. lia.
    + rewrite Hreq, requests_of_app. cbn [length page_requests].
      by rewrite <- app_assoc.
Qed.

End Fallback.

(** X9. When the pages of a search (full pages, then a short one) hold
    no registered overseas entity with the company's normalised name,
    the answer is the first oversea-company with that normalised name,
    in page order; failing that, the first item of the first page, of
    either overseas type, whose snippet names it; failing that, nothing.
    One request is made per page.  The snippets of the first page are
    taken to be text, as the registry sends them: on another value that
    is not empty the code raises. *)
Theorem search_falls_back_in_order `{Unicode} `{WordList}
    (company_name : str) (w : world)
    (pages : list (option Z * list (str * json)))
    (retry : option Z) (last : list (str * json)) (rest : list response) :
  let q := normalise_text company_name in
  proprietor_cache w !! q = None ->
  registry w
  = map (fun p => Http 200 (fst p) (snd p)) pages ++ Http 200 retry last :: rest ->
  Forall (fun p => length (page_items (snd p)) = 100%nat
                   /\ Forall (fun it => fst (is_strong_roe it q) = false)
                             (page_items (snd p))) pages ->
  (length (page_items last) < 100)%nat ->
  Forall (fun it => fst (is_strong_roe it q) = false) (page_items last) ->
  Forall (fun it => exists snippet,
                      py_or (get_default "snippet" (JStr []) it) (JStr []) = JStr snippet)
         (page_items (snd (hd (retry, last) pages))) ->
  exists w',
    get_company_details company_name w
    = Some (match List.find (fun it => fst (is_strong_oversea it q))
                    (flat_map (fun p => page_items (snd p)) pages ++ page_items last) with
            | Some it => details_of it
            | None =>
                match List.find (snippet_match q)
                        (page_items (snd (hd (retry, last) pages))) with
                | Some item => details_of item
                | None => not_found
                end
            end, w')
    /\ registry w' = rest
    /\ requests_of (trace w')
       = requests_of (trace w) ++ page_requests company_name 0 (S (length pages)).
Proof.
  intros q Hcache Hreg Hpages Hshort Hlast _.
  destruct (search_loop_falls_back company_name company_name retry last rest
              Hshort Hlast pages initial_search (trace w) Hpages)
    as (ls' & t' & Hloop & Hs & Hf & Hfirst & Hreq); [done|done|].
  unfold get_company_details. fold q. rewrite Hcache, Hreg. fold q in Hloop.
  rewrite Hloop.
  assert (after_search q ls'
          = match List.find (fun it => fst (is_strong_oversea it q))
                    (flat_map (fun p => page_items (snd p)) pages ++ page_items last) with
            | Some it => details_of it
            | None =>
                match List.find (snippet_match q)
                        (page_items (snd (hd (retry, last) pages))) with
                | Some item => details_of item
                | None => not_found
                end
            end) as <-.
  { unfold after_search.
    cbn [initial_search strong_oversea start_index] in Hf, Hfirst.
    change (0 =? 0)%Z with true in Hfirst. cbv iota in Hfirst.
    fold q in Hf. rewrite Hfirst.
    unfold settled in Hs. cbn [fst snd] in Hs. rewrite Hf in Hs. rewrite Hf.
    destruct (List.find _ (_ ++ _)); [|done].
    destruct Hs as [_ ->]. done. }
  eexists. split; [reflexivity|]. split; [reflexivity|exact Hreq].
Qed.

Lemma search_falls_back_witness :
  let junk := Sample.item "ltd" "Gable Holdings Ltd" "01234567" in
  let first := [(None, [(py "items", JList (map JObj (repeat junk 100)))])] in
  let last :=
    [(py "items",
      JList (map JObj
               [Sample.item "ltd" "Gable Enterprises Limited" "07654321";
                Sample.item "oversea-company" "GABLE ENTERPRISES LTD" "FC000001";
                Sample.item "oversea-company" "Gable Enterprises Limited" "FC000002"]))] in
  let w := Sample.fresh (map (fun p => Http 200 (fst p) (snd p)) first
                         ++ Http 200 None last :: [Sample.status_only 404]) in
  exists r w',
    @get_company_details ascii_only Sample.words Sample.gable w = Some (r, w')
    /\ snd (fst (fst r)) = JStr (py "FC000001")
    /\ requests_of (trace w')
       = [Search Sample.gable 100 0; Search Sample.gable 100 100].
Proof.
  intros junk first last w.
  destruct (@search_falls_back_in_order ascii_only Sample.words Sample.gable w
              first None last [Sample.status_only 404]) as (w' & Hget & _ & Hreq).
  - reflexivity.
  - reflexivity.
  - repeat constructor.
  - vm_compute. lia.
  - repeat constructor.
  - change (page_items (snd (hd (None, last) first))) with (repeat junk 100).
    apply Forall_forall. intros it Hit.
    apply list_elem_of_In, repeat_spec in Hit as ->. by exists [].
  - eexists _, w'. split; [exact Hget|]. split; [vm_compute; reflexivity|exact Hreq].
Defined.

(** ** The columns of the row's update *)

Section RowColumns.
Context `{Unicode} `{WordList} `{Serialisers}.

Local Abbreviation tidy u :=
  ((forall k, is_Some (u !! k) -> assigned_column k = true)
   /\ (forall i v, u !! proprietor_address i = Some v -> truthy v = true)).

Lemma fold_left_preserves {X S} (P : S -> Prop) (f : S -> X -> S) (l : list X) :
  (forall u x, x ∈ l -> P u -> P (f u x)) ->
  forall u, P u -> P (fold_left f l u).
Proof.
  induction l as [|x l IH]; intros Hf u Hu; cbn [fold_left]; [done|].
  apply IH.
  - intros u' x' Hx'. apply Hf. by apply list_elem_of_further.
  - apply Hf; [apply list_elem_of_here|done].
Qed.

Lemma tidy_insert (u : gmap col json) k v :
  tidy u -> assigned_column k = true ->
  (forall i, k = proprietor_address i -> truthy v = true) ->
  tidy (<[k := v]> u).
Proof.
  intros [Hdom Haddr] Hk Hv. split.
  - intros k'. destruct (decide (k' = k)) as [->|Hne]; [done|].
    rewrite lookup_insert_ne by done. apply Hdom.
  - intros i v'. destruct (decide (proprietor_address i = k)) as [<-|Hne].
    + rewrite lookup_insert_eq. intros [= <-]. by apply (Hv i).
    + rewrite lookup_insert_ne by done. apply Haddr.
Qed.

Lemma assigned_slot i j f :
  i ∈ slots -> j ∈ slots -> f ∈ stored_fields -> assigned_column (BO i j f) = true.
Proof.
  intros Hi Hj Hf. cbn [assigned_column].
  by rewrite !bool_decide_eq_true_2 by done.
Qed.

Lemma clear_fields_tidy i (u : gmap col json) :
  i ∈ slots -> tidy u -> tidy (clear_fields i u).
Proof.
  intros Hi Hu. unfold clear_fields.
  apply tidy_insert; [|cbn; by apply bool_decide_eq_true_2|done].
  apply tidy_insert; [|cbn; by apply bool_decide_eq_true_2|done].
  apply (fold_left_preserves (fun u : gmap col json => tidy u)); [|done].
  intros u1 j Hj Hu1. unfold clear_slot.
  apply (fold_left_preserves (fun u : gmap col json => tidy u)); [|done].
  intros u2 f Hf Hu2. apply tidy_insert; [done|by apply assigned_slot|done].
Qed.

Lemma enumerated_slots (l : list (list (list N * json))) jbo :
  jbo ∈ enumerate_from_1 (take 4 l) -> fst jbo ∈ slots.
Proof.
  destruct jbo as [j bo]. unfold enumerate_from_1. intros Hin.
  apply elem_of_zip_l, elem_of_seq in Hin. rewrite length_take in Hin. cbn [fst].
  assert (j = 1 \/ j = 2 \/ j = 3 \/ j = 4) as Hj by lia.
  apply list_elem_of_In. destruct Hj as [-> | [-> | [-> | ->]]]; simpl; tauto.
Qed.

Lemma record_result_tidy i result (u : gmap col json) :
  i ∈ slots -> tidy u -> tidy (record_result i result u).
Proof.
  intros Hi Hu. destruct result as [[[status bos] reg_address] comp_number].
  unfold record_result.
  assert (tidy (if truthy reg_address
                then <[proprietor_address i := reg_address]> u else u)) as Hu1.
  { destruct (truthy reg_address) eqn:Ht; [|done].
    apply tidy_insert; [done|cbn; by apply bool_decide_eq_true_2|].
    by intros i' [= ->]. }
  set (u1 := if truthy reg_address then _ else _) in *.
  assert (forall v, tidy (if truthy comp_number
                          then <[proprietor_number i := v]> u1 else u1)) as Hu2.
  { intros v. destruct (truthy comp_number); [|done].
    apply tidy_insert; [done|cbn; by apply bool_decide_eq_true_2|done]. }
  destruct status.
  - apply (fold_left_preserves (fun u : gmap col json => tidy u)); [|apply Hu2].
    intros u3 jbo Hjbo Hu3. unfold store_bo.
    apply (fold_left_preserves (fun u : gmap col json => tidy u)); [|done].
    intros u4 f Hf Hu4. apply tidy_insert; [done| |done].
    apply assigned_slot; [done| |done]. by eapply enumerated_slots.
  - apply tidy_insert; [apply Hu2|cbn; by apply bool_decide_eq_true_2|done].
  - apply tidy_insert; [apply Hu2|cbn; by apply bool_decide_eq_true_2|done].
Qed.

Lemma insert_keeps (u : gmap col json) k k' v :
  is_Some (u !! k) -> is_Some (<[k' := v]> u !! k).
Proof. intros Hk. apply lookup_insert_is_Some'. by right. Qed.

Lemma clear_fields_keeps i (u : gmap col json) k :
  is_Some (u !! k) -> is_Some (clear_fields i u !! k).
Proof.
  intros Hk. unfold clear_fields. do 2 apply insert_keeps.
  apply (fold_left_preserves (fun u : gmap col json => is_Some (u !! k))); [|done].
  intros u1 j _ Hu1. unfold clear_slot.
  apply (fold_left_preserves (fun u : gmap col json => is_Some (u !! k))); [|done].
  intros u2 f _ Hu2. by apply insert_keeps.
Qed.

Lemma record_result_keeps i result (u : gmap col json) k :
  is_Some (u !! k) -> is_Some (record_result i result u !! k).
Proof.
  intros Hk. destruct result as [[[status bos] reg_address] comp_number].
  unfold record_result.
  assert (is_Some ((if truthy reg_address
                    then <[proprietor_address i := reg_address]> u else u) !! k))
    as Hu1.
  { destruct (truthy reg_address); [by apply insert_keeps|done]. }
  set (u1 := if truthy reg_address then _ else _) in *.
  assert (forall v, is_Some ((if truthy comp_number
                              then <[proprietor_number i := v]> u1 else u1) !! k))
    as Hu2.
  { intros v. destruct (truthy comp_number); [by apply insert_keeps|done]. }
  destruct status.
  - apply (fold_left_preserves (fun u : gmap col json => is_Some (u !! k)));
      [|apply Hu2].
    intros u3 jbo _ Hu3. unfold store_bo.
    apply (fold_left_preserves (fun u : gmap col json => is_Some (u !! k))); [|done].
    intros u4 f _ Hu4. by apply insert_keeps.
  - apply insert_keeps, Hu2.
  - apply insert_keeps, Hu2.
Qed.

Lemma clear_fields_number i (u : gmap col json) :
  clear_fields i u !! proprietor_number i = Some JNull.
Proof. unfold clear_fields. apply lookup_insert_eq. Qed.

Lemma process_proprietor_columns record i u w u' w' :
  i ∈ slots ->
  process_proprietor record i (u, w) = Some (u', w') ->
  (tidy u -> tidy u')
  /\ (forall k, is_Some (u !! k) -> is_Some (u' !! k))
  /\ is_Some (u' !! proprietor_BO_failure i)
  /\ is_Some (u' !! proprietor_number i)
  /\ (forall j f, j ∈ slots -> f ∈ stored_fields -> is_Some (u' !! BO i j f)).
Proof.
  intros Hi. unfold process_proprietor.
  assert (is_Some (clear_fields i u !! proprietor_BO_failure i)) as Hf.
  { rewrite clear_fields_failure. by eexists. }
  assert (is_Some (clear_fields i u !! proprietor_number i)) as Hn.
  { rewrite clear_fields_number. by eexists. }
  assert (forall j f, j ∈ slots -> f ∈ stored_fields ->
                      is_Some (clear_fields i u !! BO i j f)) as Hs.
  { intros j f Hj Hfd. rewrite clear_fields_slot by done. by eexists. }
  assert (forall r,
    (tidy u -> tidy (record_result i r (clear_fields i u)))
    /\ (forall k, is_Some (u !! k) ->
                  is_Some (record_result i r (clear_fields i u) !! k))
    /\ is_Some (record_result i r (clear_fields i u) !! proprietor_BO_failure i)
    /\ is_Some (record_result i r (clear_fields i u) !! proprietor_number i)
    /\ (forall j f, j ∈ slots -> f ∈ stored_fields ->
          is_Some (record_result i r (clear_fields i u) !! BO i j f))) as Hfound.
  { intros r. split; [|split; [|split; [|split]]].
    - intros Hu. by apply record_result_tidy, clear_fields_tidy.
    - intros k Hk. by apply record_result_keeps, clear_fields_keeps.
    - by apply record_result_keeps.
    - by apply record_result_keeps.
    - intros j f Hj Hfd. by apply record_result_keeps, Hs. }
  assert ((tidy u -> tidy (clear_fields i u))
    /\ (forall k, is_Some (u !! k) -> is_Some (clear_fields i u !! k))
    /\ is_Some (clear_fields i u !! proprietor_BO_failure i)
    /\ is_Some (clear_fields i u !! proprietor_number i)
    /\ (forall j f, j ∈ slots -> f ∈ stored_fields ->
          is_Some (clear_fields i u !! BO i j f))) as Hblank.
  { split; [|split; [|done]].
    - intros Hu. by apply clear_fields_tidy.
    - intros k Hk. by apply clear_fields_keeps. }
  destruct (record (proprietor_name i)) as [prop|]; [|by intros [= <- <-]].
  destruct (negb (str_eqb prop []) && negb (str_eqb (strip prop) []));
    [|by intros [= <- <-]].
  destruct (find_BOs_for_company prop w) as [[r w1]|]; [|done].
  intros [= <- <-]. apply Hfound.
Qed.

Lemma for_proprietors_columns record idx : forall u w u' w',
  (forall i, i ∈ idx -> i ∈ slots) ->
  for_proprietors record idx (u, w) = Some (u', w') ->
  (tidy u -> tidy u')
  /\ (forall k, is_Some (u !! k) -> is_Some (u' !! k))
  /\ (forall i, i ∈ idx ->
        is_Some (u' !! proprietor_BO_failure i)
        /\ is_Some (u' !! proprietor_number i)
        /\ (forall j f, j ∈ slots -> f ∈ stored_fields -> is_Some (u' !! BO i j f))).
Proof.
  induction idx as [|i idx IH]; intros u w u' w' Hidx; cbn [for_proprietors].
  - intros [= <- <-]. split; [done|]. split; [done|]. intros i Hi. by inversion Hi.
  - destruct (process_proprietor record i (u, w)) as [[u1 w1]|] eqn:Hp; [|done].
    intros Hrest.
    apply process_proprietor_columns in Hp as (Ht & Hk & Hf & Hn & Hs);
      [|apply Hidx, list_elem_of_here].
    apply IH in Hrest as (Ht' & Hk' & Hall);
      [|intros i' Hi'; by apply Hidx, list_elem_of_further].
    split; [tauto|]. split; [by intros k Hu; apply Hk', Hk|].
    intros i' Hi'. apply list_elem_of_In in Hi'. destruct Hi' as [<- | Hi'].
    + split; [by apply Hk'|]. split; [by apply Hk'|].
      intros j f Hj Hfd. by apply Hk', Hs.
    + by apply Hall, list_elem_of_In.
Qed.

Lemma record_result_failed_slot i status bos reg_address comp_number u j f :
  status <> OK -> j ∈ slots -> f ∈ stored_fields ->
  record_result i (status, bos, reg_address, comp_number) (clear_fields i u) !! BO i j f
  = Some JNull.
Proof.
  intros Hst Hj Hf. unfold record_result.
  assert (Hbase : forall v,
    (let update := if truthy reg_address
                   then <[proprietor_address i := reg_address]> (clear_fields i u)
                   else clear_fields i u in
     if truthy comp_number
     then <[proprietor_number i := v]> update else update)
    !! BO i j f = Some JNull).
  { intros v. cbv zeta. destruct (truthy reg_address), (truthy comp_number);
      rewrite ?lookup_insert_ne by done; by apply clear_fields_slot. }
  destruct status; [done| |]; rewrite lookup_insert_ne by done; apply Hbase.
Qed.

Lemma for_proprietors_address record idx : forall u w u' w' i,
  for_proprietors record idx (u, w) = Some (u', w') ->
  i ∉ idx ->
  u' !! proprietor_address i = u !! proprietor_address i
  /\ u' !! proprietor_number i = u !! proprietor_number i.
Proof.
  induction idx as [|i' idx IH]; intros u w u' w' i; cbn [for_proprietors].
  - by intros [= <- <-].
  - destruct (process_proprietor record i' (u, w)) as [[u1 w1]|] eqn:Hp; [|done].
    intros Hrest Hi. apply not_elem_of_cons in Hi as [Hne Hi].
    destruct (IH _ _ _ _ i Hrest Hi) as [-> ->].
    split; eapply process_proprietor_other; try exact Hp; try done;
      intros E; injection E; done.
Qed.

End RowColumns.

(** X10. The update of a row names the same columns whatever was
    found: the seven stored fields of all sixteen slots, the failure and
    the number of all four proprietors, and the status, which is
    "BOs added"; a proprietor's address is named only with a non-empty
    value; no other column (names, coordinates, registration status,
    title) is ever named. *)
Theorem row_update_columns `{Unicode} `{WordList} `{Serialisers}
    (record : col -> option (list N)) (w w' : world) (upd : gmap col json) :
  process_row record w = Some (upd, w') ->
  (forall k, is_Some (upd !! k) -> assigned_column k = true)
  /\ (forall k, assigned_column k = true -> (forall i, k <> proprietor_address i) ->
                is_Some (upd !! k))
  /\ (forall i v, upd !! proprietor_address i = Some v -> truthy v = true)
  /\ upd !! row_status = Some (JStr (py "BOs added")).
Proof.
  unfold process_row.
  destruct (for_proprietors record slots (∅, w)) as [[u w1]|] eqn:Hfor; [|done].
  intros [= <- <-].
  apply for_proprietors_columns in Hfor as (Htidy & _ & Hall); [|done].
  destruct Htidy as [Hdom Haddr].
  { split; [|done]. intros k [v Hk]. by rewrite lookup_empty in Hk. }
  split; [|split; [|split]].
  - intros k. destruct (decide (k = row_status)) as [->|Hne]; [done|].
    rewrite lookup_insert_ne by done. apply Hdom.
  - intros k Hk Hna. apply lookup_insert_is_Some'.
    destruct k as [| |i|i|i|i|i j f]; cbn [assigned_column] in Hk; try done.
    + by left.
    + by destruct (Hna i).
    + right. apply bool_decide_eq_true_1 in Hk.
      destruct (Hall i Hk) as (_ & Hn & _). exact Hn.
    + right. apply bool_decide_eq_true_1 in Hk.
      destruct (Hall i Hk) as (Hf & _ & _). exact Hf.
    + right. apply andb_true_iff in Hk as [Hk Hf].
      apply andb_true_iff in Hk as [Hi Hj].
      apply bool_decide_eq_true_1 in Hi, Hj, Hf.
      destruct (Hall i Hi) as (_ & _ & Hs). exact (Hs j f Hj Hf).
  - intros i v. rewrite lookup_insert_ne by done. apply Haddr.
  - apply lookup_insert_eq.
Qed.

Lemma row_update_columns_witness :
  let record := Sample.one_proprietor Sample.gable in
  let w := Sample.fresh (Sample.answers_for Sample.controllers) in
  let row := @process_row ascii_only Sample.words Sample.serialisers record w in
  let upd := default ∅ (fst <$> row) in
  is_Some (upd !! BO 1 1 f_name)
  /\ is_Some (upd !! BO 4 4 f_is_sanctioned)
  /\ is_Some (upd !! proprietor_number 3)
  /\ upd !! BO 1 1 f_reg_status = None
  /\ upd !! BO 1 1 f_latlon = None
  /\ upd !! proprietor_name 1 = None.
Proof.
  intros record w row upd.
  assert (row = Some (upd, default w (snd <$> row))) as Hrow.
  { apply computed_pair. vm_compute. reflexivity. }
  destruct (@row_update_columns ascii_only Sample.words Sample.serialisers
              record w _ upd Hrow) as (Hdom & Hset & _ & _).
  assert (forall k, assigned_column k = false -> upd !! k = None) as Hnot.
  { intros k Hk. destruct (upd !! k) as [v|] eqn:E; [|reflexivity].
    assert (assigned_column k = true) as Hk'.
    { apply Hdom. rewrite E. by eexists. }
    rewrite Hk in Hk'. discriminate. }
  split; [by apply Hset|]. split; [by apply Hset|]. split; [by apply Hset|].
  split; [by apply Hnot|]. split; by apply Hnot.
Defined.

(** X11. When the look-up of a named proprietor does not give "OK", its
    failure column holds the status, all seven stored fields of its four
    slots are NULL, and its number is the company number when one was
    found and NULL otherwise. *)
Theorem failed_lookup_is_recorded `{Unicode} `{WordList} `{Serialisers}
    (record : col -> option (list N)) (w wi wi' w' : world) (i : nat)
    (upd0 upd : gmap col json) (prop : list N) (status : find_status)
    (bos : list (list (list N * json))) (reg_address comp_number : json) :
  i ∈ slots ->
  for_proprietors record (take (i - 1) slots) (∅, w) = Some (upd0, wi) ->
  record (proprietor_name i) = Some prop ->
  strip prop <> [] ->
  find_BOs_for_company prop wi = Some ((status, bos, reg_address, comp_number), wi') ->
  status <> OK ->
  process_row record w = Some (upd, w') ->
  upd !! proprietor_BO_failure i = Some (JStr (status_text status))
  /\ (forall j f, j ∈ slots -> f ∈ stored_fields -> upd !! BO i j f = Some JNull)
  /\ upd !! proprietor_number i
     = Some (if truthy comp_number then JStr (str_of comp_number) else JNull).
Proof.
  intros Hi Hbefore Hname Hblank Hfind Hst Hrow.
  destruct (slots_split i Hi) as [Hsplit Hnotin].
  unfold process_row in Hrow.
  rewrite Hsplit, for_proprietors_app, Hbefore in Hrow.
  cbn [for_proprietors] in Hrow.
  rewrite (process_proprietor_found record i upd0 wi prop _ wi' Hname Hblank Hfind) in Hrow.
  destruct (for_proprietors record (drop i slots) _) as [[u4 w4]|] eqn:Hrest; [|done].
  injection Hrow as <- <-.
  split; [|split].
  - rewrite lookup_insert_ne by done.
    destruct (for_proprietors_other _ _ _ _ _ _ i 1 f_name Hrest Hnotin) as [_ ->].
    rewrite record_result_failure. by destruct status.
  - intros j f Hj Hf. rewrite lookup_insert_ne by done.
    destruct (for_proprietors_other _ _ _ _ _ _ i j f Hrest Hnotin) as [-> _].
    by apply record_result_failed_slot.
  - rewrite lookup_insert_ne by done.
    destruct (for_proprietors_address _ _ _ _ _ _ i Hrest Hnotin) as [_ ->].
    unfold record_result.
    destruct status; [done| |]; rewrite lookup_insert_ne by done;
      (destruct (truthy comp_number);
       [apply lookup_insert_eq|
        destruct (truthy reg_address); rewrite ?lookup_insert_ne by done;
        apply clear_fields_number]).
Qed.

Lemma failed_lookup_witness :
  let record := Sample.one_proprietor Sample.gable in
  let w := Sample.fresh (Sample.answers_for []) in
  let row := @process_row ascii_only Sample.words Sample.serialisers record w in
  let upd := default ∅ (fst <$> row) in
  upd !! proprietor_BO_failure 1 = Some (JStr (py "No BO"))
  /\ upd !! BO 1 1 f_name = Some JNull
  /\ upd !! proprietor_number 1 = Some (JStr (py "OE000001")).
Proof.
  intros record w row upd.
  assert (row = Some (upd, default w (snd <$> row))) as Hrow.
  { apply computed_pair. vm_compute. reflexivity. }
  set (found := @find_BOs_for_company ascii_only Sample.words Sample.gable w).
  assert (found = Some (default (OK, [], JNull, JNull) (fst <$> found),
                        default w (snd <$> found))) as Hfound.
  { apply computed_pair. vm_compute. reflexivity. }
  assert (default (OK, [], JNull, JNull) (fst <$> found)
          = (No_BO, [], JStr (py "1 High Street, Road Town, Tortola"),
             JStr (py "OE000001"))) as Hres.
  { vm_compute. reflexivity. }
  rewrite Hres in Hfound.
  destruct (@failed_lookup_is_recorded ascii_only Sample.words Sample.serialisers
              record w w _ _ 1 ∅ upd Sample.gable No_BO [] _ _
              ltac:(apply list_elem_of_In; simpl; tauto) eq_refl eq_refl
              ltac:(vm_compute; discriminate) Hfound ltac:(discriminate) Hrow)
    as (Hf & Hs & Hn).
  split; [exact Hf|]. split; [|exact Hn].
  apply Hs; apply list_elem_of_In; simpl; tauto.
Defined.

(** X12. A proprietor with no name (NULL, empty or blank) is not looked
    up: its failure, its number and the stored fields of its four slots
    are NULL, and its address is not named in the update. *)
Theorem unnamed_proprietor_is_cleared `{Unicode} `{WordList} `{Serialisers}
    (record : col -> option (list N)) (w w' : world) (i : nat)
    (upd : gmap col json) :
  i ∈ slots ->
  (record (proprietor_name i) = None
   \/ exists prop, record (proprietor_name i) = Some prop /\ strip prop = []) ->
  process_row record w = Some (upd, w') ->
  upd !! proprietor_BO_failure i = Some JNull
  /\ upd !! proprietor_number i = Some JNull
  /\ (forall j f, j ∈ slots -> f ∈ stored_fields -> upd !! BO i j f = Some JNull)
  /\ upd !! proprietor_address i = None.
Proof.
  intros Hi Hname Hrow.
  destruct (slots_before i Hi) as (Hsplit & Hless & Hnotin & _).
  unfold process_row in Hrow. rewrite Hsplit, for_proprietors_app in Hrow.
  destruct (for_proprietors record (take (i - 1) slots) (∅, w)) as [[u0 w0]|] eqn:Hbefore;
    [|done].
  cbn [for_proprietors] in Hrow.
  assert (process_proprietor record i (u0, w0) = Some (clear_fields i u0, w0)) as Hp.
  { unfold process_proprietor. destruct Hname as [-> | (prop & -> & Hblank)]; [done|].
    rewrite Hblank. unfold str_eqb at 2. rewrite bool_decide_eq_true_2 by done.
    by rewrite andb_false_r. }
  rewrite Hp in Hrow.
  destruct (for_proprietors record (drop i slots) _) as [[u4 w4]|] eqn:Hrest; [|done].
  injection Hrow as <- <-.
  rewrite !lookup_insert_ne by done.
  destruct (for_proprietors_other _ _ _ _ _ _ i 1 f_name Hrest Hnotin) as [_ ->].
  destruct (for_proprietors_address _ _ _ _ _ _ i Hrest Hnotin) as [-> ->].
  split; [apply clear_fields_failure|]. split; [apply clear_fields_number|].
  split.
  - intros j f Hj Hf. rewrite lookup_insert_ne by done.
    destruct (for_proprietors_other _ _ _ _ _ _ i j f Hrest Hnotin) as [-> _].
    by apply clear_fields_slot.
  - rewrite clear_fields_other by done.
    assert (i ∉ take (i - 1) slots) as Hnot.
    { intros Hin. apply Hless in Hin. lia. }
    destruct (for_proprietors_address _ _ _ _ _ _ i Hbefore Hnot) as [-> _]. done.
Qed.

Lemma unnamed_proprietor_witness :
  let record := Sample.one_proprietor Sample.gable in
  let w := Sample.fresh (Sample.answers_for Sample.controllers) in
  let row := @process_row ascii_only Sample.words Sample.serialisers record w in
  let upd := default ∅ (fst <$> row) in
  upd !! proprietor_BO_failure 2 = Some JNull
  /\ upd !! BO 2 1 f_name = Some JNull
  /\ upd !! proprietor_address 2 = None.
Proof.
  intros record w row upd.
  assert (row = Some (upd, default w (snd <$> row))) as Hrow.
  { apply computed_pair. vm_compute. reflexivity. }
  destruct (@unnamed_proprietor_is_cleared ascii_only Sample.words Sample.serialisers
              record w _ 2 upd ltac:(apply list_elem_of_In; simpl; tauto)
              ltac:(left; reflexivity) Hrow) as (Hf & _ & Hs & Ha).
  split; [exact Hf|]. split; [|exact Ha].
  apply Hs; apply list_elem_of_In; simpl; tauto.
Defined.

(** ** The update of the classifier *)

Section UpdateFacts.
Context `{Unicode} `{WordList} `{Parsers} `{Fuzzy} `{Geometry} `{ReferenceData}.

Lemma for_each_invariant {A} (P : A -> Prop) (step : A -> nat -> result A) l :
  (forall acc x acc', x ∈ l -> P acc -> step acc x = Done acc' -> P acc') ->
  forall acc acc', P acc -> for_each step acc l = Done acc' -> P acc'.
Proof.
  induction l as [|x l IH]; intros Hstep acc acc' Hacc; cbn [for_each].
  - by intros [= <-].
  - destruct (step acc x) as [a|] eqn:Hx; cbn [bind]; [|done].
    apply IH.
    + intros acc0 y acc1 Hy. apply Hstep. by apply list_elem_of_further.
    + eapply Hstep; [apply list_elem_of_here|exact Hacc|exact Hx].
Qed.

Lemma classify_corporate_range row i j s :
  classify_corporate row i j = Done s ->
  s ∈ [UK; listed; government_owned; manually_checked; trustee; suspect].
Proof.
  unfold classify_corporate.
  destruct (uk_checks _ _ _) as [in_uk|]; cbn [bind]; [|done].
  destruct (trustee_control _ _ _ _) as [t|]; cbn [bind]; [|done].
  intros [= <-]. apply list_elem_of_In.
  destruct in_uk; [simpl; tauto|].
  destruct (is_listed_company _); [simpl; tauto|].
  destruct (is_government_owned _); [simpl; tauto|].
  destruct (is_it_excluded _); [simpl; tauto|].
  destruct t; simpl; tauto.
Qed.

(** The failure column of proprietor [i] is written by the step of
    proprietor [i] only, and there by the re-examination only. *)
Lemma proprietor_step_failure row i' acc acc' i :
  proprietor_step row acc i' = Done acc' ->
  fst acc' !! proprietor_BO_failure i
  = reexamine_no_bo row i' (fst acc) !! proprietor_BO_failure i.
Proof.
  unfold proprietor_step. intros Hs.
  by rewrite (bo_steps_frame _ _ _ _ _ _ Hs) by done.
Qed.

Lemma reexamine_other row i' u i :
  i' <> i ->
  reexamine_no_bo row i' u !! proprietor_BO_failure i = u !! proprietor_BO_failure i.
Proof.
  intros Hne. unfold reexamine_no_bo. destruct (bool_decide _); [|done].
  destruct (_ || _); [|done]. rewrite lookup_insert_ne; [done|]. by intros [=].
Qed.

Lemma proprietor_steps_failure row l i : forall acc acc',
  for_each (proprietor_step row) acc l = Done acc' ->
  (forall i', i' ∈ l -> i' <> i) ->
  fst acc' !! proprietor_BO_failure i = fst acc !! proprietor_BO_failure i.
Proof.
  induction l as [|i' l IH]; intros acc acc'; cbn [for_each].
  - by intros [= <-].
  - destruct (proprietor_step row acc i') as [a|] eqn:Hs; cbn [bind]; [|done].
    intros Hrest Hk.
    rewrite (IH _ _ Hrest) by (intros; apply Hk; by apply list_elem_of_further).
    rewrite (proprietor_step_failure _ _ _ _ _ Hs).
    apply reexamine_other, Hk, list_elem_of_here.
Qed.

Lemma bo_steps_tally row i (l0 : list nat) l : forall acc acc',
  (forall j, j ∈ l -> j ∈ l0) ->
  for_each (bo_step row i) acc l = Done acc' ->
  exists os,
    Forall2 (fun j o => j ∈ l0 /\ bo_status row i j = Done o) l os
    /\ snd acc' = fold_left tally os (snd acc).
Proof.
  induction l as [|j l IH]; intros acc acc' Hl; cbn [for_each].
  - intros [= <-]. exists []. split; [constructor|done].
  - unfold bo_step at 1.
    destruct (bo_status row i j) as [o|] eqn:Ho; cbn [bind]; [|done].
    intros Hrest.
    assert (forall j', j' ∈ l -> j' ∈ l0) as Hl'.
    { intros j' Hj'. by apply Hl, list_elem_of_further. }
    destruct o as [s|]; cbn [bind] in Hrest;
      destruct (IH _ _ Hl' Hrest) as (os & Hos & ->).
    + exists (Some s :: os). split; [|done].
      constructor; [|done]. split; [apply Hl, list_elem_of_here|done].
    + exists (None :: os). split; [|done].
      constructor; [|done]. split; [apply Hl, list_elem_of_here|done].
Qed.

Lemma proprietor_steps_tally row (l0 : list nat) l : forall acc acc',
  (forall i, i ∈ l -> i ∈ l0) ->
  for_each (proprietor_step row) acc l = Done acc' ->
  exists oss,
    Forall2 (fun i os =>
               i ∈ l0
               /\ Forall2 (fun j o => j ∈ slots /\ bo_status row i j = Done o) slots os)
            l oss
    /\ snd acc' = fold_left tally (concat oss) (snd acc).
Proof.
  induction l as [|i l IH]; intros acc acc' Hl; cbn [for_each].
  - intros [= <-]. exists []. split; [constructor|done].
  - destruct (proprietor_step row acc i) as [a|] eqn:Hs; cbn [bind]; [|done].
    intros Hrest. unfold proprietor_step in Hs.
    apply (bo_steps_tally row i slots) in Hs as (os & Hos & Ha); [|done].
    assert (forall i', i' ∈ l -> i' ∈ l0) as Hl'.
    { intros i' Hi'. by apply Hl, list_elem_of_further. }
    destruct (IH _ _ Hl' Hrest) as (oss & Hoss & ->).
    exists (os :: oss). split.
    + constructor; [|done]. split; [apply Hl, list_elem_of_here|done].
    + cbn [concat]. rewrite fold_left_app, Ha. done.
Qed.

Lemma tally_counts os : forall c,
  listed_exclusions (fold_left tally os c)
  = listed_exclusions c + length (List.filter (fun o => bool_decide (o = Some listed)) os)
  /\ government_exclusions (fold_left tally os c)
     = government_exclusions c
       + length (List.filter (fun o => bool_decide (o = Some government_owned)) os)
  /\ manual_exclusion_count (fold_left tally os c)
     = manual_exclusion_count c
       + length (List.filter (fun o => bool_decide (o = Some manually_checked)) os)
  /\ trustees (fold_left tally os c)
     = trustees c + length (List.filter (fun o => bool_decide (o = Some trustee)) os).
Proof.
  induction os as [|o os IH]; intros c; cbn [fold_left List.filter].
  - cbn [length]. rewrite !Nat.add_0_r. done.
  - destruct (IH (tally c o)) as (-> & -> & -> & ->).
    destruct o as [[]|]; cbn [tally count listed_exclusions government_exclusions
      manual_exclusion_count trustees];
      repeat split; repeat case_bool_decide; try discriminate; try congruence;
      cbn [length]; lia.
Qed.

Lemma reg_status_text_inj s1 s2 : reg_status_text s1 = reg_status_text s2 -> s1 = s2.
Proof. destruct s1, s2; intros E; try reflexivity; discriminate E. Qed.

Lemma count_columns (u : gmap col (option (list N))) s oss : forall l,
  Forall2 (fun i os =>
             i ∈ slots
             /\ Forall2 (fun j o =>
                           j ∈ slots
                           /\ u !! BO i j f_reg_status
                              = (fun s => Some (reg_status_text s)) <$> o)
                        slots os)
          l oss ->
  length (List.filter
            (fun k => bool_decide (u !! k = Some (Some (reg_status_text s))))
            (flat_map (fun i => map (fun j => BO i j f_reg_status) slots) l))
  = length (List.filter (fun o => bool_decide (o = Some s)) (concat oss)).
Proof.
  intros l Hall. induction Hall as [|i os l oss [Hi Hos] _ IH];
    cbn [flat_map concat]; [done|].
  rewrite !List.filter_app, !length_app, IH. f_equal. clear IH.
  induction Hos as [|j o js os [Hj Hlook] _ IH]; cbn [map List.filter]; [done|].
  rewrite Hlook.
  destruct (decide (o = Some s)) as [->|Hne].
  - cbn [fmap option_fmap option_map].
    rewrite !bool_decide_eq_true_2 by done. cbn [length]. by rewrite IH.
  - rewrite (bool_decide_eq_false_2 (o = Some s)) by done.
    rewrite bool_decide_eq_false_2; [done|].
    destruct o as [s'|]; cbn [fmap option_fmap option_map]; [|done].
    intros [= E]. apply reg_status_text_inj in E. congruence.
Qed.

End UpdateFacts.

(** X13. The registration status written for a slot follows its kind:
    nothing is written for a slot with no kind; an individual and a
    super-secure owner get their status whatever the other columns hold;
    an unknown kind is "suspect"; a corporate kind gets one of the six
    other statuses, never "individual" or "super-secure". *)
Theorem status_follows_kind
    `{Unicode} `{WordList} `{Parsers} `{Fuzzy} `{Geometry} `{ReferenceData}
    (row : col -> option (list N)) (i j : nat)
    (update_dict : gmap col (option (list N))) (c : counters) :
  i ∈ slots -> j ∈ slots ->
  process_bo_status row = Done (update_dict, c) ->
  match row (BO i j f_kind) with
  | None | Some [] => update_dict !! BO i j f_reg_status = None
  | Some kind =>
      (strip kind = py "individual-beneficial-owner" ->
         update_dict !! BO i j f_reg_status = Some (Some (py "individual")))
      /\ (strip kind = py "super-secure-beneficial-owner" ->
            update_dict !! BO i j f_reg_status = Some (Some (py "super-secure")))
      /\ (strip kind ∈ corporate_kinds ->
            exists s,
              s ∈ [UK; listed; government_owned; manually_checked; trustee; suspect]
              /\ update_dict !! BO i j f_reg_status = Some (Some (reg_status_text s)))
      /\ (strip kind
            ∉ py "individual-beneficial-owner" :: py "super-secure-beneficial-owner"
              :: corporate_kinds ->
          update_dict !! BO i j f_reg_status = Some (Some (py "suspect")))
  end.
Proof.
  intros Hi Hj Hrow.
  destruct (process_bo_status_lookup row i j update_dict c Hi Hj Hrow)
    as (o & Hbo & ->).
  unfold bo_status in Hbo.
  destruct (row (BO i j f_kind)) as [[|k0 kind]|]; [by injection Hbo as <-| |
    by injection Hbo as <-].
  set (k := strip (k0 :: kind)) in *.
  split; [|split; [|split]].
  - intros Hk. rewrite Hk in Hbo. by injection Hbo as <-.
  - intros Hk. rewrite Hk in Hbo. by injection Hbo as <-.
  - intros Hk. destruct (corporate_kind_branch k Hk) as [E1 E2].
    rewrite E1, E2, bool_decide_eq_true_2 in Hbo by done.
    destruct (classify_corporate row i j) as [s|] eqn:Hc; cbn [bind] in Hbo; [|done].
    injection Hbo as <-. exists s. split; [|done].
    by eapply classify_corporate_range.
  - intros Hk. apply not_elem_of_cons in Hk as [E1 Hk].
    apply not_elem_of_cons in Hk as [E2 Hk].
    unfold str_eqb in Hbo.
    rewrite !bool_decide_eq_false_2 in Hbo by done. by injection Hbo as <-.
Qed.

Lemma status_follows_kind_witness :
  let row := Sample.bo_row "individual-beneficial-owner"
               "1 High Street, Road Town, Tortola" None (Some (py "[")) in
  let classified :=
    @process_bo_status ascii_only Sample.words Sample.parsers Sample.fuzzy
      Sample.geometry Sample.reference_data row in
  let update_dict := match classified with Done (u, _) => u | Raise _ => ∅ end in
  update_dict !! BO 1 1 f_reg_status = Some (Some (py "individual"))
  /\ update_dict !! BO 1 2 f_reg_status = None.
Proof.
  intros row classified update_dict.
  assert (classified
          = Done (update_dict,
                  match classified with Done (_, c) => c | Raise _ => no_counts end))
    as Hrow.
  { assert (match classified with Done _ => true | Raise _ => false end = true) as Hd.
    { vm_compute. reflexivity. }
    unfold update_dict. by destruct classified as [[u c]|]. }
  assert (1%nat ∈ slots /\ 2%nat ∈ slots) as [H1 H2].
  { split; apply list_elem_of_In; simpl; tauto. }
  split.
  - pose proof (@status_follows_kind ascii_only Sample.words Sample.parsers
                  Sample.fuzzy Sample.geometry Sample.reference_data
                  row 1 1 update_dict _ H1 H1 Hrow) as Hs.
    cbv beta iota in Hs. apply Hs. vm_compute. reflexivity.
  - exact (@status_follows_kind ascii_only Sample.words Sample.parsers
             Sample.fuzzy Sample.geometry Sample.reference_data
             row 1 2 update_dict _ H1 H2 Hrow).
Defined.

(** X14. The update of a row that is classified names nothing but
    registration-status columns, each with one of the eight status
    texts, and failure columns, each with NULL and only for a proprietor
    recorded with "No BO". *)
Theorem update_dict_entries
    `{Unicode} `{WordList} `{Parsers} `{Fuzzy} `{Geometry} `{ReferenceData}
    (row : col -> option (list N))
    (update_dict : gmap col (option (list N))) (c : counters)
    (k : col) (v : option (list N)) :
  process_bo_status row = Done (update_dict, c) ->
  update_dict !! k = Some v ->
  (exists i j s, i ∈ slots /\ j ∈ slots /\ k = BO i j f_reg_status
                 /\ v = Some (reg_status_text s))
  \/ (exists i, i ∈ slots /\ k = proprietor_BO_failure i /\ v = None
                /\ row (proprietor_BO_failure i) = Some (py "No BO")).
Proof.
  intros Hrow. revert k v.
  pose (P := fun acc : gmap col (option (list N)) * counters =>
    forall k v, fst acc !! k = Some v ->
    (exists i j s, i ∈ slots /\ j ∈ slots /\ k = BO i j f_reg_status
                   /\ v = Some (reg_status_text s))
    \/ (exists i, i ∈ slots /\ k = proprietor_BO_failure i /\ v = None
                  /\ row (proprietor_BO_failure i) = Some (py "No BO"))).
  change (P (update_dict, c)).
  unfold process_bo_status in Hrow.
  refine (for_each_invariant P _ _ _ _ _ _ Hrow);
    [|by intros k v; cbn [fst]; rewrite lookup_empty].
  clear. intros acc i acc' Hi Hacc Hstep. unfold proprietor_step in Hstep.
  refine (for_each_invariant P _ _ _ _ _ _ Hstep).
  - clear acc acc' Hacc Hstep. intros acc j acc' Hj Hacc. unfold bo_step.
    destruct (bo_status row i j) as [[s|]|]; cbn [bind]; [| |done].
    + intros [= <-] k v. cbn [fst].
      destruct (decide (k = BO i j f_reg_status)) as [->|Hne].
      * rewrite lookup_insert_eq. intros [= <-]. left. by exists i, j, s.
      * rewrite lookup_insert_ne by done. apply Hacc.
    + by intros [= <-].
  - intros k v. cbn [fst]. unfold reexamine_no_bo.
    destruct (bool_decide _) eqn:Hno; [|apply Hacc].
    destruct (_ || _); [|apply Hacc].
    apply bool_decide_eq_true_1 in Hno.
    destruct (decide (k = proprietor_BO_failure i)) as [->|Hne].
    + rewrite lookup_insert_eq. intros [= <-]. right. by exists i.
    + rewrite lookup_insert_ne by done. apply Hacc.
Qed.

Lemma update_dict_entries_witness :
  let row := Sample.bo_row "individual-beneficial-owner"
               "1 High Street, Road Town, Tortola" None (Some (py "[")) in
  let classified :=
    @process_bo_status ascii_only Sample.words Sample.parsers Sample.fuzzy
      Sample.geometry Sample.reference_data row in
  let update_dict := match classified with Done (u, _) => u | Raise _ => ∅ end in
  update_dict !! BO 1 1 f_kind = None
  /\ update_dict !! proprietor_name 1 = None.
Proof.
  intros row classified update_dict.
  assert (classified
          = Done (update_dict,
                  match classified with Done (_, c) => c | Raise _ => no_counts end))
    as Hrow.
  { assert (match classified with Done _ => true | Raise _ => false end = true) as Hd.
    { vm_compute. reflexivity. }
    unfold update_dict. by destruct classified as [[u c]|]. }
  assert (forall k, (forall i j, k <> BO i j f_reg_status) ->
                    (forall i, k <> proprietor_BO_failure i) ->
                    update_dict !! k = None) as Hnot.
  { intros k Hk1 Hk2. destruct (update_dict !! k) as [v|] eqn:E; [|reflexivity].
    destruct (@update_dict_entries ascii_only Sample.words Sample.parsers
                Sample.fuzzy Sample.geometry Sample.reference_data
                row update_dict _ k v Hrow E)
      as [(i & j & s & _ & _ & -> & _) | (i & _ & -> & _)].
    - by destruct (Hk1 i j).
    - by destruct (Hk2 i). }
  split; apply Hnot; intros; discriminate.
Defined.

(** X15. The failure of a proprietor is set to NULL exactly when it was
    recorded as "No BO" and the proprietor's own name is a listed
    company, government-owned or manually excluded; otherwise the update
    does not name the column, so that "No company found" always stays. *)
Theorem no_bo_failure_is_cleared
    `{Unicode} `{WordList} `{Parsers} `{Fuzzy} `{Geometry} `{ReferenceData}
    (row : col -> option (list N)) (i : nat)
    (update_dict : gmap col (option (list N))) (c : counters) :
  i ∈ slots ->
  process_bo_status row = Done (update_dict, c) ->
  update_dict !! proprietor_BO_failure i
  = if bool_decide (row (proprietor_BO_failure i) = Some (py "No BO"))
       && (is_listed_company (row (proprietor_name i))
           || is_government_owned (row (proprietor_name i))
           || is_it_excluded (row (proprietor_name i)))
    then Some None else None.
Proof.
  intros Hi Hrow. unfold process_bo_status in Hrow.
  destruct (slots_before i Hi) as (Hsi & Hlt & _ & Hai).
  rewrite Hsi in Hrow.
  apply for_each_done_split in Hrow as (a1 & a2 & Hbefore & Hstep & Hafter).
  apply proprietor_steps_failure with (i := i) in Hafter; [|done].
  apply proprietor_steps_failure with (i := i) in Hbefore.
  2:{ intros i' Hi'. destruct (Hlt i' Hi'). lia. }
  apply proprietor_step_failure with (i := i) in Hstep.
  cbn [fst] in *. rewrite Hafter, Hstep. unfold reexamine_no_bo.
  rewrite lookup_empty in Hbefore.
  destruct (bool_decide _); cbn [andb]; [|done].
  destruct (_ || _); [|done]. apply lookup_insert_eq.
Qed.

Lemma no_bo_failure_witness :
  let row (c : col) :=
    match c with
    | proprietor_name 1 => Some (py "Ministry of Finance (Government of Ruritania)")
    | proprietor_BO_failure 1 => Some (py "No BO")
    | proprietor_name 2 => Some (py "Ministry of Finance (Government of Ruritania)")
    | proprietor_BO_failure 2 => Some (py "No company found")
    | _ => None
    end in
  let classified :=
    @process_bo_status ascii_only Sample.words Sample.parsers Sample.fuzzy
      Sample.geometry Sample.reference_data row in
  let update_dict := match classified with Done (u, _) => u | Raise _ => ∅ end in
  update_dict !! proprietor_BO_failure 1 = Some None
  /\ update_dict !! proprietor_BO_failure 2 = None.
Proof.
  intros row classified update_dict.
  assert (classified
          = Done (update_dict,
                  match classified with Done (_, c) => c | Raise _ => no_counts end))
    as Hrow.
  { assert (match classified with Done _ => true | Raise _ => false end = true) as Hd.
    { vm_compute. reflexivity. }
    unfold update_dict. by destruct classified as [[u c]|]. }
  assert (1%nat ∈ slots /\ 2%nat ∈ slots) as [H1 H2].
  { split; apply list_elem_of_In; simpl; tauto. }
  split.
  - rewrite (@no_bo_failure_is_cleared ascii_only Sample.words Sample.parsers
               Sample.fuzzy Sample.geometry Sample.reference_data
               row 1 update_dict _ H1 Hrow).
    vm_compute. reflexivity.
  - rewrite (@no_bo_failure_is_cleared ascii_only Sample.words Sample.parsers
               Sample.fuzzy Sample.geometry Sample.reference_data
               row 2 update_dict _ H2 Hrow).
    vm_compute. reflexivity.
Defined.

(** X16. Each of the four counters of a row equals the number of
    registration-status columns that the update sets to its status:
    "listed", "government-owned", "manually checked", "trustee".  A
    proprietor whose failure is cleared is not counted. *)
Theorem counters_count_statuses
    `{Unicode} `{WordList} `{Parsers} `{Fuzzy} `{Geometry} `{ReferenceData}
    (row : col -> option (list N))
    (update_dict : gmap col (option (list N))) (c : counters) :
  process_bo_status row = Done (update_dict, c) ->
  let number_of (status : reg_status) :=
    length (List.filter
              (fun k => bool_decide (update_dict !! k
                                     = Some (Some (reg_status_text status))))
              (flat_map (fun i => map (fun j => BO i j f_reg_status) slots) slots)) in
  listed_exclusions c = number_of listed
  /\ government_exclusions c = number_of government_owned
  /\ manual_exclusion_count c = number_of manually_checked
  /\ trustees c = number_of trustee.
Proof.
  intros Hrow number_of.
  pose proof Hrow as Hloop. unfold process_bo_status in Hloop.
  apply (proprietor_steps_tally row slots) in Hloop as (oss & Hoss & Hc); [|done].
  cbn [snd] in Hc.
  assert (Forall2 (fun i os =>
             i ∈ slots
             /\ Forall2 (fun j o =>
                           j ∈ slots
                           /\ update_dict !! BO i j f_reg_status
                              = (fun s => Some (reg_status_text s)) <$> o)
                        slots os) slots oss) as Hlook.
  { eapply Forall2_impl; [exact Hoss|]. intros i os [Hi Hos]. split; [done|].
    eapply Forall2_impl; [exact Hos|]. intros j o [Hj Hbo]. split; [done|].
    destruct (process_bo_status_lookup row i j update_dict c Hi Hj Hrow)
      as (o' & Hbo' & ->).
    rewrite Hbo in Hbo'. by injection Hbo' as <-. }
  destruct (tally_counts (concat oss) no_counts) as (Hl & Hg & Hm & Ht).
  rewrite <- Hc in Hl, Hg, Hm, Ht. unfold number_of.
  rewrite !(count_columns update_dict _ oss slots Hlook).
  cbn [no_counts listed_exclusions government_exclusions manual_exclusion_count
       trustees] in Hl, Hg, Hm, Ht.
  rewrite Hl, Hg, Hm, Ht. done.
Qed.

Lemma counters_count_statuses_witness :
  let natures_text :=
    Some (Sample.sample_str
            (JList [JStr (py "right-to-appoint-and-remove-directors-as-trust-registered-overseas-entity")])) in
  let row := Sample.bo_row "corporate-entity-beneficial-owner"
               "1 High Street, Road Town, Tortola" None natures_text in
  let classified :=
    @process_bo_status ascii_only Sample.words Sample.parsers Sample.fuzzy
      Sample.geometry Sample.reference_data row in
  let update_dict := match classified with Done (u, _) => u | Raise _ => ∅ end in
  let c := match classified with Done (_, c) => c | Raise _ => no_counts end in
  update_dict !! BO 1 1 f_reg_status = Some (Some (py "trustee"))
  /\ trustees c
     = length (List.filter
                 (fun k => bool_decide (update_dict !! k = Some (Some (py "trustee"))))
                 (flat_map (fun i => map (fun j => BO i j f_reg_status) slots) slots)).
Proof.
  intros natures_text row classified update_dict c.
  assert (classified = Done (update_dict, c)) as Hrow.
  { assert (match classified with Done _ => true | Raise _ => false end = true) as Hd.
    { vm_compute. reflexivity. }
    unfold update_dict, c. by destruct classified as [[u c']|]. }
  split; [vm_compute; reflexivity|].
  exact (proj2 (proj2 (proj2
           (@counters_count_statuses ascii_only Sample.words Sample.parsers
              Sample.fuzzy Sample.geometry Sample.reference_data
              row update_dict c Hrow)))).
Defined.

(** ** Workers and the single writer *)

Section DispatchFacts.
Context `{Unicode} `{WordList} `{Parsers} `{Fuzzy} `{Geometry} `{ReferenceData}.

Lemma for_each_ext_in {A} (step1 step2 : A -> nat -> result A) l :
  (forall x, x ∈ l -> forall acc, step1 acc x = step2 acc x) ->
  forall acc, for_each step1 acc l = for_each step2 acc l.
Proof.
  induction l as [|x l IH]; intros Hext acc; cbn [for_each]; [done|].
  rewrite (Hext x) by apply list_elem_of_here.
  destruct (step2 acc x) as [a|]; cbn [bind]; [|done].
  apply IH. intros y Hy. apply Hext. by apply list_elem_of_further.
Qed.

Lemma minimal_slot i j f :
  i ∈ slots -> j ∈ slots ->
  f ∈ [f_kind; f_address; f_legal_form; f_latlon; f_natures_of_control; f_name] ->
  BO i j f ∈ minimal_columns.
Proof.
  intros Hi Hj Hf. apply list_elem_of_In in Hi, Hj, Hf.
  unfold minimal_columns. apply list_elem_of_further, list_elem_of_In.
  apply in_flat_map. exists i. split; [done|].
  do 2 right. apply in_flat_map. exists j. split; [done|].
  by apply in_map.
Qed.

Lemma minimal_proprietor i :
  i ∈ slots ->
  proprietor_BO_failure i ∈ minimal_columns /\ proprietor_name i ∈ minimal_columns.
Proof.
  intros Hi. apply list_elem_of_In in Hi. unfold minimal_columns.
  split; apply list_elem_of_further, list_elem_of_In; apply in_flat_map;
    exists i; (split; [done|]); simpl; tauto.
Qed.

Lemma process_bo_status_ext (row1 row2 : col -> option (list N)) :
  (forall c, c ∈ minimal_columns -> row1 c = row2 c) ->
  process_bo_status row1 = process_bo_status row2.
Proof.
  intros Hrows. unfold process_bo_status.
  apply for_each_ext_in. intros i Hi acc. unfold proprietor_step.
  destruct (minimal_proprietor i Hi) as [Hf Hn].
  assert (reexamine_no_bo row1 i (fst acc) = reexamine_no_bo row2 i (fst acc)) as ->.
  { unfold reexamine_no_bo. by rewrite (Hrows _ Hf), (Hrows _ Hn). }
  apply for_each_ext_in. intros j Hj acc1. unfold bo_step.
  assert (bo_status row1 i j = bo_status row2 i j) as ->; [|done].
  assert (forall f, f ∈ [f_kind; f_address; f_legal_form; f_latlon;
                         f_natures_of_control; f_name] ->
                    row1 (BO i j f) = row2 (BO i j f)) as Hbo.
  { intros f Hfd. by apply Hrows, minimal_slot. }
  assert (row1 property_title_number = row2 property_title_number) as Ht.
  { apply Hrows, list_elem_of_here. }
  unfold bo_status, classify_corporate.
  rewrite (Hbo f_kind), (Hbo f_address), (Hbo f_legal_form), (Hbo f_latlon),
    (Hbo f_natures_of_control), (Hbo f_name), Ht;
    try (apply list_elem_of_In; simpl; tauto).
  done.
Qed.

Lemma process_bo_status_minimal (row : col -> option (list N)) :
  process_bo_status (_row_to_minimal_dict row) = process_bo_status row.
Proof.
  apply process_bo_status_ext. intros c Hc. unfold _row_to_minimal_dict.
  by rewrite bool_decide_eq_true_2.
Qed.

Lemma add_counters_assoc a b c :
  add_counters (add_counters a b) c = add_counters a (add_counters b c).
Proof. destruct a, b, c. unfold add_counters. cbn. f_equal; lia. Qed.

Lemma add_counters_zero_r a : add_counters a no_counts = a.
Proof. destruct a. unfold add_counters. cbn. f_equal; lia. Qed.

Lemma add_counters_zero_l a : add_counters no_counts a = a.
Proof. by destruct a. Qed.

(** What a loop of [classify_row] does from any start is what it does
    from the empty start, put after the start. *)
Lemma classify_rows_from rows : forall acc,
  classify_rows acc rows
  = match classify_rows ([], no_counts) rows with
    | Done (updates, c) => Done (fst acc ++ updates, add_counters (snd acc) c)
    | Raise e => Raise e
    end.
Proof.
  induction rows as [|r rows IH]; intros [u0 c0]; cbn [classify_rows fst snd].
  - by rewrite app_nil_r, add_counters_zero_r.
  - unfold classify_row. cbn [fst snd].
    destruct (process_bo_status (snd r)) as [[update_dict c]|]; [|done].
    rewrite IH. symmetry. rewrite IH. cbn [fst snd].
    destruct (classify_rows ([], no_counts) rows) as [[u1 c1]|]; [|done].
    rewrite add_counters_zero_l, add_counters_assoc.
    by destruct (bool_decide (update_dict = ∅)); rewrite <- ?app_assoc.
Qed.

Lemma classify_rows_app rows1 rows2 : forall acc,
  classify_rows acc (rows1 ++ rows2)
  = match classify_rows acc rows1 with
    | Done acc' => classify_rows acc' rows2
    | Raise e => Raise e
    end.
Proof.
  induction rows1 as [|r rows1 IH]; intros acc; cbn [app classify_rows]; [done|].
  destruct (classify_row acc r); [apply IH|done].
Qed.

Lemma classify_rows_minimal rows : forall acc,
  classify_rows acc (map (fun r => (fst r, _row_to_minimal_dict (snd r))) rows)
  = classify_rows acc rows.
Proof.
  induction rows as [|r rows IH]; intros acc; cbn [map classify_rows]; [done|].
  unfold classify_row. cbn [fst snd]. rewrite process_bo_status_minimal.
  destruct (process_bo_status (snd r)) as [[update_dict c]|]; [apply IH|done].
Qed.

End DispatchFacts.

Section ChunkFacts.
Context {A : Type}.

Lemma chunk_rows_concat (n : nat) (rows : list A) : forall batch,
  concat (chunk_rows n batch rows) = batch ++ rows.
Proof.
  induction rows as [|row rows IH]; intros batch; cbn [chunk_rows].
  - destruct batch; [done|]. cbn [concat]. by rewrite !app_nil_r.
  - destruct (n <=? length (batch ++ [row])); cbn [concat]; rewrite IH.
    + by rewrite <- app_assoc.
    + by rewrite <- app_assoc.
Qed.

Lemma chunk_rows_sizes (n : nat) (rows : list A) : forall batch,
  length batch < Nat.max 1 n ->
  exists full rest,
    chunk_rows n batch rows = full ++ rest
    /\ Forall (fun c => length c = Nat.max 1 n) full
    /\ (rest = [] \/ exists c, rest = [c] /\ 0 < length c < n).
Proof.
  induction rows as [|row rows IH]; intros batch Hbatch; cbn [chunk_rows].
  - exists []. destruct batch as [|b batch].
    + exists []. split; [done|]. split; [constructor|by left].
    + exists [b :: batch]. split; [done|]. split; [constructor|].
      right. eexists. split; [done|]. cbn [length] in *. lia.
  - destruct (n <=? length (batch ++ [row])) eqn:E.
    + apply Nat.leb_le in E. rewrite length_app in E. cbn [length] in E.
      destruct (IH []) as (full & rest & -> & Hfull & Hrest); [cbn [length]; lia|].
      exists ((batch ++ [row]) :: full), rest. split; [done|]. split; [|done].
      constructor; [|done]. rewrite length_app. cbn [length]. lia.
    + apply Nat.leb_gt in E. rewrite length_app in E. cbn [length] in E.
      apply IH. rewrite length_app. cbn [length]. lia.
Qed.

End ChunkFacts.

(** X17. A row is classified from the columns that the dispatcher copies
    for a worker and from no other: two rows that agree on them get the
    same update, counts or exception, and so does the copy of a row. *)
Theorem classification_reads_copied_columns
    `{Unicode} `{WordList} `{Parsers} `{Fuzzy} `{Geometry} `{ReferenceData}
    (row1 row2 : col -> option (list N)) :
  (forall c, c ∈ minimal_columns -> row1 c = row2 c) ->
  process_bo_status row1 = process_bo_status row2
  /\ process_bo_status (_row_to_minimal_dict row1) = process_bo_status row1.
Proof.
  intros Hrows. split; [by apply process_bo_status_ext|].
  apply process_bo_status_minimal.
Qed.

Lemma classification_reads_copied_columns_witness :
  let row1 := Sample.bo_row "corporate-entity-beneficial-owner"
                "1 High Street, Road Town, Tortola" None None in
  let row2 (c : col) :=
    match c with
    | BO 1 1 f_reg_status => Some (py "UK")
    | BO 1 1 f_ceased => Some (py "True")
    | row_status => Some (py "BOs added")
    | proprietor_address 1 => Some (py "1 High Street, London")
    | _ => row1 c
    end in
  @process_bo_status ascii_only Sample.words Sample.parsers Sample.fuzzy
    Sample.geometry Sample.reference_data row1
  = @process_bo_status ascii_only Sample.words Sample.parsers Sample.fuzzy
      Sample.geometry Sample.reference_data row2.
Proof.
  intros row1 row2.
  apply (@classification_reads_copied_columns ascii_only Sample.words Sample.parsers
           Sample.fuzzy Sample.geometry Sample.reference_data row1 row2).
  intros c Hc.
  destruct c as [| |i|i|i|i|i j f]; try reflexivity.
  - exfalso. revert Hc. apply (bool_decide_eq_false_1 _). vm_compute. reflexivity.
  - destruct i as [|[|i]]; try reflexivity. exfalso. revert Hc.
    apply (bool_decide_eq_false_1 _). vm_compute. reflexivity.
  - destruct i as [|[|i]]; try reflexivity.
    destruct j as [|[|j]]; try reflexivity.
    destruct f; try reflexivity; exfalso; revert Hc;
      apply (bool_decide_eq_false_1 _); vm_compute; reflexivity.
Defined.

(** X18. The dispatcher hands every row out once, in the order of the
    query and as its copy: the batches put end to end are the copied
    rows; no batch is empty; every batch but the last has exactly
    [chunk_size] rows (one row when [chunk_size] is zero), and a last
    short batch has fewer. *)
Theorem chunks_partition_the_rows (rows : list (Z * (col -> option (list N))))
    (chunk_size : nat) (limit : option nat) :
  let chunks := _chunk_generator rows chunk_size limit in
  concat chunks
  = map (fun r => (fst r, _row_to_minimal_dict (snd r))) (limited limit rows)
  /\ Forall (fun c => c <> []) chunks
  /\ exists full rest,
       chunks = full ++ rest
       /\ Forall (fun c => length c = Nat.max 1 chunk_size) full
       /\ (rest = [] \/ exists c, rest = [c] /\ 0 < length c < chunk_size).
Proof.
  intros chunks. unfold chunks, _chunk_generator. split; [apply chunk_rows_concat|].
  destruct (chunk_rows_sizes chunk_size
              (map (fun r => (fst r, _row_to_minimal_dict (snd r))) (limited limit rows))
              []) as (full & rest & Hsplit & Hfull & Hrest); [cbn [length]; lia|].
  split; [|by exists full, rest].
  rewrite Hsplit. apply Forall_app. split.
  - eapply Forall_impl; [exact Hfull|]. intros c Hc ->. cbn [length] in Hc. lia.
  - destruct Hrest as [-> | (c & -> & Hc)]; [constructor|].
    constructor; [|constructor]. intros ->. cbn [length] in Hc. lia.
Qed.

Section WriterFacts.

Lemma flush_pending_accounted s updates c :
  accounted s updates c ->
  accounted (flush_pending s) updates c /\ pending_updates (flush_pending s) = [].
Proof.
  intros (Hu & Ha & Ht & Hne). unfold flush_pending.
  destruct (pending_updates s) as [|x pending] eqn:E.
  { split; [unfold accounted; by rewrite E|exact E]. }
  unfold accounted. cbn [committed pending_updates applied totals].
  rewrite concat_app. cbn [concat]. rewrite !app_nil_r, length_app.
  repeat split; try done.
  - lia.
  - apply Forall_app. split; [done|]. by constructor.
Qed.

Lemma flush_pending_processed s : processed (flush_pending s) = processed s.
Proof. unfold flush_pending. by destruct (pending_updates s). Qed.

Lemma receive_accounted use_wal flush_batch s updates c res :
  accounted s updates c ->
  accounted (receive use_wal flush_batch s res) (updates ++ fst res)
            (add_counters c (snd res)).
Proof.
  intros (Hu & Ha & Ht & Hne). unfold receive.
  set (s1 := {| pending_updates := pending_updates s ++ fst res;
                applied := applied s; totals := totals s;
                processed := processed s; committed := committed s |}).
  assert (accounted s1 (updates ++ fst res) c) as Hs1.
  { unfold accounted, s1. cbn [committed pending_updates applied totals].
    by rewrite app_assoc, Hu. }
  cbv zeta. fold s1.
  destruct (use_wal && negb (flush_batch =? 0) && (flush_batch <=? _)).
  - destruct (flush_pending_accounted s1 _ _ Hs1) as [(Hu' & Ha' & Ht' & Hne') _].
    unfold accounted. cbn [committed pending_updates applied totals].
    by rewrite Ht'.
  - destruct Hs1 as (Hu' & Ha' & Ht' & Hne').
    unfold accounted. cbn [committed pending_updates applied totals].
    by rewrite Ht'.
Qed.

Lemma receive_processed use_wal flush_batch s res :
  processed (receive use_wal flush_batch s res) = processed s + length (fst res).
Proof.
  unfold receive. cbv zeta. cbn [processed].
  destruct (_ && _); [by rewrite flush_pending_processed|done].
Qed.

Lemma drain_processed use_wal flush_batch rs : forall s,
  processed (fst (drain use_wal flush_batch s (map Done rs)))
  = processed s + length (concat (map fst rs)).
Proof.
  induction rs as [|res rs IH]; intros s; cbn [map drain concat fst].
  - rewrite flush_pending_processed. cbn [length]. lia.
  - rewrite IH, receive_processed, length_app. lia.
Qed.

Lemma drain_accounted use_wal flush_batch rs : forall s updates c,
  accounted s updates c ->
  (exists s',
     drain use_wal flush_batch s (map Done rs) = (s', None)
     /\ accounted s' (updates ++ concat (map fst rs))
                  (fold_left add_counters (map snd rs) c)
     /\ pending_updates s' = [])
  /\ forall e rest,
       exists s',
         drain use_wal flush_batch s (map Done rs ++ Raise e :: rest) = (s', Some e)
         /\ accounted s' (updates ++ concat (map fst rs))
                      (fold_left add_counters (map snd rs) c).
Proof.
  induction rs as [|res rs IH]; intros s updates c Hs;
    cbn [map app drain concat fold_left].
  - rewrite app_nil_r. split.
    + exists (flush_pending s). split; [done|]. by apply flush_pending_accounted.
    + intros e rest. by exists s.
  - rewrite app_assoc. apply IH. by apply receive_accounted.
Qed.

Lemma drain_one_transaction use_wal flush_batch rs : forall s,
  use_wal = false \/ flush_batch = 0 ->
  committed s = [] ->
  committed (fst (drain use_wal flush_batch s (map Done rs)))
  = match pending_updates s ++ concat (map fst rs) with
    | [] => []
    | updates => [updates]
    end.
Proof.
  intros s Hoff. revert s.
  induction rs as [|res rs IH]; intros s Hs; cbn [map drain concat fst].
  - rewrite app_nil_r. unfold flush_pending.
    destruct (pending_updates s); [done|]. cbn [committed]. by rewrite Hs.
  - rewrite IH.
    + unfold receive. cbv zeta. cbn [pending_updates].
      assert (use_wal && negb (flush_batch =? 0) = false) as ->.
      { destruct Hoff as [-> | ->]; [done|]. by rewrite andb_false_r. }
      cbn [andb pending_updates]. by rewrite app_assoc.
    + unfold receive. cbv zeta. cbn [pending_updates committed].
      assert (use_wal && negb (flush_batch =? 0) = false) as ->.
      { destruct Hoff as [-> | ->]; [done|]. by rewrite andb_false_r. }
      done.
Qed.

End WriterFacts.

(** X19. The single writer accounts for every update it receives: when
    no worker fails, the transactions put end to end are the updates of
    the batches in the order of arrival, each written once, none left
    pending; the count of applied rows is their number; the totals are
    the sums of the batches' counters; no transaction is empty; and
    without WAL or with a flush size of zero there is one transaction,
    at the end.  When a batch fails its exception leaves the loop: the
    later batches are not read, and what was buffered and not yet
    flushed is never written. *)
Theorem writer_accounts_for_updates (use_wal : bool) (flush_batch : nat)
    (rs : list (list (Z * gmap col (option (list N))) * counters)) :
  (exists s,
     drain use_wal flush_batch writer_start (map Done rs) = (s, None)
     /\ concat (committed s) = concat (map fst rs)
     /\ pending_updates s = []
     /\ applied s = length (concat (map fst rs))
     /\ processed s = applied s
     /\ totals s = fold_left add_counters (map snd rs) no_counts
     /\ Forall (fun tx => tx <> []) (committed s)
     /\ (use_wal = false \/ flush_batch = 0 ->
         committed s = match concat (map fst rs) with
                       | [] => []
                       | updates => [updates]
                       end))
  /\ forall e rest,
       exists s,
         drain use_wal flush_batch writer_start (map Done rs ++ Raise e :: rest)
         = (s, Some e)
         /\ concat (committed s) ++ pending_updates s = concat (map fst rs)
         /\ applied s = length (concat (committed s)).
Proof.
  destruct (drain_accounted use_wal flush_batch rs writer_start [] no_counts)
    as [(s & Hdrain & (Hu & Ha & Ht & Hne) & Hpending) Hraise].
  { repeat split; constructor. }
  pose proof (drain_processed use_wal flush_batch rs writer_start) as Hp.
  rewrite Hdrain in Hp. cbn [fst writer_start processed] in Hp.
  split.
  - exists s. rewrite Hpending, app_nil_r in Hu. cbn [app] in Hu.
    split; [done|]. split; [done|]. split; [done|].
    split; [by rewrite Ha, Hu|]. split; [by rewrite Hp, Ha, Hu|].
    split; [done|]. split; [done|].
    intros Hoff.
    pose proof (drain_one_transaction use_wal flush_batch rs writer_start Hoff eq_refl)
      as Hone.
    by rewrite Hdrain in Hone.
  - intros e rest. destruct (Hraise e rest) as (s' & Hdrain' & Hu' & Ha' & _).
    exists s'. done.
Qed.

Lemma writer_accounts_witness :
  let rs := [([(7%Z, ({[BO 1 1 f_reg_status := Some (py "suspect")]}
                       : gmap col (option (list N))))],
              no_counts);
             ([], no_counts);
             ([(9%Z, ({[BO 1 1 f_reg_status := Some (py "UK")]}
                       : gmap col (option (list N))))],
              no_counts)] in
  length (committed (fst (drain false 0 writer_start (map Done rs)))) = 1%nat.
Proof.
  intros rs.
  destruct (writer_accounts_for_updates false 0 rs)
    as [(s & Hdrain & _ & _ & _ & _ & _ & _ & Hone) _].
  rewrite Hdrain. cbn [fst]. rewrite Hone by (by left). reflexivity.
Defined.

Section ParallelFacts.
Context `{Unicode} `{WordList} `{Parsers} `{Fuzzy} `{Geometry} `{ReferenceData}.

Lemma drain_chunks use_wal flush_batch chunks : forall s updates c,
  accounted s updates c ->
  match classify_rows (updates, c) (concat chunks) with
  | Done (updates', c') =>
      exists s',
        drain use_wal flush_batch s (map worker_process_rows chunks) = (s', None)
        /\ accounted s' updates' c' /\ pending_updates s' = []
  | Raise e =>
      exists s',
        drain use_wal flush_batch s (map worker_process_rows chunks) = (s', Some e)
  end.
Proof.
  induction chunks as [|ch chunks IH]; intros s updates c Hs;
    cbn [concat map drain classify_rows].
  - exists (flush_pending s). split; [done|]. by apply flush_pending_accounted.
  - rewrite classify_rows_app, classify_rows_from. cbn [fst snd].
    unfold worker_process_rows at 1 3.
    destruct (classify_rows ([], no_counts) ch) as [[u1 c1]|e].
    + apply (IH (receive use_wal flush_batch s (u1, c1))).
      by apply receive_accounted.
    + by exists s.
Qed.

End ParallelFacts.

(** X20. The parallel path writes what the sequential path writes: when
    the sequential loop over the rows ends, the transactions of the
    parallel path, put end to end, are the same updates in the same
    order, and the totals are the same counters, whatever the batch size
    and the flush size; when the sequential loop stops at a row that
    raises, the parallel path stops with the same exception. *)
Theorem parallel_agrees_with_sequential
    `{Unicode} `{WordList} `{Parsers} `{Fuzzy} `{Geometry} `{ReferenceData}
    (chunk_size flush_batch : nat) (limit : option nat)
    (rows : list (Z * (col -> option (list N)))) :
  match main_sequential limit rows with
  | Done (updates, c) =>
      exists s,
        main_parallel chunk_size flush_batch limit rows = (s, None)
        /\ concat (committed s) = updates
        /\ pending_updates s = []
        /\ applied s = length updates
        /\ totals s = c
  | Raise e =>
      exists s, main_parallel chunk_size flush_batch limit rows = (s, Some e)
  end.
Proof.
  unfold main_sequential, main_parallel.
  assert (classify_rows ([], no_counts) (limited limit rows)
          = classify_rows ([], no_counts)
              (concat (_chunk_generator rows chunk_size limit))) as ->.
  { unfold _chunk_generator. rewrite chunk_rows_concat. cbn [app].
    symmetry. apply classify_rows_minimal. }
  pose proof (drain_chunks USE_WAL flush_batch (_chunk_generator rows chunk_size limit)
                writer_start [] no_counts) as Hd.
  destruct (classify_rows ([], no_counts) (concat (_chunk_generator rows chunk_size limit)))
    as [[updates c]|e].
  - destruct Hd as (s & Hdrain & (Hu & Ha & Ht & Hne) & Hpending).
    { repeat split; constructor. }
    exists s. rewrite Hpending, app_nil_r in Hu.
    split; [done|]. split; [done|]. split; [done|]. split; [|done].
    by rewrite Ha, Hu.
  - apply Hd. repeat split; constructor.
Qed.

(** ** The two retry loops of the database *)

Section RetryLoops.
Context `{Unicode}.

Lemma commit_loop_locked (answers : nat -> db_answer) (n : nat) :
  forall attempt delay left slept,
  (forall k, k < n ->
     match answers (attempt + k) with
     | DbOperationalError msg => contains (lower msg) (py "database is locked")
     | DbOk => false
     end = true) ->
  n <= left ->
  exists delay',
    commit_loop answers attempt delay left slept
    = commit_loop answers (attempt + n) delay' (left - n)
        (slept ++ backoff_from delay n).
Proof.
  induction n as [|n IH]; intros attempt delay left slept Hlocked Hleft.
  - exists delay. cbn [backoff_from]. by rewrite Nat.add_0_r, Nat.sub_0_r, app_nil_r.
  - destruct left as [|left]; [lia|].
    pose proof (Hlocked 0 ltac:(lia)) as H0. rewrite Nat.add_0_r in H0.
    cbn [commit_loop]. destruct (answers attempt) as [|msg]; [done|]. rewrite H0.
    destruct (IH (S attempt) (py_min (delay * 2) 10) left (slept ++ [delay]))
      as (delay' & ->); [|lia|].
    { intros k Hk. specialize (Hlocked (S k) ltac:(lia)).
      by rewrite Nat.add_succ_r in Hlocked. }
    exists delay'. cbn [backoff_from]. rewrite <- app_assoc. cbn [app].
    replace (S attempt + n) with (attempt + S n) by lia.
    by replace (S left - S n) with (left - n) by lia.
Qed.

Lemma commit_loop_ends (answers : nat -> db_answer) attempt delay left slept :
  left = 0
  \/ match answers attempt with
     | DbOperationalError msg => contains (lower msg) (py "database is locked")
     | DbOk => false
     end = false ->
  commit_loop answers attempt delay left slept
  = match answers attempt with
    | DbOk => Committed slept
    | DbOperationalError msg => Reraised msg slept
    end.
Proof.
  intros Hend. destruct left as [|left]; cbn [commit_loop];
    destruct (answers attempt) as [|msg]; try done.
  - by destruct (contains _ _).
  - destruct Hend as [Hz | ->]; done.
Qed.

Lemma backoff_table n :
  n <= MAX_DB_RETRIES ->
  Forall2 Qeq (backoff_from INITIAL_DB_RETRY_SLEEP n)
          (take n [1 # 2; 1; 2; 4; 8; 10; 10; 10; 10; 10]%Q).
Proof.
  unfold MAX_DB_RETRIES. intros Hn.
  do 11 (destruct n as [|n]; [vm_compute; repeat constructor|]). lia.
Qed.

Lemma update_loop_locked (answers : nat -> db_answer) (n : nat) :
  forall retries left slept,
  (forall k, k < n ->
     match answers (retries + k) with
     | DbOperationalError msg => contains (lower msg) (py "locked")
     | DbOk => false
     end = true) ->
  n <= left ->
  update_loop answers retries left slept
  = update_loop answers (retries + n) (left - n)
      (slept ++ map (fun k => 2 ^ Z.of_nat k)%Z (seq retries n)).
Proof.
  induction n as [|n IH]; intros retries left slept Hlocked Hleft.
  - cbn [seq map]. by rewrite Nat.add_0_r, Nat.sub_0_r, app_nil_r.
  - destruct left as [|left]; [lia|].
    pose proof (Hlocked 0 ltac:(lia)) as H0. rewrite Nat.add_0_r in H0.
    cbn [update_loop]. destruct (answers retries) as [|msg]; [done|]. rewrite H0.
    rewrite IH; [|intros k Hk; specialize (Hlocked (S k) ltac:(lia));
                  by rewrite Nat.add_succ_r in Hlocked|lia].
    cbn [seq map]. rewrite <- app_assoc. cbn [app].
    replace (S retries + n) with (retries + S n) by lia.
    by replace (S left - S n) with (left - n) by lia.
Qed.

End RetryLoops.

(** X21. A commit is tried again only while the database says it is
    locked, at most ten times: after [n] locked answers the commit has
    slept the first [n] of 0.5, 1, 2, 4, 8, 10, 10, 10, 10, 10 seconds,
    and it ends with the next answer: done on success, and the error
    raised again when it is another error or the eleventh locked one. *)
Theorem commit_retries_are_bounded `{Unicode} (answers : nat -> db_answer) (n : nat) :
  let locked k :=
    match answers k with
    | DbOperationalError msg => contains (lower msg) (py "database is locked")
    | DbOk => false
    end in
  (forall k, k < n -> locked k = true) ->
  n = MAX_DB_RETRIES \/ (n < MAX_DB_RETRIES /\ locked n = false) ->
  commit_with_retry answers
  = match answers n with
    | DbOk => Committed (backoff_from INITIAL_DB_RETRY_SLEEP n)
    | DbOperationalError msg => Reraised msg (backoff_from INITIAL_DB_RETRY_SLEEP n)
    end
  /\ Forall2 Qeq (backoff_from INITIAL_DB_RETRY_SLEEP n)
              (take n [1 # 2; 1; 2; 4; 8; 10; 10; 10; 10; 10]%Q).
Proof.
  intros locked Hlocked Hn.
  assert (n <= MAX_DB_RETRIES) as Hle by (destruct Hn as [->|[? _]]; lia).
  split; [|by apply backoff_table].
  unfold commit_with_retry.
  destruct (commit_loop_locked answers n 0 INITIAL_DB_RETRY_SLEEP MAX_DB_RETRIES [])
    as (delay' & ->); [exact Hlocked|done|].
  cbn [plus app]. apply commit_loop_ends.
  destruct Hn as [-> | [_ Hn]]; [left; apply Nat.sub_diag|by right].
Qed.

Lemma commit_retries_witness :
  let answers (k : nat) :=
    if (k <? 3)%nat then DbOperationalError (py "database is locked") else DbOk in
  exists slept,
    @commit_with_retry ascii_only answers = Committed slept
    /\ Forall2 Qeq slept [1 # 2; 1; 2]%Q.
Proof.
  intros answers.
  destruct (@commit_retries_are_bounded ascii_only answers 3) as [Hc Hs].
  - intros k Hk. do 3 (destruct k as [|k]; [reflexivity|]). lia.
  - right. split; [unfold MAX_DB_RETRIES; lia|reflexivity].
  - eexists. split; [exact Hc|exact Hs].
Defined.

(** X22. The update of a row is tried while the database says it is
    locked, at most [max_retries] times, waiting 1, 2, 4, ... seconds
    after each locked answer, the last one included although no try
    follows it; it reports success when a try succeeds, and failure,
    without raising, on any other error or when the tries are used up. *)
Theorem update_retries_are_bounded `{Unicode} (answers : nat -> db_answer)
    (max_retries n : nat) :
  let locked k :=
    match answers k with
    | DbOperationalError msg => contains (lower msg) (py "locked")
    | DbOk => false
    end in
  (forall k, k < n -> locked k = true) ->
  n = max_retries \/ (n < max_retries /\ locked n = false) ->
  update_record_with_retry answers max_retries
  = (if bool_decide (n < max_retries)
     then match answers n with
          | DbOk => true
          | DbOperationalError _ => false
          end
     else false,
     map (fun k => 2 ^ Z.of_nat k)%Z (seq 0 n)).
Proof.
  intros locked Hlocked Hn.
  assert (n <= max_retries) as Hle by (destruct Hn as [->|[? _]]; lia).
  unfold update_record_with_retry.
  rewrite (update_loop_locked answers n 0 max_retries []) by done.
  cbn [plus app].
  destruct Hn as [-> | [Hlt Hn]].
  - rewrite Nat.sub_diag, bool_decide_eq_false_2 by lia. done.
  - rewrite bool_decide_eq_true_2 by done.
    destruct (max_retries - n) as [|left] eqn:E; [lia|]. cbn [update_loop].
    unfold locked in Hn. destruct (answers n) as [|msg]; [done|]. by rewrite Hn.
Qed.

Lemma update_retries_witness :
  let answers (k : nat) := DbOperationalError (py "database is locked") in
  @update_record_with_retry ascii_only answers 5 = (false, [1; 2; 4; 8; 16]%Z).
Proof.
  intros answers.
  rewrite (@update_retries_are_bounded ascii_only answers 5 5).
  - reflexivity.
  - intros k Hk. reflexivity.
  - by left.
Defined.

(** ** The address and the controllers of a company found *)

(** X23. The address chosen for a company is the snippet of the search,
    or a text that is not empty: an office address whose parts are all
    missing or empty is never used. *)
Theorem chosen_address_is_snippet_or_text (profile : option (list (str * json)))
    (company_type snippet : json) :
  pick_company_address profile company_type snippet = snippet
  \/ exists s, s <> [] /\ pick_company_address profile company_type snippet = JStr s.
Proof.
  assert (forall a b, or_else (format_address a) b = b
                      \/ exists s, s <> [] /\ or_else (format_address a) b = JStr s)
    as Hfmt.
  { intros a b. unfold format_address. destruct a; try by left.
    destruct (str_eqb _ []) eqn:E; [by left|]. right. eexists. split; [|done].
    unfold str_eqb in E. by apply bool_decide_eq_false_1 in E. }
  unfold pick_company_address. destruct profile as [p|]; [|by left].
  destruct (negb (truthy (JObj p))); [by left|].
  destruct (_ || _).
  - destruct (Hfmt (get "principal_office_address" p)
                (or_else (format_address (get "registered_office_address" p)) snippet))
      as [-> | ?]; [|by right]. apply Hfmt.
  - apply Hfmt.
Qed.

(** X24. When the company is found and its controllers request is
    answered 404 or 403, with or without a profile, the company is
    recorded as "No BO" with its number: a refusal is not told apart from
    a company without controllers, and the request is not repeated. *)
Theorem unavailable_controllers_are_no_bo `{Unicode} `{WordList}
    (name : str) (w w1 : world) (title num snippet company_status : json)
    (profile : option (list (str * json))) (status : Z) (retry : option Z)
    (body : list (str * json)) (rest : list response) (t2 : list event) :
  BO_cache w !! normalise_text name = None ->
  get_company_details name w = Some ((title, num, snippet, company_status), w1) ->
  truthy num = true ->
  get_company_profile num (registry w1) (trace w1)
  = Some (profile, Http status retry body :: rest, t2) ->
  status = 404%Z \/ status = 403%Z ->
  exists chosen_addr w',
    find_BOs_for_company name w = Some ((No_BO, [], chosen_addr, num), w')
    /\ registry w' = rest
    /\ trace w' = t2 ++ [Request (ControllersOf num)]
    /\ BO_cache w' !! normalise_text name = Some (No_BO, [], chosen_addr, num).
Proof.
  intros Hcache Hdetails Hnum Hprofile Hstatus.
  unfold find_BOs_for_company. rewrite Hcache, Hdetails, Hnum. cbn [negb].
  rewrite Hprofile, (get_BO_list_unavailable num status retry body rest t2 Hstatus).
  eexists _, _. split; [reflexivity|]. cbn [registry trace BO_cache].
  split; [done|]. split; [done|]. apply lookup_insert_eq.
Qed.

Lemma unavailable_controllers_witness :
  let w := Sample.fresh
             [Sample.page [Sample.item "registered-overseas-entity"
                             "GABLE ENTERPRISES LTD" "OE000001"];
              Sample.status_only 404; Sample.status_only 403;
              Sample.status_only 200] in
  exists chosen_addr w',
    @find_BOs_for_company ascii_only Sample.words Sample.gable w
    = Some ((No_BO, [], chosen_addr, JStr (py "OE000001")), w')
    /\ registry w' = [Sample.status_only 200].
Proof.
  intros w.
  set (details := @get_company_details ascii_only Sample.words Sample.gable w).
  assert (details
          = Some (default not_found (fst <$> details), default w (snd <$> details)))
    as Hdetails.
  { apply computed_pair. vm_compute. reflexivity. }
  assert (default not_found (fst <$> details)
          = (JStr (py "GABLE ENTERPRISES LTD"), JStr (py "OE000001"),
             JStr (py "1 High Street, Road Town, Tortola"), JStr (py "registered")))
    as Hres.
  { vm_compute. reflexivity. }
  rewrite Hres in Hdetails.
  destruct (@unavailable_controllers_are_no_bo ascii_only Sample.words Sample.gable
              w _ _ _ _ _ None 403 None [] [Sample.status_only 200]
              [Request (Search Sample.gable 100 0);
               Request (ProfileOf (JStr (py "OE000001")))]
              eq_refl Hdetails eq_refl)
    as (chosen_addr & w' & Hfind & Hreg & _).
  - vm_compute. reflexivity.
  - by right.
  - exists chosen_addr, w'. split; [exact Hfind|exact Hreg].
Defined.

(** ** The order of arrival *)

Section ArrivalOrder.

Lemma add_counters_swap c a b :
  add_counters (add_counters c a) b = add_counters (add_counters c b) a.
Proof. destruct a, b, c. unfold add_counters. cbn. f_equal; lia. Qed.

Lemma totals_permutation (cs cs' : list counters) :
  cs ≡ₚ cs' ->
  forall c, fold_left add_counters cs c = fold_left add_counters cs' c.
Proof.
  induction 1 as [|x l l' _ IH|x y l|l1 l2 l3 _ IH1 _ IH2]; intros c;
    cbn [fold_left].
  - done.
  - apply IH.
  - by rewrite add_counters_swap.
  - by rewrite IH1.
Qed.

Lemma concat_permutation {A} (ls ls' : list (list A)) :
  ls ≡ₚ ls' -> concat ls ≡ₚ concat ls'.
Proof.
  induction 1 as [|x l l' _ IH|x y l|l1 l2 l3 _ IH1 _ IH2]; cbn [concat].
  - done.
  - by apply Permutation_app_head.
  - rewrite !app_assoc. apply Permutation_app_tail, Permutation_app_comm.
  - by etrans.
Qed.

End ArrivalOrder.

(** X25. The order in which the batches of the workers arrive does not
    change what is written: for two orders of the same results, the
    totals and the number of applied rows are equal, and the updates
    committed are the same up to their order. *)
Theorem arrival_order_is_immaterial (use_wal : bool) (flush_batch : nat)
    (rs rs' : list (list (Z * gmap col (option (list N))) * counters)) :
  rs ≡ₚ rs' ->
  let s := fst (drain use_wal flush_batch writer_start (map Done rs)) in
  let s' := fst (drain use_wal flush_batch writer_start (map Done rs')) in
  totals s = totals s'
  /\ applied s = applied s'
  /\ concat (committed s) ≡ₚ concat (committed s')
  /\ pending_updates s = [] /\ pending_updates s' = [].
Proof.
  intros Hperm s s'.
  destruct (drain_accounted use_wal flush_batch rs writer_start [] no_counts)
    as [(s1 & Hd1 & (Hu1 & Ha1 & Ht1 & _) & Hp1) _]; [repeat split; constructor|].
  destruct (drain_accounted use_wal flush_batch rs' writer_start [] no_counts)
    as [(s2 & Hd2 & (Hu2 & Ha2 & Ht2 & _) & Hp2) _]; [repeat split; constructor|].
  unfold s, s'. rewrite Hd1, Hd2. cbn [fst].
  rewrite Hp1, app_nil_r in Hu1. rewrite Hp2, app_nil_r in Hu2. cbn [app] in Hu1, Hu2.
  assert (concat (committed s1) ≡ₚ concat (committed s2)) as Hc.
  { rewrite Hu1, Hu2. apply concat_permutation. by apply fmap_Permutation. }
  split; [|split; [|done]].
  - rewrite Ht1, Ht2. apply totals_permutation. by apply fmap_Permutation.
  - rewrite Ha1, Ha2. by apply Permutation_length.
Qed.

Lemma arrival_order_witness :
  let a : list (Z * gmap col (option (list N))) * counters :=
    ([(7%Z, {[BO 1 1 f_reg_status := Some (py "listed")]})],
     count listed no_counts) in
  let b : list (Z * gmap col (option (list N))) * counters :=
    ([(9%Z, {[BO 2 1 f_reg_status := Some (py "trustee")]})],
     count trustee no_counts) in
  totals (fst (drain true 1 writer_start (map Done [a; b])))
  = totals (fst (drain true 1 writer_start (map Done [b; a]))).
Proof.
  intros a b.
  apply (arrival_order_is_immaterial true 1 [a; b] [b; a]).
  apply Permutation_swap.
Defined.

(** ** The reference lists *)

(** X26. The entries of the loaded reference lists are normal forms:
    they hold only a-z and 0-9.  A text file gives one entry for each
    line that is not blank, in order, with no entry dropped or merged,
    and a file that is not found gives no entry. *)
Theorem reference_entries_are_normal_forms `{Unicode} `{WordList}
    (file : option (list str)) (delimiter : N) (company_name_col : nat)
    (skip_header : bool) :
  Forall (Forall (fun c => is_az09 c = true)) (load_and_normalise_text_file file)
  /\ Forall (Forall (fun c => is_az09 c = true))
            (load_listing_names file delimiter company_name_col skip_header)
  /\ length (load_and_normalise_text_file file)
     = length (List.filter (fun line => negb (str_eqb (strip line) []))
                           (default [] file))
  /\ load_and_normalise_text_file None = []
  /\ load_listing_names None delimiter company_name_col skip_header = [].
Proof.
  split; [|split; [|split; [|done]]].
  - destruct file as [lines|]; [|constructor]. cbn [load_and_normalise_text_file].
    apply Forall_forall. intros e He. apply list_elem_of_In, in_map_iff in He.
    destruct He as (line & <- & _). apply normalise_text_az09.
  - destruct file as [lines|]; [|constructor]. cbn [load_listing_names].
    apply Forall_forall. intros e He. apply list_elem_of_omap in He.
    destruct He as (line & _ & He). cbv zeta in He.
    destruct (_ <? _)%nat; [|done].
    destruct (split_on delimiter (strip line) !! company_name_col); [|done].
    injection He as <-. apply normalise_text_az09.
  - destruct file as [lines|]; [|done]. cbn [load_and_normalise_text_file default].
    apply length_map.
Qed.

(** X27. A line of the manual exclusions that is not blank but whose
    normal form is empty (only tokens, or only punctuation) puts the
    empty name among the exclusions; from then on a missing name and
    every name whose normal form is empty count as excluded, and a
    corporate owner with such a name that is not in the UK, not listed
    and not government-owned is "manually checked". *)
Theorem empty_exclusion_excludes_nameless
    `{Unicode} `{WordList} `{Parsers} `{Fuzzy} `{Geometry} `{ReferenceData}
    (lines : list str) (line : str) (company_name : option str) :
  manual_exclusions = load_and_normalise_text_file (Some lines) ->
  line ∈ lines -> strip line <> [] -> normalise_text line = [] ->
  match company_name with
  | Some name => normalise_text name = []
  | None => True
  end ->
  is_it_excluded company_name = true
  /\ forall (row : col -> option (list N)) (i j : nat) (t : bool),
       row (BO i j f_name) = company_name ->
       is_listed_company company_name = false ->
       is_government_owned company_name = false ->
       uk_checks (row (BO i j f_address)) (row (BO i j f_legal_form))
                 (row (BO i j f_latlon)) = Done false ->
       trustee_control (row property_title_number) i j
                       (row (BO i j f_natures_of_control)) = Done t ->
       classify_corporate row i j = Done manually_checked.
Proof.
  intros Hmanual Hline Hblank Hempty Hname.
  assert (is_it_excluded company_name = true) as Hexcluded.
  { unfold is_it_excluded.
    apply bool_decide_eq_true_2. rewrite Hmanual. cbn [load_and_normalise_text_file].
    assert ((match company_name with
             | Some name => normalise_text name
             | None => []
             end) = normalise_text line) as ->.
    { rewrite Hempty. by destruct company_name. }
    apply list_elem_of_In, in_map, filter_In. split; [by apply list_elem_of_In|].
    unfold str_eqb. by rewrite bool_decide_eq_false_2. }
  split; [done|].
  intros row i j t Hrow Hlisted Hgov Huk Htrust. unfold classify_corporate.
  rewrite Huk, Htrust, Hrow. cbn [bind]. by rewrite Hlisted, Hgov, Hexcluded.
Qed.

Lemma empty_exclusion_witness :
  let lines := [py "Acme Widgets Ltd"; py "S.A."] in
  let reference : ReferenceData :=
    {| all_listed_companies := []; normalised_government_companies := [];
       manual_exclusions :=
         @load_and_normalise_text_file ascii_only Sample.words (Some lines) |} in
  let row (c : col) :=
    match c with
    | BO 1 1 f_kind => Some (py "corporate-entity-beneficial-owner")
    | BO 2 1 f_kind => Some (py "corporate-entity-beneficial-owner")
    | BO 2 1 f_name => Some (py "Limited")
    | _ => None
    end in
  @is_it_excluded ascii_only Sample.words reference None = true
  /\ @classify_corporate ascii_only Sample.words Sample.parsers Sample.fuzzy
       Sample.geometry reference row 1 1 = Done manually_checked
  /\ @classify_corporate ascii_only Sample.words Sample.parsers Sample.fuzzy
       Sample.geometry reference row 2 1 = Done manually_checked.
Proof.
  intros lines reference row.
  assert (py "S.A." ∈ lines) as Hin by (apply list_elem_of_In; simpl; tauto).
  assert (strip (py "S.A.") <> []) as Hblank by (vm_compute; discriminate).
  assert (@normalise_text ascii_only Sample.words (py "S.A.") = []) as Hempty
    by (vm_compute; reflexivity).
  destruct (@empty_exclusion_excludes_nameless ascii_only Sample.words Sample.parsers
              Sample.fuzzy Sample.geometry reference lines (py "S.A.") None
              eq_refl Hin Hblank Hempty I) as [Hnone Hrow1].
  destruct (@empty_exclusion_excludes_nameless ascii_only Sample.words Sample.parsers
              Sample.fuzzy Sample.geometry reference lines (py "S.A.")
              (Some (py "Limited")) eq_refl Hin Hblank Hempty
              ltac:(vm_compute; reflexivity)) as [_ Hrow2].
  split; [exact Hnone|]. split.
  - apply (Hrow1 row 1 1 false); reflexivity.
  - apply (Hrow2 row 2 1 false); reflexivity.
Defined.
